(** * Browser measurement utilities: TextOverflowDetector and ScrollbarWidthDetector

    A shallow embedding of [src/TextOverflowDetector.js] and
    [src/ScrollbarWidthDetector.js].

    The scripts run against a live document.  The part of the document they
    write to (inline styles, text nodes, child lists, [document.body]
    included, and the static cache fields of the two classes) is explicit
    state; what they only read from the browser (selector lookup, the text
    under a node, layout geometry, computed style) is an opaque [Host], asked
    about the document as it stands at the time of the question.  JavaScript exceptions are an explicit outcome, so
    that [try]/[catch]/[finally] can be written as in the source. *)

From Stdlib Require Import ZArith Lia String Ascii List Bool Sorted SpecFloat.
From stdpp Require Import base option list gmap strings.

Local Open Scope Z_scope.

(** ** JavaScript values used by the scripts *)

(** A thrown value: only [error.message] is ever read. *)
Record exn := Exn { message : string }.

(** Object identity of a DOM node. *)
Abbreviation node := positive (only parsing).

(** Truthiness of a string-or-null value ([if (result.error)]). *)
Definition truthy (v : option string) : bool :=
  match v with
  | Some EmptyString => false
  | Some _ => true
  | None => false
  end.

(** *** Text

    The strings whose length and white space the scripts look at (text
    content, the [text] argument) are sequences of UTF-16 code units. *)
Abbreviation Text := (list N) (only parsing).

(** The code units of a string of ASCII characters. *)
Definition ascii_text (s : string) : Text :=
  map N_of_ascii (list_ascii_of_string s).

(** Truthiness of a text-or-null value ([if (text)], [text || ...]). *)
Definition truthyText (v : option Text) : bool :=
  match v with
  | Some [] => false
  | Some _ => true
  | None => false
  end.

(** The code points [String.prototype.trim] strips: WhiteSpace (TAB, VT,
    FF, SP, NBSP, ZWNBSP and the other space separators) and LineTerminator
    (LF, CR, LS, PS). *)
Definition whiteSpaceCodes : list N :=
  [ 0x0009; 0x000A; 0x000B; 0x000C; 0x000D; 0x0020; 0x00A0; 0x1680;
    0x2000; 0x2001; 0x2002; 0x2003; 0x2004; 0x2005; 0x2006; 0x2007;
    0x2008; 0x2009; 0x200A; 0x2028; 0x2029; 0x202F; 0x205F; 0x3000;
    0xFEFF ]%N.

Definition isWhiteSpace (c : N) : bool :=
  existsb (N.eqb c) whiteSpaceCodes.

Fixpoint trimStart (s : Text) : Text :=
  match s with
  | c :: s' => if isWhiteSpace c then trimStart s' else s
  | [] => []
  end.

Fixpoint trimEnd (s : Text) : Text :=
  match s with
  | c :: s' =>
      match trimEnd s' with
      | [] => if isWhiteSpace c then [] else [c]
      | t => c :: t
      end
  | [] => []
  end.

Definition trim (s : Text) : Text := trimEnd (trimStart s).

(** [!s] on a string. *)
Definition isEmpty (s : Text) : bool :=
  match s with
  | [] => true
  | _ => false
  end.

(** *** Numbers

    A Number is an IEEE 754 binary64 value: [spec_float] read with a 53 bit
    mantissa and exponents below 1024.  Subtraction is the correctly rounded
    one of the standard library. *)
Definition prec : Z := 53.
Definition emax : Z := 1024.

Abbreviation number := spec_float (only parsing).

Definition NaN : number := S754_nan.
Definition zero : number := S754_zero false.

(** The Number nearest to an integer. *)
Definition Z2num (n : Z) : number := binary_normalize prec emax n 0 false.

(** [x - y] *)
Definition sub (x y : number) : number := SFsub prec emax x y.

(** The signed mantissa of [m * 2^e] once written with the exponent [ez],
    [ez <= e]. *)
Definition scaled (s : bool) (m : positive) (e ez : Z) : Z :=
  cond_Zopp s (Zpos (fst (shl_align m e ez))).

(** Comparison of two Numbers by their values; [None] when one is NaN.
    The two zeros are equal. *)
Definition numCompare (x y : number) : option comparison :=
  match x, y with
  | S754_nan, _ | _, S754_nan => None
  | S754_infinity s1, S754_infinity s2 =>
      Some match s1, s2 with
           | true, true | false, false => Eq
           | true, false => Lt
           | false, true => Gt
           end
  | S754_infinity s, _ => Some (if s then Lt else Gt)
  | _, S754_infinity s => Some (if s then Gt else Lt)
  | S754_finite s _ _, S754_zero _ => Some (if s then Lt else Gt)
  | S754_zero _, S754_finite s _ _ => Some (if s then Gt else Lt)
  | S754_zero _, S754_zero _ => Some Eq
  | S754_finite s1 m1 e1, S754_finite s2 m2 e2 =>
      let ez := Z.min e1 e2 in
      Some (Z.compare (scaled s1 m1 e1 ez) (scaled s2 m2 e2 ez))
  end.

(** [x < y] and [x <= y]: false when one side is NaN. *)
Definition lessThan (x y : number) : bool :=
  match numCompare x y with
  | Some Lt => true
  | _ => false
  end.

Definition lessEq (x y : number) : bool :=
  match numCompare x y with
  | Some (Lt | Eq) => true
  | _ => false
  end.

(** [x > y] *)
Definition gt (x y : number) : bool := lessThan y x.

(** [Math.round]: NaN, the infinities and the zeros are returned as they
    are; otherwise the integer nearest to [x], halves going up, which is -0
    for [x] in [-0.5, 0). *)
Definition Math_round (x : number) : number :=
  match x with
  | S754_finite s m e =>
      let n :=
        match e with
        | Zneg k => Z.shiftr (cond_Zopp s (Zpos m) + 2 ^ (Zpos k - 1)) (Zpos k)
        | _ => cond_Zopp s (Zpos m) * 2 ^ e
        end in
      binary_normalize prec emax n 0 s
  | _ => x
  end.

(** [Math.max(0, x)]: NaN for NaN, and +0 is the larger zero. *)
Definition Math_max0 (x : number) : number :=
  match x with
  | S754_nan => S754_nan
  | S754_infinity false => x
  | S754_finite false _ _ => x
  | _ => zero
  end.

(** A double that is finite: a zero, or a mantissa and exponent in
    canonical form. *)
Definition finite_double (x : number) : bool :=
  match x with
  | S754_zero _ => true
  | S754_finite _ m e => bounded prec emax m e
  | _ => false
  end.

Record double := mkDouble {
  dvalue : number;
  dfinite : finite_double dvalue = true;
}.

(** The finite double [x] is, or 0 when it is none. *)
Definition asDouble (x : number) : double :=
  match Sumbool.sumbool_of_bool (finite_double x) with
  | left H => mkDouble x H
  | right _ => mkDouble zero eq_refl
  end.

(** The double nearest to [a / b], for integers below 2^53. *)
Definition ratio (a b : Z) : double :=
  asDouble (SFdiv prec emax (Z2num a) (Z2num b)).

(** A [long] of Web IDL: a 32-bit signed integer. *)
Definition is_long (n : Z) : bool := (- 2 ^ 31 <=? n) && (n <? 2 ^ 31).

Record long := mkLong {
  lvalue : Z;
  lrange : is_long lvalue = true;
}.

Definition asLong (n : Z) : long :=
  match Sumbool.sumbool_of_bool (is_long n) with
  | left H => mkLong n H
  | right _ => mkLong 0 eq_refl
  end.

(** The conversion of an integer to a [long]: modulo 2^32, into the signed
    range. *)
Definition toInt32 (n : Z) : Z := (n + 2 ^ 31) mod 2 ^ 32 - 2 ^ 31.

(** What reading a numeric property gives: a Number, or undefined where
    the object has no such property. *)
Inductive Value :=
| undefined
| Num (x : number).

(** The operand of an arithmetic operator as a Number. *)
Definition toNumber (v : Value) : number :=
  match v with
  | undefined => NaN
  | Num x => x
  end.

(** [x || 0] for the number [parseFloat] produced ([None] is NaN): NaN and
    the zeros are falsy. *)
Definition orZero (x : option double) : number :=
  match x with
  | Some d =>
      match dvalue d with
      | S754_zero _ => zero
      | v => v
      end
  | None => zero
  end.

(** ** The document *)

(** A node of the document: an element, or a Text node, which is no
    HTMLElement, has no children and holds its characters in [data]. *)
Record Element := mkElement {
  isHTMLElement : bool;            (* [x instanceof HTMLElement] *)
  style : gmap string string;      (* what was assigned to [x.style], by property *)
  data : Text;                     (* the characters of a Text node *)
  childNodes : list node;
}.

(** The document as the browser sees it: every node and the one that is
    [document.body]. *)
Record Document := mkDocument {
  doc_body : node;
  doc_elements : gmap node Element;
}.

(** [window.getComputedStyle(element)].  The two paddings are held as the
    number [parseFloat] reads off them ([None] for NaN). *)
Record ComputedStyle := mkComputedStyle {
  property : string -> string;
  paddingLeft : option double;
  paddingRight : option double;
}.

(** The browser as the scripts see it: selector engine and layout engine.
    Every answer is about the document as it is when the question is asked.
    A geometry or style query either answers or throws. *)
Record Host := mkHost {
  (* [document.querySelector(s)]: throws SyntaxError on a malformed selector *)
  querySelector : Document -> string -> exn + option node;
  (* [x.textContent]: the text of the Text nodes under [x] *)
  textContent : Document -> node -> Text;
  (* the rendered text of an HTML element, [element.innerText] *)
  renderedText : Document -> node -> Text;
  (* a range over all child nodes: [range.getBoundingClientRect().width] *)
  rangeWidth : Document -> node -> exn + double;
  (* [x.offsetWidth] of an HTML element *)
  offsetWidth : Document -> node -> exn + long;
  getComputedStyle : Document -> node -> exn + ComputedStyle;
}.

Record World := mkWorld {
  host : Host;
  body : node;                     (* [document.body] *)
  elements : gmap node Element;    (* every node object alive *)
  clock : Z;                       (* Date.now(), in milliseconds *)
  measureElement : option node;    (* TextOverflowDetector._measureElement *)
  cachedWidth : option Z;          (* ScrollbarWidthDetector._cachedWidth *)
}.

Definition document (w : World) : Document := mkDocument (body w) (elements w).

Definition setElements (f : gmap node Element -> gmap node Element) (w : World) : World :=
  mkWorld (host w) (body w) (f (elements w)) (clock w) (measureElement w) (cachedWidth w).

Definition setClock (t : Z) (w : World) : World :=
  mkWorld (host w) (body w) (elements w) t (measureElement w) (cachedWidth w).

Definition setMeasureElement (m : option node) (w : World) : World :=
  mkWorld (host w) (body w) (elements w) (clock w) m (cachedWidth w).

Definition setCachedWidth (c : option Z) (w : World) : World :=
  mkWorld (host w) (body w) (elements w) (clock w) (measureElement w) c.

(** A node nothing refers to yet reads as an empty non-HTML object. *)
Definition blank : Element := mkElement false ∅ [] [].

Definition elementAt (w : World) (n : node) : Element :=
  default blank (elements w !! n).

Definition withChildren (e : Element) (l : list node) : Element :=
  mkElement (isHTMLElement e) (style e) (data e) l.

(** The children of [document.body]. *)
Definition attached (w : World) : list node := childNodes (elementAt w (body w)).

Definition setAttached (f : list node -> list node) (w : World) : World :=
  setElements
    (insert (body w) (withChildren (elementAt w (body w)) (f (attached w)))) w.

(** ** Computations: state plus exceptions *)

Inductive Outcome (A : Type) : Type :=
| Return (a : A)
| Throw (e : exn).
Arguments Return {A} a.
Arguments Throw {A} e.

Definition M (A : Type) : Type := World -> Outcome A * World.

Definition ret {A} (a : A) : M A := fun w => (Return a, w).

Definition throw {A} (e : exn) : M A := fun w => (Throw e, w).

Definition bind {A B} (m : M A) (k : A -> M B) : M B :=
  fun w =>
    match m w with
    | (Return a, w') => k a w'
    | (Throw e, w') => (Throw e, w')
    end.

(** [try { body } catch (error) { handler }] *)
Definition tryCatch {A} (body : M A) (handler : exn -> M A) : M A :=
  fun w =>
    match body w with
    | (Return a, w') => (Return a, w')
    | (Throw e, w') => handler e w'
    end.

(** [try { body } finally { cleanup }] *)
Definition tryFinally {A} (body : M A) (cleanup : M unit) : M A :=
  fun w =>
    match body w with
    | (Return a, w') =>
        match cleanup w' with
        | (Return _, w'') => (Return a, w'')
        | (Throw e, w'') => (Throw e, w'')
        end
    | (Throw e, w') =>
        match cleanup w' with
        | (Return _, w'') => (Throw e, w'')
        | (Throw e', w'') => (Throw e', w'')
        end
    end.

Definition get {A} (f : World -> A) : M A := fun w => (Return (f w), w).

Definition modify (f : World -> World) : M unit := fun w => (Return tt, f w).

(** A host query: its answer, or the exception it raises. *)
Definition query {A} (f : World -> exn + A) : M A :=
  fun w =>
    match f w with
    | inl e => (Throw e, w)
    | inr a => (Return a, w)
    end.

Declare Scope js_scope.
Delimit Scope js_scope with js.
Notation "'let*' x ':=' m 'in' k" := (bind m (fun x => k))
  (at level 10, x name, m at level 100, k at level 200) : js_scope.
Notation "'do' m 'then' k" := (bind m (fun _ => k))
  (at level 10, m at level 100, k at level 200) : js_scope.
Local Open Scope js_scope.

(** [targets.map(f)], left to right. *)
Fixpoint mapM {A B} (f : A -> M B) (l : list A) : M (list B) :=
  match l with
  | [] => ret []
  | x :: l' => let* y := f x in let* ys := mapM f l' in ret (y :: ys)
  end.

(** ** DOM operations *)

Definition Date_now : M Z := get clock.

(** The nodes there are: those of the document, the body and the cached
    template. *)
Definition nodes (w : World) : gset node :=
  {[ body w ]} ∪ dom (elements w) ∪
  match measureElement w with
  | Some t => {[ t ]}
  | None => ∅
  end.

(** The identity of a node made now: none of them has it. *)
Definition newNode (w : World) : node := fresh (nodes w).

(** [document.createElement(tag)]: a new detached HTML element. *)
Definition createElement : M node :=
  fun w =>
    let n := newNode w in
    (Return n, setElements (insert n (mkElement true ∅ [] [])) w).

(** [document.createTextNode(s)], as the [textContent] setter makes one. *)
Definition createTextNode (s : Text) : M node :=
  fun w =>
    let n := newNode w in
    (Return n, setElements (insert n (mkElement false ∅ s [])) w).

(** [x.cloneNode()]: a shallow copy, without the children. *)
Definition cloneNode (x : node) : M node :=
  fun w =>
    let n := newNode w in
    (Return n, setElements (insert n (withChildren (elementAt w x) [])) w).

Definition updateElement (x : node) (f : Element -> Element) : M unit :=
  fun w => (Return tt, setElements (insert x (f (elementAt w x))) w).

(** [x.style.cssText = ...] replaces the declarations. *)
Definition setCssText (x : node) (decls : list (string * string)) : M unit :=
  updateElement x (fun e =>
    mkElement (isHTMLElement e) (list_to_map decls) (data e) (childNodes e)).

(** [x.style[prop] = value] *)
Definition setStyle (x : node) (prop value : string) : M unit :=
  updateElement x (fun e =>
    mkElement (isHTMLElement e) (<[prop := value]> (style e)) (data e) (childNodes e)).

(** [x.textContent = s]: the children of [x] are replaced by one new Text
    node holding [s], or by nothing when [s] is empty. *)
Definition setTextContent (x : node) (s : Text) : M unit :=
  if isEmpty s
  then updateElement x (fun e => withChildren e [])
  else
    let* t := createTextNode s in
    updateElement x (fun e => withChildren e [t]).

Definition remove (x : node) (l : list node) : list node :=
  filter (fun y => y ≠ x) l.

(** [document.body.appendChild(x)]: [x] becomes the last child. *)
Definition body_appendChild (x : node) : M unit :=
  modify (setAttached (fun l => remove x l ++ [x])).

(** [document.body.removeChild(x)]: throws when [x] is not a child. *)
Definition body_removeChild (x : node) : M unit :=
  fun w =>
    if decide (x ∈ attached w)
    then (Return tt, setAttached (remove x) w)
    else (Throw (Exn "The node to be removed is not a child of this node."), w).

(** [x.parentNode], as a condition. *)
Definition hasParent (x : node) : M bool :=
  get (fun w => bool_decide (x ∈ attached w)).

(** [x.offsetWidth] where [x] is known to be an HTML element. *)
Definition HTMLElement_offsetWidth (x : node) : M Z :=
  query (fun w =>
    match offsetWidth (host w) (document w) x with
    | inl e => inl e
    | inr n => inr (lvalue n)
    end).

(** [x.offsetWidth] on any element: the property exists on HTML elements
    only. *)
Definition offsetWidthOf (w : World) (x : node) : exn + Value :=
  if isHTMLElement (elementAt w x)
  then match offsetWidth (host w) (document w) x with
       | inl e => inl e
       | inr n => inr (Num (Z2num (lvalue n)))
       end
  else inr undefined.

Definition get_offsetWidth (x : node) : M Value :=
  query (fun w => offsetWidthOf w x).

Definition window_getComputedStyle (x : node) : M ComputedStyle :=
  query (fun w => getComputedStyle (host w) (document w) x).

(** [element.innerText] is defined on HTML elements only. *)
Definition get_innerText (x : node) : M (option Text) :=
  get (fun w =>
    if isHTMLElement (elementAt w x)
    then Some (renderedText (host w) (document w) x)
    else None).

(** ** TextOverflowDetector *)

(** What a caller may pass as [target]. *)
Inductive Target :=
| Selector (s : string)          (* a string, handed to [document.querySelector] *)
| Ref (n : node)                 (* an object reference *)
| NotAnElement.                  (* any other value: null, undefined, a number... *)

(** The optional fields a result carries ([...details]). *)
Record Details := mkDetails {
  d_textWidth : option Value;
  d_containerWidth : option Value;
  d_availableWidth : option number;
  d_overflowAmount : option number;
  d_textLength : option nat;
}.

Definition noDetails : Details := mkDetails None None None None None.

Record Result := mkResult {
  isOverflowing : bool;
  error : option string;           (* [null] is [None] *)
  details : Details;
  timestamp : Z;
}.

Definition textWidth (r : Result) := d_textWidth (details r).
Definition containerWidth (r : Result) := d_containerWidth (details r).
Definition availableWidth (r : Result) := d_availableWidth (details r).
Definition overflowAmount (r : Result) := d_overflowAmount (details r).
Definition textLength (r : Result) := d_textLength (details r).

Module TextOverflowDetector.

Definition _createResult (isOverflowing : bool) (error : option string)
    (details : Details) : M Result :=
  let* now := Date_now in
  ret (mkResult isOverflowing error details now).

Definition _getElement (target : Target) : M (option node) :=
  match target with
  | Selector s => query (fun w => querySelector (host w) (document w) s)
  | Ref n =>
      let* e := get (fun w => elements w !! n) in
      ret (match e with
           | Some e => if isHTMLElement e then Some n else None
           | None => None
           end)
  | NotAnElement => ret None
  end.

Definition templateCss : list (string * string) :=
  [ ("position", "absolute !important");
    ("visibility", "hidden !important");
    ("white-space", "nowrap !important");
    ("top", "-9999px !important");
    ("left", "-9999px !important");
    ("pointer-events", "none !important") ]%string.

Definition _getMeasureElement : M node :=
  let* cached := get measureElement in
  let* template :=
    match cached with
    | Some t => ret t
    | None =>
        let* t := createElement in
        do modify (setMeasureElement (Some t)) then
        do setCssText t templateCss then
        ret t
    end in
  cloneNode template.

Definition textStyleProps : list string :=
  [ "font-family"; "font-size"; "font-weight"; "font-style";
    "letter-spacing"; "word-spacing"; "text-transform" ]%string.

(** [textStyleProps.forEach(prop => ...)] *)
Fixpoint forEach {A} (f : A -> M unit) (l : list A) : M unit :=
  match l with
  | [] => ret tt
  | x :: l' => do f x then forEach f l'
  end.

Definition _copyTextStyles (source target : node) : M unit :=
  let* computedStyle := window_getComputedStyle source in
  forEach (fun prop => setStyle target prop (property computedStyle prop)) textStyleProps.

Definition detectByRange (target : Target) : M Result :=
  let* element := _getElement target in
  match element with
  | None => _createResult false (Some "Element not found"%string) noDetails
  | Some element =>
      let* children := get (fun w => childNodes (elementAt w element)) in
      if Nat.eqb (length children) 0
      then _createResult false (Some "No text content"%string) noDetails
      else
        tryCatch
          (let* textWidth := query (fun w => rangeWidth (host w) (document w) element) in
           let textWidth := dvalue textWidth in
           let* containerWidth := get_offsetWidth element in
           let* computedStyle := window_getComputedStyle element in
           let paddingLeft := orZero (paddingLeft computedStyle) in
           let paddingRight := orZero (paddingRight computedStyle) in
           let availableWidth := sub (sub (toNumber containerWidth) paddingLeft) paddingRight in
           let isOverflowing := gt textWidth availableWidth in
           let overflowAmount := Math_max0 (sub textWidth availableWidth) in
           _createResult isOverflowing None
             (mkDetails (Some (Num (Math_round textWidth))) (Some containerWidth)
                (Some (Math_round availableWidth)) (Some (Math_round overflowAmount))
                None))
          (fun error =>
             _createResult false
               (Some ("Range detection failed: " ++ message error)%string) noDetails)
  end.

(** [text || element.textContent || element.innerText]; [None] is undefined. *)
Definition testTextOf (text : option Text) (ownText : Text)
    (innerText : option Text) : option Text :=
  if truthyText text then text
  else if truthyText (Some ownText) then Some ownText
  else innerText.

Definition detectByClone (target : Target) (text : option Text) : M Result :=
  let* element := _getElement target in
  match element with
  | None => _createResult false (Some "Element not found"%string) noDetails
  | Some element =>
      let* ownText := get (fun w => textContent (host w) (document w) element) in
      let* innerText := get_innerText element in
      match testTextOf text ownText innerText with
      | None =>
          throw (Exn "Cannot read properties of undefined (reading 'trim')")
      | Some testText =>
          if isEmpty (trim testText)
          then _createResult false (Some "No text content"%string) noDetails
          else
            tryCatch
              (let* measureElement := _getMeasureElement in
               do _copyTextStyles element measureElement then
               do setTextContent measureElement testText then
               do body_appendChild measureElement then
               let* textWidth := get_offsetWidth measureElement in
               let* containerWidth := get_offsetWidth element in
               let* computedStyle := window_getComputedStyle element in
               let paddingLeft := orZero (paddingLeft computedStyle) in
               let paddingRight := orZero (paddingRight computedStyle) in
               let availableWidth :=
                 sub (sub (toNumber containerWidth) paddingLeft) paddingRight in
               let isOverflowing := gt (toNumber textWidth) availableWidth in
               let overflowAmount := Math_max0 (sub (toNumber textWidth) availableWidth) in
               do body_removeChild measureElement then
               _createResult isOverflowing None
                 (mkDetails (Some textWidth) (Some containerWidth)
                    (Some (Math_round availableWidth)) (Some (Math_round overflowAmount))
                    (Some (length testText))))
              (fun error =>
                 let* template := get measureElement in
                 do match template with
                    | Some t =>
                        let* inDocument := hasParent t in
                        if inDocument then body_removeChild t else ret tt
                    | None => ret tt
                    end then
                 _createResult false
                   (Some ("Clone detection failed: " ++ message error)%string) noDetails)
      end
  end.

Definition detect (target : Target) (text : option Text) : M Result :=
  if truthyText text then detectByClone target text
  else
    let* rangeResult := detectByRange target in
    if truthy (error rangeResult) then detectByClone target None
    else ret rangeResult.

Definition detectMultiple (targets : list Target) : M (list Result) :=
  mapM (fun target => detect target None) targets.

Definition cleanup : M unit :=
  let* template := get measureElement in
  do match template with
     | Some t =>
         let* inDocument := hasParent t in
         if inDocument then body_removeChild t else ret tt
     | None => ret tt
     end then
  modify (setMeasureElement None).

(** *** observe

    One call of [observe] owns a closure variable [timeoutId], the
    timeouts it has asked the window for, a MutationObserver, and the
    callback, whose invocations are recorded in order. *)

Record Options := mkOptions {
  immediate : option bool;       (* [None]: not given, defaults to true *)
  debounce : option Z;           (* [None]: not given, defaults to 100 *)
}.

Record Observation := mkObservation {
  element : node;                (* the resolved target *)
  delay : Z;                     (* [debounce] *)
  timeoutId : option nat;        (* [let timeoutId], initially undefined *)
  timers : list (nat * Z);       (* pending timeouts: id and due time *)
  nextTimer : nat;
  connected : bool;              (* the observer is observing [element] *)
  calls : list (Result * node);  (* [callback(result, element)], oldest first *)
}.

(** [clearTimeout(id)]: nothing happens for undefined or a timeout that is
    no longer pending. *)
Definition clearTimeout (id : option nat) (o : Observation) : Observation :=
  match id with
  | Some i =>
      mkObservation (element o) (delay o) (timeoutId o)
        (filter (fun t => fst t ≠ i) (timers o)) (nextTimer o) (connected o) (calls o)
  | None => o
  end.

(** The time a timeout waits: the window takes the delay as a [long], and
    a negative one counts as 0. *)
Definition timeoutDelay (ms : Z) : Z := Z.max 0 (toInt32 ms).

(** [setTimeout(handler, ms)] at time [now]. *)
Definition setTimeout (ms now : Z) (o : Observation) : nat * Observation :=
  (nextTimer o,
   mkObservation (element o) (delay o) (timeoutId o)
     (timers o ++ [(nextTimer o, now + timeoutDelay ms)]) (S (nextTimer o))
     (connected o) (calls o)).

Definition debouncedCallback (o : Observation) : M Observation :=
  let o := clearTimeout (timeoutId o) o in
  let* now := Date_now in
  let '(id, o) := setTimeout (delay o) now o in
  ret (mkObservation (element o) (delay o) (Some id) (timers o) (nextTimer o)
         (connected o) (calls o)).

(** The timeout handler: [detect(element)], then the callback.  If
    [detect] threw, the callback would not run. *)
Definition onTimeout (o : Observation) : M Observation :=
  let* result := detect (Ref (element o)) None in
  ret (mkObservation (element o) (delay o) (timeoutId o) (timers o) (nextTimer o)
         (connected o) (calls o ++ [(result, element o)])).

Definition observe (target : Target) (options : Options) : M Observation :=
  let* element := _getElement target in
  match element with
  | None => throw (Exn "Element not found")
  | Some element =>
      let immediate := default true (immediate options) in
      let debounce := default 100 (debounce options) in
      let o := mkObservation element debounce None [] 0 false [] in
      let* o := (if immediate then debouncedCallback o else ret o) in
      ret (mkObservation (TextOverflowDetector.element o) (delay o) (timeoutId o)
             (timers o) (nextTimer o) true (calls o))
  end.

(** [observer.disconnect()], the way to stop the returned handle. *)
Definition disconnect (o : Observation) : Observation :=
  mkObservation (element o) (delay o) (timeoutId o) (timers o) (nextTimer o)
    false (calls o).

(** What can happen to a subscription afterwards. *)
Inductive Event :=
| Mutation                       (* a batch of mutation records is delivered *)
| Elapse (ms : Z)                (* [ms] milliseconds pass *)
| Disconnect.                    (* the caller cancels *)

Definition State : Type := Observation * World.

(** Timeouts run in the order they fall due, earlier requests first. *)
Fixpoint insertByDue (t : nat * Z) (l : list (nat * Z)) : list (nat * Z) :=
  match l with
  | [] => [t]
  | u :: l' => if snd t <=? snd u then t :: l else u :: insertByDue t l'
  end.

Definition sortByDue (l : list (nat * Z)) : list (nat * Z) :=
  foldr insertByDue [] l.

(** One timeout falls due: the clock stands at its due time, it leaves the
    pending set, its handler runs. *)
Definition fire (s : State) (t : nat * Z) : State :=
  let '(o, w) := s in
  let w := setClock (Z.max (clock w) (snd t)) w in
  let o := mkObservation (element o) (delay o) (timeoutId o)
             (filter (fun u => fst u ≠ fst t) (timers o)) (nextTimer o)
             (connected o) (calls o) in
  match onTimeout o w with
  | (Return o', w') => (o', w')
  | (Throw _, w') => (o, w')
  end.

Definition elapse (ms : Z) (s : State) : State :=
  let '(o, w) := s in
  let target := clock w + Z.max 0 ms in
  let due := sortByDue (filter (fun t => bool_decide (snd t ≤ target)) (timers o)) in
  let '(o', w') := fold_left fire due (o, w) in
  (o', setClock target w').

Definition step (s : State) (e : Event) : State :=
  match e with
  | Mutation =>
      let '(o, w) := s in
      if connected o then
        match debouncedCallback o w with
        | (Return o', w') => (o', w')
        | (Throw _, w') => (o, w')
        end
      else s
  | Elapse ms => elapse ms s
  | Disconnect => (disconnect (fst s), snd s)
  end.

Definition run (events : list Event) (s : State) : State :=
  fold_left step events s.


End TextOverflowDetector.

(** ** ScrollbarWidthDetector *)

Module ScrollbarWidthDetector.

(** [Object.assign(element.style, styles)] *)
Fixpoint _setContainerStyles (element : node) (styles : list (string * string)) : M unit :=
  match styles with
  | [] => ret tt
  | (prop, value) :: styles' =>
      do setStyle element prop value then _setContainerStyles element styles'
  end.

(** [parent.appendChild(child)] on an element. *)
Definition appendChild (parent child : node) : M unit :=
  updateElement parent (fun e =>
    mkElement (isHTMLElement e) (style e) (data e)
      (remove child (childNodes e) ++ [child])).

(** Both boxes are made by [document.createElement('div')]: their
    [offsetWidth] is that of an HTML element. *)
Definition _measureScrollbarWidth : M Z :=
  let* outer := createElement in
  do _setContainerStyles outer
       [ ("visibility", "hidden"); ("width", "100px"); ("height", "100px");
         ("position", "absolute"); ("top", "-9999px"); ("left", "-9999px");
         ("overflow", "hidden"); ("msOverflowStyle", "scrollbar") ]%string then
  do body_appendChild outer then
  tryFinally
    (let* widthWithoutScrollbar := HTMLElement_offsetWidth outer in
     do setStyle outer "overflow" "scroll" then
     let* inner := createElement in
     do _setContainerStyles inner [ ("width", "100%"); ("height", "100%") ]%string then
     do appendChild outer inner then
     let* widthWithScrollbar := HTMLElement_offsetWidth inner in
     let scrollbarWidth := widthWithoutScrollbar - widthWithScrollbar in
     ret (Z.max 0 scrollbarWidth))
    (body_removeChild outer).

Definition getWidth (useCache : bool) : M Z :=
  let* cached := get cachedWidth in
  match (if useCache then cached else None) with
  | Some width => ret width
  | None =>
      let* width := _measureScrollbarWidth in
      do (if useCache then modify (setCachedWidth (Some width)) else ret tt) then
      ret width
  end.

Definition clearCache : M unit := modify (setCachedWidth None).

Definition hasScrollbar : M bool :=
  let* width := getWidth true in ret (0 <? width).

Inductive ScrollbarType := none | thin | normal | thick.

Definition _getScrollbarType (width : Z) : ScrollbarType :=
  if width =? 0 then none
  else if width <=? 8 then thin
  else if width <=? 12 then normal
  else thick.

Record Info := mkInfo { width : Z; exists_ : bool; type : ScrollbarType }.

Definition getInfo : M Info :=
  let* width := getWidth true in
  ret (mkInfo width (0 <? width) (_getScrollbarType width)).

(** The calls a page makes on the class, and what each returned. *)
Inductive Call :=
| GetWidth (useCache : bool)
| ClearCache.

Fixpoint runCalls (cs : list Call) (w : World) : list (Outcome Z) * World :=
  match cs with
  | [] => ([], w)
  | GetWidth useCache :: cs' =>
      let '(out, w') := getWidth useCache w in
      let '(outs, w'') := runCalls cs' w' in
      (out :: outs, w'')
  | ClearCache :: cs' => runCalls cs' (snd (clearCache w))
  end.

End ScrollbarWidthDetector.

(** * Specification vocabulary *)

(** [wp m Q w]: running [m] from [w] ends in an outcome and a world that
    satisfy [Q]. *)
Definition wp {A} (m : M A) (Q : Outcome A -> World -> Prop) (w : World) : Prop :=
  Q (m w).1 (m w).2.

(** The same element, its child list aside. *)
Definition sameButChildren (e e' : Element) : Prop :=
  isHTMLElement e' = isHTMLElement e ∧ style e' = style e ∧
  data e' = data e.

(** [grows w w']: same browser, same instant, same body; every node of [w]
    other than the body is in [w'] as it was, and the body has the style it
    had.  What happened to the body's child list is said apart. *)
Record grows (w w' : World) : Prop := mkGrows {
  grows_host : host w' = host w;
  grows_body : body w' = body w;
  grows_clock : clock w' = clock w;
  grows_elements : forall n e,
    n ≠ body w -> elements w !! n = Some e -> elements w' !! n = Some e;
  grows_dom : forall n, n ∈ dom (elements w) -> n ∈ dom (elements w');
  grows_bodyElement : sameButChildren (elementAt w (body w)) (elementAt w' (body w));
}.

(** A write to the one node [x]. *)
Record writesAt (x : node) (w w' : World) : Prop := mkWritesAt {
  wa_host : host w' = host w;
  wa_body : body w' = body w;
  wa_clock : clock w' = clock w;
  wa_measureElement : measureElement w' = measureElement w;
  wa_cachedWidth : cachedWidth w' = cachedWidth w;
  wa_others : forall n, n ≠ x -> elements w' !! n = elements w !! n;
  wa_dom : forall n, n ∈ dom (elements w) -> n ∈ dom (elements w');
}.

Import TextOverflowDetector.

(** The element a target stands for: [_getElement] reads and never writes. *)
Definition lookup (w : World) (t : Target) : Outcome (option node) := (_getElement t w).1.

Definition failure (msg : string) (now : Z) : Result :=
  mkResult false (Some msg) noDetails now.

(** The exception of [undefined.trim()]. *)
Definition noTrim : exn := Exn "Cannot read properties of undefined (reading 'trim')".

(** The three readings of the range strategy, in the order they are taken. *)
Definition rangeReadings (w : World) (el : node) : exn + (double * Value * ComputedStyle) :=
  match rangeWidth (host w) (document w) el with
  | inl e => inl e
  | inr tw =>
      match offsetWidthOf w el with
      | inl e => inl e
      | inr cw =>
          match getComputedStyle (host w) (document w) el with
          | inl e => inl e
          | inr cs => inr (tw, cw, cs)
          end
      end
  end.

(** The content-box width: [offsetWidth] minus the two paddings, in this
    order. *)
Definition contentWidth (cw : Value) (cs : ComputedStyle) : number :=
  sub (sub (toNumber cw) (orZero (paddingLeft cs))) (orZero (paddingRight cs)).

(** The result of a measurement: text width [tw], reported as [shown],
    against the content width of a box with the readings [cw] and [cs]. *)
Definition measurement (tw : number) (shown cw : Value) (cs : ComputedStyle)
    (len : option nat) (now : Z) : Result :=
  mkResult (gt tw (contentWidth cw cs)) None
    (mkDetails (Some shown) (Some cw)
       (Some (Math_round (contentWidth cw cs)))
       (Some (Math_round (Math_max0 (sub tw (contentWidth cw cs)))))
       len)
    now.

Inductive RangeSpec (w : World) (t : Target) : Outcome Result -> Prop :=
| range_lookup_throws e :
    lookup w t = Throw e ->
    RangeSpec w t (Throw e)
| range_not_found :
    lookup w t = Return None ->
    RangeSpec w t (Return (failure "Element not found" (clock w)))
| range_no_children el :
    lookup w t = Return (Some el) ->
    childNodes (elementAt w el) = [] ->
    RangeSpec w t (Return (failure "No text content" (clock w)))
| range_failed el e :
    lookup w t = Return (Some el) ->
    childNodes (elementAt w el) ≠ [] ->
    rangeReadings w el = inl e ->
    RangeSpec w t (Return (failure ("Range detection failed: " ++ message e) (clock w)))
| range_measured el tw cw cs :
    lookup w t = Return (Some el) ->
    childNodes (elementAt w el) ≠ [] ->
    rangeReadings w el = inr (tw, cw, cs) ->
    RangeSpec w t
      (Return (measurement (dvalue tw) (Num (Math_round (dvalue tw))) cw cs None (clock w))).

(** [element.innerText] as [get_innerText] reads it. *)
Definition innerTextOf (w : World) (el : node) : option Text :=
  if isHTMLElement (elementAt w el)
  then Some (renderedText (host w) (document w) el)
  else None.

(** The text the clone strategy measures; [None] when the chain of [||]
    ends in undefined. *)
Definition testTextFor (w : World) (el : node) (text : option Text) : option Text :=
  testTextOf text (textContent (host w) (document w) el) (innerTextOf w el).

(** The clone strategy up to the point where the scratch node is in the
    document: the steps of [detectByClone] from [_getMeasureElement] to
    [appendChild], returning the scratch node. *)
Definition attachScratch (el : node) (testText : Text) : M node :=
  let* m := _getMeasureElement in
  do _copyTextStyles el m then
  do setTextContent m testText then
  do body_appendChild m then
  ret m.

(** What the [catch] block of [detectByClone] and [cleanup] do to the
    document: the cached template leaves the body if it is a child of it. *)
Definition detachTemplate (w : World) : World :=
  match measureElement w with
  | Some t => if decide (t ∈ attached w) then setAttached (remove t) w else w
  | None => w
  end.

(** The three readings of the clone strategy, scratch node [m] attached. *)
Definition cloneReadings (w : World) (el m : node) : exn + (Value * Value * ComputedStyle) :=
  match offsetWidthOf w m with
  | inl e => inl e
  | inr tw =>
      match offsetWidthOf w el with
      | inl e => inl e
      | inr cw =>
          match getComputedStyle (host w) (document w) el with
          | inl e => inl e
          | inr cs => inr (tw, cw, cs)
          end
      end
  end.

Inductive CloneSpec (w : World) (t : Target) (text : option Text) :
    Outcome Result -> World -> Prop :=
| clone_lookup_throws e :
    lookup w t = Throw e ->
    CloneSpec w t text (Throw e) w
| clone_not_found :
    lookup w t = Return None ->
    CloneSpec w t text (Return (failure "Element not found" (clock w))) w
| clone_text_undefined el :
    lookup w t = Return (Some el) ->
    testTextFor w el text = None ->
    CloneSpec w t text (Throw noTrim) w
| clone_no_text el testText :
    lookup w t = Return (Some el) ->
    testTextFor w el text = Some testText ->
    trim testText = [] ->
    CloneSpec w t text (Return (failure "No text content" (clock w))) w
| clone_style_failed el testText e w1 :
    lookup w t = Return (Some el) ->
    testTextFor w el text = Some testText ->
    trim testText ≠ [] ->
    attachScratch el testText w = (Throw e, w1) ->
    CloneSpec w t text
      (Return (failure ("Clone detection failed: " ++ message e) (clock w)))
      (detachTemplate w1)
| clone_measure_failed el testText e m w4 :
    lookup w t = Return (Some el) ->
    testTextFor w el text = Some testText ->
    trim testText ≠ [] ->
    attachScratch el testText w = (Return m, w4) ->
    cloneReadings w4 el m = inl e ->
    CloneSpec w t text
      (Return (failure ("Clone detection failed: " ++ message e) (clock w)))
      (detachTemplate w4)
| clone_measured el testText tw cw cs m w4 :
    lookup w t = Return (Some el) ->
    testTextFor w el text = Some testText ->
    trim testText ≠ [] ->
    attachScratch el testText w = (Return m, w4) ->
    cloneReadings w4 el m = inr (tw, cw, cs) ->
    CloneSpec w t text
      (Return (measurement (toNumber tw) tw cw cs (Some (length testText)) (clock w)))
      (setAttached (remove m) w4).

(** What [attachScratch] leaves: the scratch node [m] is new, holds the
    text under test in a new Text node and is the last child of the body; the template is
    cached and is not the scratch node; everything else is as in [grows]. *)
Record scratchAttached (w : World) (testText : Text) (m : node) (w4 : World) : Prop :=
  mkScratchAttached {
    sa_grows : grows w w4;
    sa_cachedWidth : cachedWidth w4 = cachedWidth w;
    sa_fresh : m ∉ dom (elements w);
    sa_not_body : m ≠ body w;
    sa_template : exists tmpl, measureElement w4 = Some tmpl ∧ tmpl ≠ m ∧
      match measureElement w with
      | Some t0 => tmpl = t0
      | None => (tmpl ∉ dom (elements w)) ∧ tmpl ≠ body w
      end;
    sa_text : testText ≠ [] ->
      exists n, (n ∉ dom (elements w)) ∧ n ≠ body w ∧ n ≠ m ∧
        elements w4 !! n = Some (mkElement false ∅ testText []) ∧
        childNodes (elementAt w4 m) = [n];
    sa_attached : attached w4 = remove m (attached w) ++ [m];
  }.

(** What it leaves when copying the styles threw: nothing was attached. *)
Record scratchDropped (w w1 : World) : Prop := mkScratchDropped {
  sd_grows : grows w w1;
  sd_cachedWidth : cachedWidth w1 = cachedWidth w;
  sd_template : exists tmpl, measureElement w1 = Some tmpl ∧
    match measureElement w with
    | Some t0 => tmpl = t0
    | None => (tmpl ∉ dom (elements w)) ∧ tmpl ≠ body w
    end;
  sd_attached : attached w1 = attached w;
}.

(** A result either carries no error, or is the failure shape: not
    overflowing, with a non-empty description. *)
Definition wellFormed (r : Result) : Prop :=
  error r = None ∨ (isOverflowing r = false ∧ truthy (error r) = true).

(** The lookup raises nothing, and what it finds is an HTML element.  An
    object reference or a non-element value always qualifies; a selector
    does when the document accepts it and it matches no foreign (SVG,
    MathML) element. *)
Definition resolves (w : World) (t : Target) : Prop :=
  match lookup w t with
  | Throw _ => False
  | Return None => True
  | Return (Some el) => isHTMLElement (elementAt w el) = true
  end.

Inductive DetectSpec (w : World) (t : Target) (text : option Text) :
    Outcome Result -> World -> Prop :=
| detect_override out w' :
    truthyText text = true ->
    CloneSpec w t text out w' ->
    DetectSpec w t text out w'
| detect_range_throws e :
    truthyText text = false ->
    RangeSpec w t (Throw e) ->
    DetectSpec w t text (Throw e) w
| detect_range r :
    truthyText text = false ->
    RangeSpec w t (Return r) ->
    error r = None ->
    DetectSpec w t text (Return r) w
| detect_fallback r out w' :
    truthyText text = false ->
    RangeSpec w t (Return r) ->
    error r ≠ None ->
    CloneSpec w t None out w' ->
    DetectSpec w t text out w'.

(** What the overflow decision promises for a measured text width [tw] and
    an available width [aw]: the comparisons are those of Numbers, none of
    which holds when a side is NaN. *)
Definition decides (tw aw : number) (r : Result) : Prop :=
  isOverflowing r = gt tw aw ∧
  (lessEq tw aw = true -> isOverflowing r = false ∧ overflowAmount r = Some zero) ∧
  (lessThan aw tw = true ->
     isOverflowing r = true ∧ overflowAmount r = Some (Math_round (sub tw aw))) ∧
  (exists a, overflowAmount r = Some a ∧ lessThan a zero = false).

(** The readings a successful result was computed from: those of the range
    strategy, or those of the clone strategy, taken with its scratch node in
    the document. *)
Definition measuredFrom (w : World) (t : Target) (tw : number) (cw : Value)
    (cs : ComputedStyle) : Prop :=
  exists el, lookup w t = Return (Some el) ∧
    ((exists width, rangeReadings w el = inr (width, cw, cs) ∧ tw = dvalue width) ∨
     (exists testText m w4 width,
        attachScratch el testText w = (Return m, w4) ∧
        cloneReadings w4 el m = inr (width, cw, cs) ∧ tw = toNumber width)).

(** A text width is a reading: never an infinity. *)
Definition reading (x : number) : Prop :=
  match x with
  | S754_infinity _ => False
  | _ => True
  end.

(** A Number with the sign bit [s]: no NaN. *)
Definition signed (s : bool) (x : number) : Prop :=
  match x with
  | S754_nan => False
  | S754_zero s' | S754_infinity s' | S754_finite s' _ _ => s' = s
  end.

(** The two ways in which a detection raises instead of returning a
    result: the lookup raises, or the element found is no HTML element and
    has no text, so that [innerText] is undefined and [trim] is called on
    undefined. *)
Inductive Raises (w : World) (t : Target) : exn -> Prop :=
| raises_lookup e :
    lookup w t = Throw e ->
    Raises w t e
| raises_no_text el :
    lookup w t = Return (Some el) ->
    textContent (host w) (document w) el = [] ->
    isHTMLElement (elementAt w el) = false ->
    Raises w t noTrim.

(** Two equations about the same run or reading say the same. *)
Ltac same_run :=
  repeat match goal with
         | H1 : ?x = _, H2 : ?x = _ |- _ => rewrite H1 in H2; simplify_eq
         end.

(** ** Sample pages *)

(** The body holds one paragraph, which holds the text "hello" in one text
    node. *)
Definition bodyNode : node := 1%positive.
Definition paragraph : node := 2%positive.
Definition helloNode : node := 3%positive.

Definition page (h : Host) : World :=
  mkWorld h bodyNode
    {[ bodyNode := mkElement true ∅ [] [paragraph];
       paragraph := mkElement true ∅ [] [helloNode];
       helloNode := mkElement false ∅ (ascii_text "hello") [] ]}
    0 None None.

Definition nodeOf (d : Document) (n : node) : Element :=
  default blank (doc_elements d !! n).

(** Selector engine of the sample pages: "p" is the paragraph,
    "body > :last-child" the last child of the body, "[" is malformed,
    nothing else matches. *)
Definition selectors (d : Document) (s : string) : exn + option node :=
  if String.eqb s "p" then inr (Some paragraph)
  else if String.eqb s "body > :last-child"
       then inr (last (childNodes (nodeOf d (doc_body d))))
  else if String.eqb s "[" then inl (Exn "'[' is not a valid selector")
  else inr None.

(** The text under a node: its own characters, then the text under each
    of its children, in order.  [depth] bounds the descent. *)
Fixpoint textUnder (depth : nat) (d : Document) (n : node) : Text :=
  match depth with
  | O => []
  | S depth' =>
      data (nodeOf d n) ++ flat_map (textUnder depth' d) (childNodes (nodeOf d n))
  end.

(** [textContent] and [innerText] on the sample pages, none of which is
    more than eight levels deep and all of whose text is rendered. *)
Definition textOf (d : Document) (n : node) : Text := textUnder 8 d n.

(** Every character is 28px wide in a scratch node. *)
Definition scratchWidth (d : Document) (n : node) : long :=
  asLong (28 * Z.of_nat (length (textOf d n))).

(** No padding, every text property "normal". *)
Definition plain (d : Document) (n : node) : exn + ComputedStyle :=
  inr (mkComputedStyle (fun _ => "normal"%string)
         (Some (asDouble zero)) (Some (asDouble zero))).

(** The paragraph is 100px wide without padding; its text needs 140px. *)
Definition narrow : Host :=
  mkHost selectors textOf textOf (fun _ _ => inr (asDouble (Z2num 140)))
    (fun d n => if decide (n = paragraph) then inr (asLong 100) else inr (scratchWidth d n))
    plain.

(** The paragraph is 100px wide with 5px of padding on each side; its text
    needs 85px. *)
Definition padded : Host :=
  mkHost selectors textOf textOf (fun _ _ => inr (asDouble (Z2num 85)))
    (fun d n => if decide (n = paragraph) then inr (asLong 100) else inr (asLong 85))
    (fun _ _ => inr (mkComputedStyle (fun _ => "normal"%string)
                       (Some (asDouble (Z2num 5))) (Some (asDouble (Z2num 5))))).

(** Reading the paragraph's [offsetWidth] throws. *)
Definition faulty : Host :=
  mkHost selectors textOf textOf (fun _ _ => inr (asDouble (Z2num 140)))
    (fun d n => if decide (n = paragraph) then inl (Exn "layout failed")
                else inr (scratchWidth d n))
    plain.

(** Reading the body's [offsetWidth] throws. *)
Definition faultyBody : Host :=
  mkHost selectors textOf textOf (fun _ _ => inr (asDouble (Z2num 140)))
    (fun d n => if decide (n = bodyNode) then inl (Exn "layout failed")
                else inr (scratchWidth d n))
    plain.

(** The parent of a node, if it has one. *)
Definition parentOf (d : Document) (n : node) : option node :=
  fst <$> head (filter (fun p => bool_decide (n ∈ childNodes p.2))
                  (map_to_list (doc_elements d))).

(** A browser with classic 15px scrollbars: a box is 100px wide, and 85px
    wide inside a parent that scrolls. *)
Definition classic : Host :=
  mkHost selectors textOf textOf (fun _ _ => inr (asDouble (Z2num 140)))
    (fun d n =>
       match parentOf d n with
       | Some p =>
           if decide (style (nodeOf d p) !! "overflow"%string = Some "scroll"%string)
           then inr (asLong 85) else inr (asLong 100)
       | None => inr (asLong 100)
       end)
    plain.

(** ** Subscriptions *)

(** At most one timeout is pending, and it is the one [timeoutId] names. *)
Definition single (o : Observation) : Prop :=
  timers o = [] ∨ exists id due, timers o = [(id, due)] ∧ timeoutId o = Some id.

(** A burst of mutations: one, then one more after each gap. *)
Fixpoint burst (gaps : list Z) : list Event :=
  match gaps with
  | [] => [Mutation]
  | gap :: gaps' => Mutation :: Elapse gap :: burst gaps'
  end.

(** The times at which the callback was invoked. *)
Definition callTimes (o : Observation) : list Z :=
  map (fun c => timestamp (fst c)) (calls o).

(** ** Scrollbar measurement *)

(** While the test container [outer] is in the document. *)
Record measuring (outer : node) (w w' : World) : Prop := mkMeasuring {
  m_grows : grows w w';
  m_cachedWidth : cachedWidth w' = cachedWidth w;
  m_measureElement : measureElement w' = measureElement w;
  m_attached : attached w' = remove outer (attached w) ++ [outer];
}.

(** What a measurement leaves behind, however it ends: the elements that
    were there are untouched, the caches are as they were, and the test
    container is out of the document again. *)
Record measured (w : World) (out : Outcome Z) (w' : World) : Prop := mkMeasured {
  md_grows : grows w w';
  md_cachedWidth : cachedWidth w' = cachedWidth w;
  md_measureElement : measureElement w' = measureElement w;
  md_attached : exists outer, (outer ∉ dom (elements w)) ∧
                              attached w' = remove outer (attached w);
  md_nonneg : forall v, out = Return v -> 0 <= v;
}.

(** ** More sample pages *)

(** A paragraph holding nothing but a no-break space and an em space, in
    one text node. *)
Definition blankPage (h : Host) : World :=
  mkWorld h bodyNode
    {[ bodyNode := mkElement true ∅ [] [paragraph];
       paragraph := mkElement true ∅ [] [helloNode];
       helloNode := mkElement false ∅ [0xA0; 0x2003]%N [] ]}
    0 None None.

(** ** The scratch node *)

(** The inline style after the text properties of [cs] were copied over it. *)
Definition copiedStyle (cs : ComputedStyle) (st : gmap string string) : gmap string string :=
  foldl (fun acc prop => <[prop := property cs prop]> acc) st textStyleProps.

(** The element [_getMeasureElement] clones: the cached template, else the
    one it creates. *)
Definition templateOf (w : World) : Element :=
  match measureElement w with
  | Some t => elementAt w t
  | None => mkElement true (list_to_map templateCss) [] []
  end.

(** A page with the paragraph and two SVG drawings, which are elements but
    no HTMLElement: an empty one, found by the selector "svg", and a chart
    holding the text "42" in a text element, found by "svg.chart". *)
Definition drawing : node := 5%positive.
Definition chart : node := 6%positive.
Definition label : node := 7%positive.
Definition labelText : node := 8%positive.

Definition gallery : World :=
  mkWorld
    (mkHost (fun d s => if String.eqb s "svg" then inr (Some drawing)
                        else if String.eqb s "svg.chart" then inr (Some chart)
                        else selectors d s)
       textOf textOf (fun _ _ => inr (asDouble (Z2num 140)))
       (fun d n => if decide (n = paragraph) then inr (asLong 100)
                   else inr (scratchWidth d n))
       plain)
    bodyNode
    {[ bodyNode := mkElement true ∅ [] [paragraph; drawing; chart];
       paragraph := mkElement true ∅ [] [helloNode];
       helloNode := mkElement false ∅ (ascii_text "hello") [];
       drawing := mkElement false ∅ [] [];
       chart := mkElement false ∅ [] [label];
       label := mkElement false ∅ [] [labelText];
       labelText := mkElement false ∅ (ascii_text "42") [] ]}
    0 None None.

(** ** The scrollbar measurement's two boxes *)

(** The inline style of the test container while it is first measured. *)
Definition containerStyle : gmap string string :=
  list_to_map
    [ ("visibility", "hidden"); ("width", "100px"); ("height", "100px");
      ("position", "absolute"); ("top", "-9999px"); ("left", "-9999px");
      ("overflow", "hidden"); ("msOverflowStyle", "scrollbar") ]%string.

(** The inline style of the box that fills it. *)
Definition fillStyle : gmap string string :=
  list_to_map [ ("width", "100%"); ("height", "100%") ]%string.

(** The document at the first reading: the container [outer], styled and
    empty, is the last child of the body. *)
Definition containerAttached (w : World) (outer : node) : gmap node Element :=
  <[body w := withChildren (elementAt w (body w)) (remove outer (attached w) ++ [outer])]>
    (<[outer := mkElement true containerStyle [] []]> (elements w)).

(** The document at the second reading: the container scrolls and holds
    the box [inner], which fills it. *)
Definition containerFilled (w : World) (outer inner : node) : gmap node Element :=
  <[outer := mkElement true (<["overflow"%string := "scroll"%string]> containerStyle)
               [] [inner]]>
    (<[inner := mkElement true fillStyle [] []]> (containerAttached w outer)).

(** A browser in which every [offsetWidth] reading throws. *)
Definition broken : Host :=
  mkHost selectors textOf textOf (fun _ _ => inr (asDouble (Z2num 140)))
    (fun _ _ => inl (Exn "layout failed"))
    plain.

(** The paragraph is 100px wide without padding; its text needs a quarter
    of a pixel more. *)
Definition hairline : Host :=
  mkHost selectors textOf textOf (fun _ _ => inr (ratio 401 4))
    (fun d n => if decide (n = paragraph) then inr (asLong 100) else inr (scratchWidth d n))
    plain.

(** The paragraph is 100px wide with paddings of 0.1px and 0.2px; its text
    needs 99.7px. *)
Definition decimal : Host :=
  mkHost selectors textOf textOf (fun _ _ => inr (ratio 997 10))
    (fun d n => if decide (n = paragraph) then inr (asLong 100) else inr (scratchWidth d n))
    (fun _ _ => inr (mkComputedStyle (fun _ => "normal"%string)
                       (Some (ratio 1 10)) (Some (ratio 2 10)))).

(** * Numbers *)

Lemma shr_1_nonneg mrs : 0 <= shr_m mrs -> 0 <= shr_m (shr_1 mrs).
Proof.
  destruct mrs as [m r s]. cbn. intros H.
  destruct m as [|p|p]; [done| |lia]. by destruct p.
Qed.

Lemma iter_pos_shr_1_nonneg p mrs :
  0 <= shr_m mrs -> 0 <= shr_m (SpecFloat.iter_pos shr_1 p mrs).
Proof.
  revert mrs. induction p as [p IH|p IH|]; intros mrs H; cbn.
  - by apply IH, IH, shr_1_nonneg.
  - by apply IH, IH.
  - by apply shr_1_nonneg.
Qed.

Lemma shr_fexp_nonneg m e l :
  0 <= m -> 0 <= shr_m (shr_fexp prec emax m e l).1.
Proof.
  intros H. unfold shr_fexp, shr.
  assert (0 <= shr_m (shr_record_of_loc m l)) as H0.
  { destruct l as [|[| |]]; done. }
  destruct (fexp prec emax (Zdigits2 m + e) - e) as [|p|p]; cbn [fst]; try done.
  by apply iter_pos_shr_1_nonneg.
Qed.

Lemma round_nearest_even_nonneg m l : 0 <= m -> 0 <= round_nearest_even m l.
Proof.
  intros H. destruct l as [|[| |]]; cbn; try done; [|lia].
  destruct (Z.even m); lia.
Qed.

Lemma binary_round_aux_signed s m e l :
  0 <= m -> signed s (binary_round_aux prec emax s m e l).
Proof.
  intros H. unfold binary_round_aux.
  pose proof (shr_fexp_nonneg m e l H) as H1.
  destruct (shr_fexp prec emax m e l) as [mrs' e']. cbn [fst] in H1.
  pose proof (shr_fexp_nonneg _ e' loc_Exact
                (round_nearest_even_nonneg _ (loc_of_shr_record mrs') H1)) as H2.
  destruct (shr_fexp prec emax _ e' loc_Exact) as [mrs'' e'']. cbn [fst] in H2.
  destruct (shr_m mrs'') as [|p|p]; [done| |lia].
  by destruct (e'' <=? emax - prec).
Qed.

Lemma binary_round_signed s m e : signed s (binary_round prec emax s m e).
Proof.
  unfold binary_round. destruct (shl_align _ _ _) as [mz ez].
  by apply binary_round_aux_signed.
Qed.

Lemma binary_normalize_signed n e s :
  match n with
  | 0 => binary_normalize prec emax n e s = S754_zero s
  | Zpos _ => signed false (binary_normalize prec emax n e s)
  | Zneg _ => signed true (binary_normalize prec emax n e s)
  end.
Proof. destruct n; [done|apply binary_round_signed..]. Qed.

Lemma Math_max0_signed_true x : signed true x -> Math_max0 x = zero.
Proof. destruct x as [[]|[]| |[] ? ?]; done. Qed.

Lemma Math_max0_signed_false x :
  signed false x -> Math_max0 x = match x with S754_zero _ => zero | _ => x end.
Proof. destruct x as [[]|[]| |[] ? ?]; done. Qed.

Lemma Math_max0_positive x : signed false x -> Math_max0 x = x.
Proof. destruct x as [[]|[]| |[] ? ?]; done. Qed.

Lemma sub_finite sx mx ex sy my ey :
  sub (S754_finite sx mx ex) (S754_finite sy my ey) =
  binary_normalize prec emax
    (scaled sx mx ex (Z.min ex ey) - scaled sy my ey (Z.min ex ey)) (Z.min ex ey) false.
Proof. done. Qed.

(** When the text width is not above the available width, the difference
    is not above zero and [Math.max(0, ...)] is +0. *)
Lemma sub_not_above tw aw :
  reading tw -> lessEq tw aw = true -> Math_max0 (sub tw aw) = zero.
Proof.
  intros Hr Hle. unfold lessEq in Hle.
  destruct tw as [s1|s1| |s1 m1 e1], aw as [s2|s2| |s2 m2 e2]; try done.
  - by destruct s1, s2.
  - by destruct s2.
  - destruct s2; simplify_eq/=; done.
  - destruct s1; simplify_eq/=; done.
  - by destruct s2.
  - rewrite sub_finite. cbn [numCompare] in Hle.
    set (a := scaled s1 m1 e1 _) in *. set (b := scaled s2 m2 e2 _) in *.
    pose proof (binary_normalize_signed (a - b) (Z.min e1 e2) false) as Hs.
    destruct (Z.compare_spec a b) as [E|L|G]; [| |done].
    + replace (a - b) with 0 in * by lia. by rewrite Hs.
    + destruct (a - b) as [|p|p] eqn:E; [lia|lia|]. by apply Math_max0_signed_true.
Qed.

(** When the text width is above the available width, the difference
    carries no minus sign and [Math.max(0, ...)] returns it. *)
Lemma sub_above tw aw :
  reading tw -> lessThan aw tw = true -> Math_max0 (sub tw aw) = sub tw aw.
Proof.
  intros Hr Hlt. unfold lessThan in Hlt.
  destruct tw as [s1|s1| |s1 m1 e1], aw as [s2|s2| |s2 m2 e2]; try done.
  - by destruct s2.
  - destruct s2; simplify_eq/=; done.
  - destruct s1; simplify_eq/=; done.
  - by destruct s2.
  - rewrite sub_finite. cbn [numCompare] in Hlt. rewrite (Z.min_comm e2 e1) in Hlt.
    set (a := scaled s1 m1 e1 _) in *. set (b := scaled s2 m2 e2 _) in *.
    pose proof (binary_normalize_signed (a - b) (Z.min e1 e2) false) as Hs.
    destruct (Z.compare_spec b a) as [E|L|G]; [done| |done].
    destruct (a - b) as [|p|p] eqn:E; [lia| |lia]. by apply Math_max0_positive.
Qed.

Lemma lessThan_signed_false x : signed false x -> lessThan x zero = false.
Proof. destruct x as [[]|[]| |[] ? ?]; done. Qed.

Lemma Math_round_signed s x : signed s x -> signed s (Math_round x).
Proof.
  destruct x as [s'|s'| |s' m e]; try done. cbn [signed Math_round]. intros ->.
  match goal with |- context [binary_normalize _ _ ?n 0 s] =>
    pose proof (binary_normalize_signed n 0 s) as H;
    assert (if s then n <= 0 else 0 <= n) as Hn
  end.
  { destruct e as [|k|k], s; cbn [cond_Zopp]; try lia.
    - rewrite Z.shiftr_div_pow2 by lia.
      assert ((- Z.pos m + 2 ^ (Z.pos k - 1)) / 2 ^ Z.pos k < 1); [|lia].
      apply Z.div_lt_upper_bound; [lia|].
      assert (2 ^ Z.pos k = 2 * 2 ^ (Z.pos k - 1)) as ->.
      { rewrite <- Z.pow_succ_r by lia. f_equal. lia. }
      pose proof (Z.pow_pos_nonneg 2 (Z.pos k - 1)). lia.
    - apply Z.shiftr_nonneg. pose proof (Z.pow_nonneg 2 (Z.pos k - 1)). lia. }
  match type of H with match ?n with _ => _ end =>
    destruct n as [|p|p]; destruct s; try lia; try done; by rewrite H
  end.
Qed.

(** [Math.round(Math.max(0, x))] is never below zero. *)
Lemma overflow_never_negative x : lessThan (Math_round (Math_max0 x)) zero = false.
Proof.
  destruct (Math_max0 x) as [s|s| |s m e] eqn:E.
  - by destruct s.
  - destruct x as [[]|[]| |[] ? ?]; by simplify_eq/=.
  - done.
  - apply lessThan_signed_false, (Math_round_signed false).
    destruct x as [[]|[]| |[] ? ?]; by simplify_eq/=.
Qed.

Lemma Math_round_zero : Math_round zero = zero.
Proof. done. Qed.

(** The Number of a [long] is finite. *)
Lemma digits2_pos_iter_xO m k :
  digits2_pos (Pos.iter xO m k) = (digits2_pos m + k)%positive.
Proof.
  induction k as [|k IH] using Pos.peano_ind.
  - cbn. lia.
  - rewrite Pos.iter_succ. cbn [digits2_pos]. rewrite IH. lia.
Qed.

Lemma digits2_pos_bound m k : Z.pos m < 2 ^ Z.pos k -> (digits2_pos m <= k)%positive.
Proof.
  revert k. induction m as [m IH|m IH|]; intros k H; cbn [digits2_pos].
  - destruct (Pos.eq_dec k 1%positive) as [->|Hk]; [cbn in H; lia|].
    assert (digits2_pos m <= Pos.pred k)%positive; [|lia].
    apply IH. replace (Z.pos (Pos.pred k)) with (Z.pos k - 1) by lia.
    assert (2 ^ Z.pos k = 2 * 2 ^ (Z.pos k - 1)) as E.
    { rewrite <- Z.pow_succ_r by lia. f_equal. lia. }
    lia.
  - destruct (Pos.eq_dec k 1%positive) as [->|Hk]; [cbn in H; lia|].
    assert (digits2_pos m <= Pos.pred k)%positive; [|lia].
    apply IH. replace (Z.pos (Pos.pred k)) with (Z.pos k - 1) by lia.
    assert (2 ^ Z.pos k = 2 * 2 ^ (Z.pos k - 1)) as E.
    { rewrite <- Z.pow_succ_r by lia. f_equal. lia. }
    lia.
  - lia.
Qed.

Lemma binary_round_aux_canonical s mz ez :
  Z.pos (digits2_pos mz) = 53 -> -1074 <= ez <= 971 ->
  binary_round_aux prec emax s (Z.pos mz) ez loc_Exact = S754_finite s mz ez.
Proof.
  intros Hd He.
  assert (shr_fexp prec emax (Z.pos mz) ez loc_Exact =
            ({| shr_m := Z.pos mz; shr_r := false; shr_s := false |}, ez)) as E.
  { unfold shr_fexp. cbn [Zdigits2]. rewrite Hd.
    replace (fexp prec emax (53 + ez) - ez) with 0; [done|].
    unfold fexp, emin, prec, emax. lia. }
  unfold binary_round_aux. rewrite E. cbn [shr_m loc_of_shr_record round_nearest_even].
  rewrite E. cbn [shr_m].
  replace (ez <=? emax - prec) with true; [done|].
  symmetry. apply Z.leb_le. unfold emax, prec. lia.
Qed.

Lemma binary_round_small s m :
  Z.pos m < 2 ^ 53 ->
  exists mz ez, binary_round prec emax s m 0 = S754_finite s mz ez.
Proof.
  intros Hm. pose proof (digits2_pos_bound m 53 Hm) as Hd.
  unfold binary_round.
  replace (fexp prec emax (Z.pos (digits2_pos m) + 0)) with (Z.pos (digits2_pos m) - 53).
  2: { unfold fexp, emin, prec, emax. lia. }
  unfold shl_align.
  destruct (Z.pos (digits2_pos m) - 53 - 0) as [|k|k] eqn:E; [|lia|].
  - eexists _, _. apply binary_round_aux_canonical; lia.
  - eexists _, _. apply binary_round_aux_canonical; [|lia].
    rewrite digits2_pos_iter_xO. lia.
Qed.

Lemma Z2num_reading n : is_long n = true -> reading (Z2num n).
Proof.
  unfold is_long. intros [H1 H2]%andb_true_iff.
  apply Z.leb_le in H1. apply Z.ltb_lt in H2.
  assert (2 ^ 31 < 2 ^ 53) by done.
  unfold Z2num, binary_normalize. destruct n as [|m|m]; [done| |].
  - destruct (binary_round_small false m) as (mz & ez & ->); [lia | done].
  - destruct (binary_round_small true m) as (mz & ez & ->); [lia | done].
Qed.

Lemma toNumber_reading w x v : offsetWidthOf w x = inr v -> reading (toNumber v).
Proof.
  unfold offsetWidthOf. destruct (isHTMLElement _); [|by intros [= <-]].
  destruct (offsetWidth _ _ _) as [e|n]; [done|]. intros [= <-].
  apply Z2num_reading, lrange.
Qed.

Lemma dvalue_reading d : reading (dvalue d).
Proof. destruct d as [[| | |] H]; done. Qed.

(** * Reasoning about computations *)

Section WeakestPre.
Context {A B : Type}.
Implicit Types (Q : Outcome B -> World -> Prop) (w : World).

Lemma wp_elim (m : M B) Q w out w' : m w = (out, w') -> wp m Q w -> Q out w'.
Proof. unfold wp. intros ->. done. Qed.

Lemma wp_intro (m : M B) Q w : (forall out w', m w = (out, w') -> Q out w') -> wp m Q w.
Proof. unfold wp. intros H. apply H. by destruct (m w). Qed.

Lemma wp_mono (m : M B) (Q1 Q2 : Outcome B -> World -> Prop) w :
  wp m Q1 w -> (forall out w', Q1 out w' -> Q2 out w') -> wp m Q2 w.
Proof. unfold wp. auto. Qed.

Lemma wp_ret (b : B) Q w : Q (Return b) w -> wp (ret b) Q w.
Proof. done. Qed.

Lemma wp_throw e Q w : Q (Throw e) w -> wp (throw e) Q w.
Proof. done. Qed.

Lemma wp_get (f : World -> B) Q w : Q (Return (f w)) w -> wp (get f) Q w.
Proof. done. Qed.

Lemma wp_query (f : World -> exn + B) Q w :
  match f w with inl e => Q (Throw e) w | inr b => Q (Return b) w end ->
  wp (query f) Q w.
Proof. unfold wp, query. by destruct (f w). Qed.

Lemma wp_bind (m : M A) (k : A -> M B) Q w :
  wp m (fun out w' =>
          match out with
          | Return a => wp (k a) Q w'
          | Throw e => Q (Throw e) w'
          end) w ->
  wp (bind m k) Q w.
Proof. unfold wp, bind. by destruct (m w) as [[a|e] w']. Qed.

Lemma wp_tryCatch (body : M B) (handler : exn -> M B) Q w :
  wp body (fun out w' =>
             match out with
             | Return b => Q (Return b) w'
             | Throw e => wp (handler e) Q w'
             end) w ->
  wp (tryCatch body handler) Q w.
Proof. unfold wp, tryCatch. by destruct (body w) as [[b|e] w']. Qed.

Lemma wp_tryFinally (body : M B) (cleanup : M unit) Q w :
  wp body (fun out w' =>
             wp cleanup (fun c w'' =>
                           match c with
                           | Return _ => Q out w''
                           | Throw e => Q (Throw e) w''
                           end) w') w ->
  wp (tryFinally body cleanup) Q w.
Proof.
  unfold wp, tryFinally.
  destruct (body w) as [[b|e] w']; cbn; by destruct (cleanup w') as [[[]|e'] w''].
Qed.
End WeakestPre.

Lemma wp_modify (f : World -> World) (Q : Outcome unit -> World -> Prop) w :
  Q (Return tt) (f w) -> wp (modify f) Q w.
Proof. done. Qed.

(** ** What a call leaves of the world it started in *)

Lemma sameButChildren_refl e : sameButChildren e e.
Proof. done. Qed.

Lemma sameButChildren_trans e1 e2 e3 :
  sameButChildren e1 e2 -> sameButChildren e2 e3 -> sameButChildren e1 e3.
Proof. intros (? & ? & ?) (? & ? & ?). split_and!; congruence. Qed.

Lemma grows_refl w : grows w w.
Proof. by split. Qed.

Lemma grows_trans w1 w2 w3 : grows w1 w2 -> grows w2 w3 -> grows w1 w3.
Proof.
  intros [H1 B1 C1 E1 D1 S1] [H2 B2 C2 E2 D2 S2]. split; try congruence.
  - intros n e Hn He. apply E2; [congruence|]. by apply E1.
  - auto.
  - rewrite B1 in S2. by eapply sameButChildren_trans.
Qed.

Lemma grows_lookup w w' n e :
  grows w w' -> n ≠ body w -> elements w !! n = Some e -> elements w' !! n = Some e.
Proof. intros G. apply (grows_elements _ _ G). Qed.

Lemma grows_elementAt w w' n :
  grows w w' -> n ∈ dom (elements w) -> n ≠ body w -> elementAt w' n = elementAt w n.
Proof.
  intros G [e He]%elem_of_dom Hn. unfold elementAt.
  by rewrite (grows_lookup _ _ _ _ G Hn He), He.
Qed.

Lemma elementAt_insert x e w : elementAt (setElements (insert x e) w) x = e.
Proof. unfold elementAt. cbn. by rewrite lookup_insert_eq. Qed.

Lemma elementAt_insert_ne x n e w :
  n ≠ x -> elementAt (setElements (insert x e) w) n = elementAt w n.
Proof. intros H. unfold elementAt. cbn. by rewrite lookup_insert_ne. Qed.

Lemma grows_insert w w' x e :
  grows w w' -> x ∉ dom (elements w) -> x ≠ body w -> grows w (setElements (insert x e) w').
Proof.
  intros [H B C E D S] Hx Hb. split; cbn; try done.
  - intros n e' Hn He. rewrite lookup_insert_ne; [by apply E|].
    intros ->. apply Hx, elem_of_dom. eauto.
  - intros n Hn. rewrite dom_insert_L. set_solver.
  - rewrite elementAt_insert_ne by congruence. done.
Qed.

Lemma attached_setAttached f w : attached (setAttached f w) = f (attached w).
Proof. unfold attached at 1, setAttached. cbn [body setElements]. by rewrite elementAt_insert. Qed.

Lemma elementAt_setAttached f w n :
  n ≠ body w -> elementAt (setAttached f w) n = elementAt w n.
Proof. intros H. unfold setAttached. by rewrite elementAt_insert_ne. Qed.

Lemma lookup_setAttached f w n :
  n ≠ body w -> elements (setAttached f w) !! n = elements w !! n.
Proof. intros H. unfold setAttached. cbn. by rewrite lookup_insert_ne. Qed.

Lemma grows_setAttached w w' f : grows w w' -> grows w (setAttached f w').
Proof.
  intros [H B C E D S]. split; try done.
  - intros n e Hn He. rewrite lookup_setAttached by congruence. by apply E.
  - intros n Hn. unfold setAttached. cbn. rewrite dom_insert_L. set_solver.
  - eapply sameButChildren_trans; [exact S|].
    unfold setAttached. rewrite <- B, elementAt_insert. done.
Qed.

Lemma grows_setMeasureElement w w' m : grows w w' -> grows w (setMeasureElement m w').
Proof. by intros [H B C E D S]. Qed.

Lemma grows_setCachedWidth w w' c : grows w w' -> grows w (setCachedWidth c w').
Proof. by intros [H B C E D S]. Qed.

Lemma newNode_fresh w w' :
  grows w w' -> (newNode w' ∉ dom (elements w)) ∧ newNode w' ≠ body w.
Proof.
  intros G. pose proof (is_fresh (nodes w')) as F.
  fold (newNode w') in F. unfold nodes in F. split.
  - intros Hin. apply F. apply elem_of_union_l, elem_of_union_r. by apply (grows_dom _ _ G).
  - intros E. apply F. rewrite (grows_body _ _ G), <- E. set_solver.
Qed.

Lemma newNode_not_template w t : measureElement w = Some t -> newNode w ≠ t.
Proof.
  intros Ht E. apply (is_fresh (nodes w)). fold (newNode w). unfold nodes.
  rewrite Ht, E. set_solver.
Qed.

(** [remove] on child lists. *)
Lemma elem_of_remove x y (l : list node) : y ∈ remove x l <-> y ∈ l ∧ y ≠ x.
Proof. unfold remove. rewrite list_elem_of_filter. tauto. Qed.

Lemma remove_not_in x (l : list node) : x ∉ l -> remove x l = l.
Proof.
  intros H. unfold remove. induction l as [|y l IH]; [done|].
  rewrite filter_cons. apply not_elem_of_cons in H as [Hne Hl].
  rewrite decide_True by done. by rewrite IH.
Qed.

Lemma remove_app x (l k : list node) : remove x (l ++ k) = remove x l ++ remove x k.
Proof. apply filter_app. Qed.

Lemma remove_remove x (l : list node) : remove x (remove x l) = remove x l.
Proof. apply remove_not_in. rewrite elem_of_remove. tauto. Qed.

Lemma remove_append x (l : list node) : remove x (remove x l ++ [x]) = remove x l.
Proof.
  rewrite remove_app, remove_remove. unfold remove at 2.
  rewrite filter_cons, decide_False by tauto. cbn. by rewrite app_nil_r.
Qed.

(** ** The DOM operations, as weakest preconditions *)

Section Operations.
Context {B : Type}.
Implicit Types (w : World).

Lemma wp_createElement (Q : Outcome node -> World -> Prop) w :
  (forall n, n ∉ dom (elements w) -> n ≠ body w ->
     (forall t, measureElement w = Some t -> n ≠ t) ->
     Q (Return n) (setElements (insert n (mkElement true ∅ [] [])) w)) ->
  wp createElement Q w.
Proof.
  intros H. apply H; [apply (newNode_fresh w w (grows_refl w))..|].
  intros t. apply newNode_not_template.
Qed.

Lemma wp_cloneNode x (Q : Outcome node -> World -> Prop) w :
  (forall n, n ∉ dom (elements w) -> n ≠ body w ->
     (forall t, measureElement w = Some t -> n ≠ t) ->
     Q (Return n) (setElements (insert n (withChildren (elementAt w x) [])) w)) ->
  wp (cloneNode x) Q w.
Proof.
  intros H. apply H; [apply (newNode_fresh w w (grows_refl w))..|].
  intros t. apply newNode_not_template.
Qed.

Lemma wp_createTextNode s (Q : Outcome node -> World -> Prop) w :
  (forall n, n ∉ dom (elements w) -> n ≠ body w ->
     (forall t, measureElement w = Some t -> n ≠ t) ->
     Q (Return n) (setElements (insert n (mkElement false ∅ s [])) w)) ->
  wp (createTextNode s) Q w.
Proof.
  intros H. apply H; [apply (newNode_fresh w w (grows_refl w))..|].
  intros t. apply newNode_not_template.
Qed.

Lemma wp_updateElement x f (Q : Outcome unit -> World -> Prop) w :
  Q (Return tt) (setElements (insert x (f (elementAt w x))) w) ->
  wp (updateElement x f) Q w.
Proof. done. Qed.

Lemma wp_body_appendChild x (Q : Outcome unit -> World -> Prop) w :
  Q (Return tt) (setAttached (fun l => remove x l ++ [x]) w) ->
  wp (body_appendChild x) Q w.
Proof. done. Qed.

Lemma wp_body_removeChild x (Q : Outcome unit -> World -> Prop) w :
  (x ∈ attached w -> Q (Return tt) (setAttached (remove x) w)) ->
  (x ∉ attached w ->
     Q (Throw (Exn "The node to be removed is not a child of this node.")) w) ->
  wp (body_removeChild x) Q w.
Proof. intros H1 H2. unfold wp, body_removeChild. case_decide; auto. Qed.
End Operations.

Lemma writesAt_refl x w : writesAt x w w.
Proof. by split. Qed.

Lemma writesAt_update x v w : writesAt x w (setElements (insert x v) w).
Proof.
  split; cbn; try done.
  - intros n Hn. by rewrite lookup_insert_ne.
  - intros n Hn. rewrite dom_insert_L. set_solver.
Qed.

Lemma writesAt_trans x w1 w2 w3 : writesAt x w1 w2 -> writesAt x w2 w3 -> writesAt x w1 w3.
Proof.
  intros [H1 B1 C1 M1 W1 O1 D1] [H2 B2 C2 M2 W2 O2 D2]. split; try congruence.
  - intros n Hn. by rewrite O2, O1.
  - auto.
Qed.

Lemma writesAt_elementAt x w w' n : writesAt x w w' -> n ≠ x -> elementAt w' n = elementAt w n.
Proof. intros W Hn. unfold elementAt. by rewrite (wa_others _ _ _ W). Qed.

Lemma writesAt_attached x w w' : writesAt x w w' -> x ≠ body w -> attached w' = attached w.
Proof.
  intros W Hx. unfold attached. rewrite (wa_body _ _ _ W).
  by rewrite (writesAt_elementAt _ _ _ _ W).
Qed.

Lemma writesAt_grows x w0 w w' :
  grows w0 w -> x ∉ dom (elements w0) -> x ≠ body w0 -> writesAt x w w' -> grows w0 w'.
Proof.
  intros [H B C E D S] Hx Hb W. split.
  - rewrite (wa_host _ _ _ W). done.
  - rewrite (wa_body _ _ _ W). done.
  - rewrite (wa_clock _ _ _ W). done.
  - intros n e Hn He. rewrite (wa_others _ _ _ W); [by apply E|].
    intros ->. apply Hx, elem_of_dom. eauto.
  - intros n Hn. by apply (wa_dom _ _ _ W), D.
  - rewrite (writesAt_elementAt _ _ _ _ W) by congruence. done.
Qed.

Lemma wp_setStyle x prop value (Q : Outcome unit -> World -> Prop) w :
  (forall w', writesAt x w w' ->
     data (elementAt w' x) = data (elementAt w x) ->
     Q (Return tt) w') ->
  wp (setStyle x prop value) Q w.
Proof.
  intros H. apply wp_updateElement, H; [apply writesAt_update|].
  by rewrite elementAt_insert.
Qed.

(** [x.textContent = s] makes at most one node, the Text node, and writes
    to [x]. *)
Lemma wp_setTextContent x s (Q : Outcome unit -> World -> Prop) w :
  (forall w1 w',
     (s = [] ∧ w1 = w ∧ childNodes (elementAt w' x) = []) ∨
     (exists n, s ≠ [] ∧ (n ∉ dom (elements w)) ∧ n ≠ body w ∧
        w1 = setElements (insert n (mkElement false ∅ s [])) w ∧
        childNodes (elementAt w' x) = [n]) ->
     writesAt x w1 w' ->
     Q (Return tt) w') ->
  wp (setTextContent x s) Q w.
Proof.
  intros H. unfold setTextContent. destruct s as [|c s]; cbn [isEmpty].
  - apply wp_updateElement, (H w); [|apply writesAt_update].
    left. by rewrite elementAt_insert.
  - apply wp_bind, wp_createTextNode. intros n Hn Hb _.
    apply wp_updateElement, (H (setElements (insert n (mkElement false ∅ (c :: s) [])) w));
      [|apply writesAt_update].
    right. exists n. by rewrite elementAt_insert.
Qed.

(** * TextOverflowDetector: what each exit path returns *)

Lemma _getElement_pure t w : _getElement t w = (lookup w t, w).
Proof.
  unfold lookup. destruct t as [s|n|]; cbn; try done.
  unfold query. by destruct (querySelector (host w) (document w) s).
Qed.

Lemma lookup_Ref_isHTMLElement w n el :
  lookup w (Ref n) = Return (Some el) ->
  el = n ∧ n ∈ dom (elements w) ∧ isHTMLElement (elementAt w n) = true.
Proof.
  unfold lookup, elementAt. cbn. intros H.
  destruct (elements w !! n) as [e|] eqn:He; [|done].
  destruct (isHTMLElement e) eqn:Hh; [|done].
  injection H as <-. split; [done|]. split; [|done].
  apply elem_of_dom. eauto.
Qed.

Lemma lookup_Ref_returns w n : exists r, lookup w (Ref n) = Return r.
Proof. unfold lookup. cbn. eauto. Qed.

Lemma detectByRange_spec t w :
  exists out, detectByRange t w = (out, w) ∧ RangeSpec w t out.
Proof.
  unfold detectByRange, bind at 1. rewrite _getElement_pure.
  destruct (lookup w t) as [[el|]|e] eqn:Hl.
  - unfold bind at 1, get at 1.
    destruct (childNodes (elementAt w el)) as [|c cs] eqn:Hc; cbn [length Nat.eqb].
    + eexists. split; [reflexivity|]. by eapply range_no_children.
    + assert (childNodes (elementAt w el) ≠ []) as Hne by (by rewrite Hc).
      unfold tryCatch, bind, query, get_offsetWidth, window_getComputedStyle, query.
      destruct (rangeReadings w el) as [e|[[tw cw] cst]] eqn:Hr.
      * unfold rangeReadings in Hr.
        eexists. split; [|by eapply range_failed].
        destruct (rangeWidth (host w) (document w) el); [by simplify_eq|].
        destruct (offsetWidthOf w el); [by simplify_eq|].
        destruct (getComputedStyle (host w) (document w) el); by simplify_eq.
      * unfold rangeReadings in Hr.
        eexists. split; [|by eapply range_measured].
        destruct (rangeWidth (host w) (document w) el); [by simplify_eq|].
        destruct (offsetWidthOf w el); [by simplify_eq|].
        destruct (getComputedStyle (host w) (document w) el); by simplify_eq.
  - eexists. split; [reflexivity|]. by apply range_not_found.
  - eexists. split; [reflexivity|]. by apply range_lookup_throws.
Qed.

Lemma wp_getElement t (Q : Outcome (option node) -> World -> Prop) w :
  Q (lookup w t) w -> wp (_getElement t) Q w.
Proof. unfold wp. by rewrite _getElement_pure. Qed.

Lemma wp_createResult b e d (Q : Outcome Result -> World -> Prop) w :
  Q (Return (mkResult b e d (clock w))) w -> wp (_createResult b e d) Q w.
Proof. done. Qed.

Lemma wp_getMeasureElement (Q : Outcome node -> World -> Prop) w :
  (forall tmpl m w1,
     grows w w1 -> attached w1 = attached w -> cachedWidth w1 = cachedWidth w ->
     measureElement w1 = Some tmpl ->
     m ∉ dom (elements w) -> m ≠ body w -> tmpl ≠ m -> m ∈ dom (elements w1) ->
     match measureElement w with
     | Some t0 => tmpl = t0
     | None => (tmpl ∉ dom (elements w)) ∧ tmpl ≠ body w
     end ->
     Q (Return m) w1) ->
  wp _getMeasureElement Q w.
Proof.
  intros H. unfold _getMeasureElement.
  apply wp_bind, wp_get. destruct (measureElement w) as [t|] eqn:Ht.
  - apply wp_bind, wp_ret, wp_cloneNode. intros n Hn Hb Hm.
    apply (H t); try done.
    + apply grows_insert; [apply grows_refl | done..].
    + unfold attached. cbn [body setElements]. by rewrite elementAt_insert_ne.
    + intros ->. by apply (Hm n).
    + cbn. rewrite dom_insert_L. set_solver.
  - apply wp_bind, wp_bind, wp_createElement. intros t Hfresh Htb _.
    apply wp_bind, wp_modify, wp_bind, wp_updateElement, wp_ret.
    match goal with |- wp _ _ ?W => set (w1 := W) end.
    assert (grows w w1) as G1.
    { subst w1. apply grows_insert; [|exact Hfresh|exact Htb].
      apply grows_setMeasureElement, grows_insert; [apply grows_refl|exact Hfresh|exact Htb]. }
    assert (attached w1 = attached w) as A1.
    { subst w1. unfold attached, elementAt. cbn [body elements setElements setMeasureElement].
      by rewrite !lookup_insert_ne by congruence. }
    assert (measureElement w1 = Some t) as M1 by done.
    assert (cachedWidth w1 = cachedWidth w) as C1 by done.
    clearbody w1. apply wp_cloneNode. intros n Hn Hb Hm.
    assert (n ∉ dom (elements w)) as Hn0.
    { intros Hin. by apply Hn, (grows_dom _ _ G1). }
    assert (n ≠ body w) as Hb0 by (by rewrite <- (grows_body _ _ G1)).
    apply (H t); try done.
    + by apply grows_insert.
    + unfold attached. cbn [body setElements]. by rewrite elementAt_insert_ne.
    + intros ->. by apply (Hm n).
    + cbn. rewrite dom_insert_L. set_solver.
Qed.

Lemma wp_forEach_setStyle x (f : string -> string) props
    (Q : Outcome unit -> World -> Prop) w :
  (forall w', writesAt x w w' ->
     data (elementAt w' x) = data (elementAt w x) ->
     Q (Return tt) w') ->
  wp (forEach (fun prop => setStyle x prop (f prop)) props) Q w.
Proof.
  revert w. induction props as [|p props IH]; intros w H.
  - apply wp_ret, H; [apply writesAt_refl | done].
  - cbn [forEach]. apply wp_bind, wp_setStyle. intros w1 W1 T1.
    apply IH. intros w2 W2 T2. apply H.
    + by eapply writesAt_trans.
    + congruence.
Qed.

Lemma wp_copyTextStyles source target (Q : Outcome unit -> World -> Prop) w :
  match getComputedStyle (host w) (document w) source with
  | inl e => Q (Throw e) w
  | inr _ =>
      forall w', writesAt target w w' ->
        data (elementAt w' target) = data (elementAt w target) ->
        Q (Return tt) w'
  end ->
  wp (_copyTextStyles source target) Q w.
Proof.
  intros H. unfold _copyTextStyles, window_getComputedStyle.
  apply wp_bind, wp_query.
  destruct (getComputedStyle (host w) (document w) source) as [e|cs]; [done|].
  by apply wp_forEach_setStyle.
Qed.

(** The scratch node on its way into the document. *)
Lemma attachScratch_spec el testText w :
  wp (attachScratch el testText)
    (fun out w4 =>
       match out with
       | Return m => scratchAttached w testText m w4
       | Throw _ => scratchDropped w w4
       end) w.
Proof.
  unfold attachScratch.
  apply wp_bind, wp_getMeasureElement. intros tmpl m w1 G1 A1 C1 M1 Hm Hmb Htm Hin Ht.
  assert (m ≠ body w1) as Hmb1 by (by rewrite (grows_body _ _ G1)).
  apply wp_bind, wp_copyTextStyles.
  destruct (getComputedStyle (host w1) (document w1) el) as [e|cs].
  { split; try done. exists tmpl. by split. }
  intros w2 W2 _.
  assert (grows w w2) as G2 by (by eapply writesAt_grows).
  apply wp_bind, wp_setTextContent. intros w2' w3 Hcase W3.
  apply wp_bind, wp_body_appendChild, wp_ret.
  assert (grows w w2' ∧ attached w2' = attached w ∧ cachedWidth w2' = cachedWidth w ∧
          measureElement w2' = Some tmpl ∧
          (testText ≠ [] ->
           exists n, (n ∉ dom (elements w)) ∧ n ≠ m ∧
             elements w2' !! n = Some (mkElement false ∅ testText []) ∧
             childNodes (elementAt w3 m) = [n])) as (G2' & A2' & C2' & M2' & T2').
  { assert (attached w2 = attached w) as A2
      by (by rewrite (writesAt_attached _ _ _ W2)).
    assert (cachedWidth w2 = cachedWidth w) as C2
      by (by rewrite (wa_cachedWidth _ _ _ W2)).
    assert (measureElement w2 = Some tmpl) as M2
      by (by rewrite (wa_measureElement _ _ _ W2)).
    destruct Hcase as [(Hs & -> & _)|(n & Hs & Hn & Hnb & -> & Hc)]; [done|].
    assert (n ∉ dom (elements w)) as Hn0.
    { intros Hn0. by apply Hn, (grows_dom _ _ G2). }
    assert (n ≠ body w) as Hnb0 by (by rewrite <- (grows_body _ _ G2)).
    split_and!; try done.
    - by apply grows_insert.
    - unfold attached. cbn [body setElements]. rewrite elementAt_insert_ne by done.
      exact A2.
    - intros _. exists n. split_and!; try done.
      + intros ->. by apply Hn, (wa_dom _ _ _ W2).
      + cbn. by rewrite lookup_insert_eq. }
  assert (grows w w3) as G3 by (by eapply writesAt_grows).
  assert (m ≠ body w2') as Hmb2 by (by rewrite (grows_body _ _ G2')).
  split; try done.
  - by apply grows_setAttached.
  - cbn. by rewrite (wa_cachedWidth _ _ _ W3).
  - exists tmpl. cbn. rewrite (wa_measureElement _ _ _ W3). by split.
  - intros Hne. destruct (T2' Hne) as (n & Hn & Hnm & Hx & Hc). exists n.
    assert (n ≠ body w) as Hnb.
    { intros ->. destruct Hcase as [(Hs & _)|(n' & _ & _ & Hnb & -> & Hc')]; [done|].
      rewrite Hc in Hc'. injection Hc' as <-. by rewrite (grows_body _ _ G2) in Hnb. }
    split_and!; try done.
    + rewrite lookup_setAttached by (by rewrite (grows_body _ _ G3)).
      by rewrite (wa_others _ _ _ W3).
    + rewrite elementAt_setAttached; [done|]. by rewrite (grows_body _ _ G3).
  - rewrite attached_setAttached, (writesAt_attached _ _ _ W3) by done. by rewrite A2'.
Qed.

Lemma attachScratch_attached el testText w m w4 :
  attachScratch el testText w = (Return m, w4) -> scratchAttached w testText m w4.
Proof. intros H. exact (wp_elim _ _ _ _ _ H (attachScratch_spec el testText w)). Qed.

Lemma attachScratch_dropped el testText w e w1 :
  attachScratch el testText w = (Throw e, w1) -> scratchDropped w w1.
Proof. intros H. exact (wp_elim _ _ _ _ _ H (attachScratch_spec el testText w)). Qed.

(** The clean-up the [catch] block and [cleanup] share. *)
Lemma wp_detachTemplate (Q : Outcome unit -> World -> Prop) w :
  Q (Return tt) (detachTemplate w) ->
  wp (match measureElement w with
      | Some t =>
          let* inDocument := hasParent t in
          if inDocument then body_removeChild t else ret tt
      | None => ret tt
      end) Q w.
Proof.
  unfold detachTemplate. destruct (measureElement w) as [t|]; [|done]. intros H.
  apply wp_bind, wp_get. case_bool_decide as Hin.
  - rewrite decide_True in H by done. by apply wp_body_removeChild.
  - rewrite decide_False in H by done. by apply wp_ret.
Qed.

Lemma grows_detachTemplate w w' : grows w w' -> grows w (detachTemplate w').
Proof.
  intros G. unfold detachTemplate. destruct (measureElement w'); [|done].
  case_decide; [by apply grows_setAttached | done].
Qed.

Lemma attached_detachTemplate w :
  attached (detachTemplate w) =
  match measureElement w with
  | Some t => remove t (attached w)
  | None => attached w
  end.
Proof.
  unfold detachTemplate. destruct (measureElement w) as [t|]; [|done].
  case_decide; [by rewrite attached_setAttached | by rewrite remove_not_in].
Qed.

Lemma measureElement_detachTemplate w : measureElement (detachTemplate w) = measureElement w.
Proof.
  unfold detachTemplate. destruct (measureElement w) as [t|] eqn:E; [|done].
  by case_decide.
Qed.

Lemma clock_detachTemplate w : clock (detachTemplate w) = clock w.
Proof.
  unfold detachTemplate. destruct (measureElement w) as [t|] eqn:E; [|done].
  by case_decide.
Qed.

(** The [try] block of [detectByClone] is [attachScratch] followed by the
    rest. *)
Lemma bind_attachScratch {B} el testText (k : node -> M B) w :
  (let* measureElement := _getMeasureElement in
   do _copyTextStyles el measureElement then
   do setTextContent measureElement testText then
   do body_appendChild measureElement then
   k measureElement) w =
  (let* m := attachScratch el testText in k m) w.
Proof.
  unfold attachScratch, bind.
  destruct (_getMeasureElement w) as [[m|e] w1]; [|done].
  destruct (_copyTextStyles el m w1) as [[[]|e] w2]; [|done].
  destruct (setTextContent m testText w2) as [[[]|e] w3]; [|done].
  by destruct (body_appendChild m w3) as [[[]|e] w4].
Qed.

Lemma detectByClone_spec t text w :
  wp (detectByClone t text) (CloneSpec w t text) w.
Proof.
  unfold detectByClone. apply wp_bind, wp_getElement.
  destruct (lookup w t) as [[el|]|e] eqn:Hl.
  2: { apply wp_createResult. by apply clone_not_found. }
  2: { by apply clone_lookup_throws. }
  apply wp_bind, wp_get, wp_bind. unfold get_innerText. apply wp_get.
  fold (innerTextOf w el). fold (testTextFor w el text).
  destruct (testTextFor w el text) as [testText|] eqn:Htt.
  2: { apply wp_throw. by eapply clone_text_undefined. }
  destruct (trim testText) as [|c rest] eqn:Htrim; cbn [isEmpty].
  { apply wp_createResult. by eapply clone_no_text. }
  assert (trim testText ≠ []) as Hne by (by rewrite Htrim).
  apply wp_tryCatch. unfold wp at 1. rewrite bind_attachScratch.
  change (wp (let* m := attachScratch el testText in _) ?Q w) with
    (wp (let* m := attachScratch el testText in _) Q w).
  apply wp_bind, wp_intro. intros out w4 HA.
  assert (forall e, clock w4 = clock w ->
            wp ((fun error : exn =>
                   let* template := get measureElement in
                   do match template with
                      | Some t =>
                          let* inDocument := hasParent t in
                          if inDocument then body_removeChild t else ret tt
                      | None => ret tt
                      end then
                   _createResult false
                     (Some ("Clone detection failed: " ++ message error)%string) noDetails) e)
              (fun out' w' =>
                 out' = Return (failure ("Clone detection failed: " ++ message e) (clock w)) ∧
                 w' = detachTemplate w4) w4) as Hfail.
  { intros e Hc. cbn beta. apply wp_bind, wp_get, wp_bind, wp_detachTemplate, wp_createResult.
    by rewrite clock_detachTemplate, Hc. }
  destruct out as [m|e].
  2: { pose proof (attachScratch_dropped _ _ _ _ _ HA) as [G _ _ _].
       eapply wp_mono; [apply Hfail, (grows_clock _ _ G)|].
       intros out' w' [-> ->]. by eapply clone_style_failed. }
  pose proof (attachScratch_attached _ _ _ _ _ HA) as [G _ _ _ _ _ A].
  assert (forall e, cloneReadings w4 el m = inl e ->
            wp ((fun error : exn =>
                   let* template := get measureElement in
                   do match template with
                      | Some t =>
                          let* inDocument := hasParent t in
                          if inDocument then body_removeChild t else ret tt
                      | None => ret tt
                      end then
                   _createResult false
                     (Some ("Clone detection failed: " ++ message error)%string) noDetails) e)
              (CloneSpec w t text) w4) as Hread.
  { intros e He. eapply wp_mono; [apply Hfail, (grows_clock _ _ G)|].
    intros out' w' [-> ->]. by eapply clone_measure_failed. }
  unfold cloneReadings in Hread.
  apply wp_bind. unfold get_offsetWidth at 1. apply wp_query.
  destruct (offsetWidthOf w4 m) as [e|tw] eqn:Htw; [by apply Hread|].
  apply wp_bind. unfold get_offsetWidth at 1. apply wp_query.
  destruct (offsetWidthOf w4 el) as [e|cw] eqn:Hcw; [by apply Hread|].
  apply wp_bind. unfold window_getComputedStyle. apply wp_query.
  destruct (getComputedStyle (host w4) (document w4) el) as [e|cs'] eqn:Hcs'; [by apply Hread|].
  apply wp_bind, wp_body_removeChild.
  2: { intros Hout. exfalso. apply Hout. rewrite A. set_solver. }
  intros _. apply wp_createResult.
  replace (clock (setAttached (remove m) w4)) with (clock w) by (by rewrite <- (grows_clock _ _ G)).
  eapply clone_measured; eauto.
  unfold cloneReadings. by rewrite Htw, Hcw, Hcs'.
Qed.

Lemma detectByClone_inv t text w out w' :
  detectByClone t text w = (out, w') -> CloneSpec w t text out w'.
Proof. intros H. exact (wp_elim _ _ _ _ _ H (detectByClone_spec t text w)). Qed.

Lemma detectByRange_inv t w out w' :
  detectByRange t w = (out, w') -> w' = w ∧ RangeSpec w t out.
Proof.
  intros H. destruct (detectByRange_spec t w) as (out' & E & S).
  rewrite E in H. by simplify_eq.
Qed.

Lemma wellFormed_failure msg now : msg ≠ EmptyString -> wellFormed (failure msg now).
Proof. intros H. right. split; [done|]. cbn. by destruct msg. Qed.

Lemma RangeSpec_wellFormed w t r : RangeSpec w t (Return r) -> wellFormed r.
Proof.
  inversion 1; subst; try (by apply wellFormed_failure); by left.
Qed.

Lemma CloneSpec_wellFormed w t text r w' :
  CloneSpec w t text (Return r) w' -> wellFormed r.
Proof.
  inversion 1; subst; try (by apply wellFormed_failure); by left.
Qed.

Lemma wellFormed_truthy r : wellFormed r -> truthy (error r) = bool_decide (error r ≠ None).
Proof.
  intros [E|[_ E]].
  - rewrite E. done.
  - rewrite E. destruct (error r); [done | discriminate].
Qed.

Lemma RangeSpec_timestamp w t r : RangeSpec w t (Return r) -> timestamp r = clock w.
Proof. by inversion 1. Qed.

Lemma CloneSpec_timestamp w t text r w' :
  CloneSpec w t text (Return r) w' -> timestamp r = clock w.
Proof. by inversion 1. Qed.

Lemma CloneSpec_grows w t text out w' : CloneSpec w t text out w' -> grows w w'.
Proof.
  destruct 1 as [| | | |el testText e w1 _ _ _ HA|el testText e m w4 _ _ _ HA _
                |el testText tw cw cs m w4 _ _ _ HA _]; try apply grows_refl.
  - apply grows_detachTemplate, (sd_grows _ _ (attachScratch_dropped _ _ _ _ _ HA)).
  - apply grows_detachTemplate, (sa_grows _ _ _ _ (attachScratch_attached _ _ _ _ _ HA)).
  - apply grows_setAttached, (sa_grows _ _ _ _ (attachScratch_attached _ _ _ _ _ HA)).
Qed.

(** ** Targets whose lookup cannot raise *)

Lemma resolves_Ref w n : resolves w (Ref n).
Proof.
  unfold resolves. destruct (lookup w (Ref n)) as [[el|]|e] eqn:H; [|done|].
  - by apply lookup_Ref_isHTMLElement in H as (-> & _ & ?).
  - by destruct (lookup_Ref_returns w n) as [r Hr]; rewrite Hr in H.
Qed.

Lemma resolves_NotAnElement w : resolves w NotAnElement.
Proof. done. Qed.

Lemma isHTMLElement_dom w n : isHTMLElement (elementAt w n) = true -> n ∈ dom (elements w).
Proof.
  unfold elementAt. intros H. apply elem_of_dom.
  by destruct (elements w !! n).
Qed.

(** The chain [text || textContent || innerText] ends in undefined for
    exactly one kind of element: no override, no text of its own, and no
    HTML element. *)
Lemma testTextFor_None w el text :
  testTextFor w el text = None <->
  truthyText text = false ∧ textContent (host w) (document w) el = [] ∧
  isHTMLElement (elementAt w el) = false.
Proof.
  unfold testTextFor, testTextOf, innerTextOf.
  destruct (truthyText text) eqn:Ht.
  { split; [|by intros [? _]]. by destruct text as [[|]|]. }
  destruct (textContent (host w) (document w) el) as [|c s] eqn:Hc; cbn [truthyText].
  - destruct (isHTMLElement (elementAt w el)); [|done]. split; [done|]. by intros (_ & _ & ?).
  - split; [done|]. by intros (_ & ? & _).
Qed.

Lemma CloneSpec_returns w t text out w' :
  resolves w t -> CloneSpec w t text out w' -> exists r, out = Return r.
Proof.
  unfold resolves. intros R S.
  destruct S as [e Hl| |el Hl Ht| | | |]; eauto.
  - by rewrite Hl in R.
  - rewrite Hl in R. apply testTextFor_None in Ht as (_ & _ & Ht). congruence.
Qed.

Lemma RangeSpec_returns w t out :
  resolves w t -> RangeSpec w t out -> exists r, out = Return r.
Proof.
  unfold resolves. intros R S.
  destruct S as [e Hl| | | |]; eauto. by rewrite Hl in R.
Qed.

(** ** detect *)

Lemma detect_inv t text w out w' :
  detect t text w = (out, w') -> DetectSpec w t text out w'.
Proof.
  unfold detect. destruct (truthyText text) eqn:Ht.
  - intros H. apply detect_override; [done|]. by apply detectByClone_inv.
  - unfold bind. destruct (detectByRange t w) as [[r|e] w1] eqn:Hr.
    + apply detectByRange_inv in Hr as [-> Hr].
      rewrite (wellFormed_truthy r) by (by eapply RangeSpec_wellFormed).
      case_bool_decide as He.
      * intros H. eapply detect_fallback; eauto. by apply detectByClone_inv.
      * intros H. unfold ret in H. simplify_eq. by apply detect_range.
    + apply detectByRange_inv in Hr as [-> Hr]. intros H. simplify_eq.
      by apply detect_range_throws.
Qed.

Lemma detect_grows t text w out w' : detect t text w = (out, w') -> grows w w'.
Proof.
  intros H%detect_inv. inversion H; subst;
    eauto using CloneSpec_grows, grows_refl.
Qed.

Lemma detect_wellFormed t text w r w' :
  detect t text w = (Return r, w') -> wellFormed r ∧ timestamp r = clock w.
Proof.
  intros H%detect_inv. inversion H; subst;
    eauto using CloneSpec_wellFormed, CloneSpec_timestamp,
                RangeSpec_wellFormed, RangeSpec_timestamp.
Qed.

Lemma detect_returns t text w :
  resolves w t -> exists r w', detect t text w = (Return r, w').
Proof.
  intros R. destruct (detect t text w) as [out w'] eqn:H.
  pose proof (detect_inv _ _ _ _ _ H) as S. inversion S; subst.
  - destruct (CloneSpec_returns _ _ _ _ _ R H1) as [r ->]. eauto.
  - by destruct (RangeSpec_returns _ _ _ R H1).
  - eauto.
  - destruct (CloneSpec_returns _ _ _ _ _ R H3) as [r' ->]. eauto.
Qed.

(** * The sample pages of the specification *)

(** offsetWidth 100, no padding, natural text width 140. *)
Example narrow_paragraph_overflows :
  (detect (Ref paragraph) None (page narrow)).1 =
  Return (mkResult true None
            (mkDetails (Some (Num (Z2num 140))) (Some (Num (Z2num 100)))
               (Some (Z2num 100)) (Some (Z2num 40)) None) 0).
Proof. vm_compute. reflexivity. Qed.

(** offsetWidth 100, 5px padding left and right, natural text width 85. *)
Example padded_paragraph_fits :
  (detect (Ref paragraph) None (page padded)).1 =
  Return (mkResult false None
            (mkDetails (Some (Num (Z2num 85))) (Some (Num (Z2num 100)))
               (Some (Z2num 90)) (Some (Z2num 0)) None) 0).
Proof. vm_compute. reflexivity. Qed.

Example narrow_paragraph_clone :
  (detect (Selector "p") (Some (ascii_text "hello")) (page narrow)).1 =
  Return (mkResult true None
            (mkDetails (Some (Num (Z2num 140))) (Some (Num (Z2num 100)))
               (Some (Z2num 100)) (Some (Z2num 40)) (Some 5%nat)) 0).
Proof. vm_compute. reflexivity. Qed.

(** The subtractions are those of doubles.  offsetWidth 100 with paddings
    of 0.1 and 0.2: 100 - 0.1 - 0.2 is the double 99.7, a text as wide as
    that fits, and nothing overflows. *)
Example decimal_paddings :
  sub (sub (Z2num 100) (dvalue (ratio 1 10))) (dvalue (ratio 2 10)) = dvalue (ratio 997 10) ∧
  (detect (Ref paragraph) None (page decimal)).1 =
  Return (mkResult false None
            (mkDetails (Some (Num (Z2num 100))) (Some (Num (Z2num 100)))
               (Some (Z2num 100)) (Some (Z2num 0)) None) 0).
Proof. vm_compute. split; reflexivity. Qed.

(** An SVG element has no [offsetWidth]: measured by the range strategy,
    its available width and its overflow amount are NaN and it is reported
    as not overflowing, without error. *)
Example chart_is_not_a_number :
  (detect (Selector "svg.chart") None gallery).1 =
  Return (mkResult false None
            (mkDetails (Some (Num (Z2num 140))) (Some undefined)
               (Some NaN) (Some NaN) None) 0).
Proof. vm_compute. reflexivity. Qed.

(** A run is its outcome and the world it leaves. *)
Lemma run_eq {A} (m : M A) w out : (m w).1 = out -> m w = (out, (m w).2).
Proof. intros <-. by destruct (m w). Qed.

(** * The overflow decision *)

Lemma numCompare_opp x y : numCompare y x = CompOpp <$> numCompare x y.
Proof.
  destruct x as [s1|s1| |s1 m1 e1], y as [s2|s2| |s2 m2 e2]; cbn;
    try done; try (by destruct s1); try (by destruct s2); try (by destruct s1, s2).
  rewrite (Z.min_comm e2 e1). f_equal. apply Z.compare_antisym.
Qed.

Lemma lessEq_not_gt x y : lessEq x y = true -> gt x y = false.
Proof.
  unfold lessEq, gt, lessThan. rewrite (numCompare_opp x y).
  by destruct (numCompare x y) as [[]|].
Qed.

Lemma decides_report tw aw a b c d now :
  reading tw ->
  decides tw aw
    (mkResult (gt tw aw) None
       (mkDetails a b c (Some (Math_round (Math_max0 (sub tw aw)))) d) now).
Proof.
  intros Hr. unfold decides, overflowAmount. cbn. split; [done|]. split; [|split].
  - intros Hle. split; [by apply lessEq_not_gt|]. by rewrite sub_not_above.
  - intros Hlt. split; [done|]. by rewrite sub_above.
  - eexists. split; [done|]. apply overflow_never_negative.
Qed.

(** C6.  A result without error comes from readings [tw] (text width),
    [cw] ([offsetWidth]) and the computed paddings.  With the available
    width [cw] minus both paddings, in the arithmetic of Numbers: the result
    says overflowing exactly when [tw] is strictly greater; when [tw] is less
    than or equal to it, the result is not overflowing and the overflow
    amount is 0; when the available width is strictly less, the result is
    overflowing and the amount is the difference, rounded; and the amount is
    never negative. *)
Theorem overflow_decision t text w r w' :
  detectByRange t w = (Return r, w') ∨
  detectByClone t text w = (Return r, w') ∨
  detect t text w = (Return r, w') ->
  error r = None ->
  exists tw cw cs,
    measuredFrom w t tw cw cs ∧
    containerWidth r = Some cw ∧
    availableWidth r = Some (Math_round (contentWidth cw cs)) ∧
    decides tw (contentWidth cw cs) r.
Proof.
  assert (forall out, RangeSpec w t out -> out = Return r -> error r = None ->
            exists tw cw cs, measuredFrom w t tw cw cs ∧
              containerWidth r = Some cw ∧
              availableWidth r = Some (Math_round (contentWidth cw cs)) ∧
              decides tw (contentWidth cw cs) r) as HR.
  { intros out S. destruct S; intros E; simplify_eq; try done. intros _.
    exists (dvalue tw), cw, cs. split; [exists el; split; [done|]; left; eauto|].
    split; [done|]. split; [done|]. apply decides_report, dvalue_reading. }
  assert (forall text' out w1, CloneSpec w t text' out w1 -> out = Return r -> error r = None ->
            exists tw cw cs, measuredFrom w t tw cw cs ∧
              containerWidth r = Some cw ∧
              availableWidth r = Some (Math_round (contentWidth cw cs)) ∧
              decides tw (contentWidth cw cs) r) as HC.
  { intros text' out w1 S. destruct S; intros E; simplify_eq; try done. intros _.
    exists (toNumber tw), cw, cs.
    split; [exists el; split; [done|]; right; by eauto 10|].
    split; [done|]. split; [done|]. apply decides_report.
    match goal with H : cloneReadings _ _ _ = inr _ |- _ =>
      unfold cloneReadings in H;
      destruct (offsetWidthOf w4 m) as [?|v] eqn:Hv; [done|];
      repeat case_match; simplify_eq end.
    by eapply toNumber_reading. }
  intros [H|[H|H]] He.
  - apply detectByRange_inv in H as [-> S]. eauto.
  - apply detectByClone_inv in H. eauto.
  - apply detect_inv in H. inversion H; subst; eauto.
Qed.

Lemma overflow_decision_witness :
  exists tw cw cs,
    measuredFrom (page narrow) (Ref paragraph) tw cw cs ∧
    Some (Num (Z2num 100)) = Some cw ∧
    Some (Z2num 100) = Some (Math_round (contentWidth cw cs)) ∧
    decides tw (contentWidth cw cs)
      (mkResult true None
         (mkDetails (Some (Num (Z2num 140))) (Some (Num (Z2num 100)))
            (Some (Z2num 100)) (Some (Z2num 40)) None) 0).
Proof.
  apply (overflow_decision (Ref paragraph) None (page narrow)
           (mkResult true None
              (mkDetails (Some (Num (Z2num 140))) (Some (Num (Z2num 100)))
                 (Some (Z2num 100)) (Some (Z2num 40)) None) 0)
           (page narrow)).
  - right. right. apply run_eq. vm_compute. reflexivity.
  - reflexivity.
Defined.

(** * Dispatch *)

(** C5, as stated, at the empty string: an override that is given but
    empty does not select the clone strategy.  [detect] answers with the
    range strategy's result, which differs from [detectByClone]'s. *)
Lemma detect_empty_override_uses_range :
  detect (Ref paragraph) (Some []) (page narrow)
  ≠ detectByClone (Ref paragraph) (Some []) (page narrow).
Proof. intros H. apply (f_equal fst) in H. vm_compute in H. discriminate. Qed.

(** C5, amended.  A non-empty override selects the clone strategy and
    [detect] is [detectByClone] on it, errors included.  Without an override,
    or with the empty string, [detect] is the range strategy's result, except
    that a range result carrying an error is replaced by [detectByClone] on
    the target alone, whose result is returned as it is. *)
Theorem detect_dispatch t w :
  (forall c s, detect t (Some (c :: s)) w = detectByClone t (Some (c :: s)) w) ∧
  detect t (Some []) w = detect t None w ∧
  detect t None w =
    match detectByRange t w with
    | (Return rangeResult, w1) =>
        if bool_decide (error rangeResult ≠ None)
        then detectByClone t None w1
        else (Return rangeResult, w1)
    | (Throw e, w1) => (Throw e, w1)
    end.
Proof.
  split; [done|]. split; [done|].
  unfold detect. cbn [truthyText]. unfold bind.
  destruct (detectByRange t w) as [[r|e] w1] eqn:Hr; [|done].
  apply detectByRange_inv in Hr as [-> Hr].
  rewrite (wellFormed_truthy r) by (by eapply RangeSpec_wellFormed).
  by case_bool_decide.
Qed.

(** * The scratch node *)

(** When the measurement succeeds the scratch node is detached again. *)
Lemma detectByClone_measured_detaches t text w r w' :
  detectByClone t text w = (Return r, w') -> error r = None ->
  exists m, (m ∉ dom (elements w)) ∧ m ≠ body w ∧ attached w' = remove m (attached w).
Proof.
  intros S%detectByClone_inv He. inversion S; subst; try done.
  match goal with H : attachScratch _ _ _ = (Return ?m, _) |- _ =>
    destruct (attachScratch_attached _ _ _ _ _ H) as [_ _ Hm Hb _ _ A]; exists m end.
  split; [done|]. split; [done|]. by rewrite attached_setAttached, A, remove_append.
Qed.

(** When a reading throws once the scratch node is attached, the [catch]
    block looks at the template, not at the clone it attached: the clone
    stays in the document. *)
Lemma detectByClone_failed_leaks t text w el testText m w4 e :
  lookup w t = Return (Some el) ->
  testTextFor w el text = Some testText ->
  trim testText ≠ [] ->
  attachScratch el testText w = (Return m, w4) ->
  cloneReadings w4 el m = inl e ->
  exists w',
    detectByClone t text w =
      (Return (failure ("Clone detection failed: " ++ message e) (clock w)), w') ∧
    (m ∉ dom (elements w)) ∧ m ∈ attached w'.
Proof.
  intros Hl Ht Hb HA Hr. destruct (detectByClone t text w) as [out w'] eqn:H.
  apply detectByClone_inv in H. exists w'.
  destruct (attachScratch_attached _ _ _ _ _ HA) as [_ _ Hm _ (tmpl & Htm & Hne & _) _ A].
  inversion H; subst; same_run; try congruence.
  split; [done|]. split; [done|].
  rewrite attached_detachTemplate, Htm, A. apply elem_of_remove. split; [|done].
  set_solver.
Qed.

(** C1, the failing call.  The paragraph's [offsetWidth] throws after the
    scratch node (node 5, a clone of the template, node 4) was appended to
    the body: the call returns an error result and node 5, holding the
    measured text, is still a child of the body. *)
Theorem detectByClone_leaves_scratch_attached :
  attached (page faulty) = [paragraph] ∧
  elements (page faulty) !! 5%positive = None ∧
  (detectByClone (Ref paragraph) None (page faulty)).1 =
    Return (failure "Clone detection failed: layout failed" 0) ∧
  attached (detectByClone (Ref paragraph) None (page faulty)).2 = [paragraph; 5%positive] ∧
  measureElement (detectByClone (Ref paragraph) None (page faulty)).2 = Some 4%positive ∧
  textContent faulty (document (detectByClone (Ref paragraph) None (page faulty)).2)
    5%positive = ascii_text "hello".
Proof. vm_compute. repeat split; reflexivity. Qed.

(** * The target is only read *)

(** C9, the failing call.  The target is [document.body] and reading its
    [offsetWidth] throws once the scratch node is in the document: [detect]
    with an override returns an error result and the target has a child it
    did not have, the scratch node (node 5) holding the override, so that
    the target's [textContent], "hello" before the call, is "hellohi" after
    it. *)
Theorem detect_gives_body_target_a_child :
  lookup (page faultyBody) (Ref bodyNode) = Return (Some bodyNode) ∧
  childNodes (elementAt (page faultyBody) bodyNode) = [paragraph] ∧
  (detect (Ref bodyNode) (Some (ascii_text "hi")) (page faultyBody)).1 =
    Return (failure "Clone detection failed: layout failed" 0) ∧
  childNodes (elementAt (detect (Ref bodyNode) (Some (ascii_text "hi")) (page faultyBody)).2
                bodyNode) = [paragraph; 5%positive] ∧
  textContent faultyBody
    (document (detect (Ref bodyNode) (Some (ascii_text "hi")) (page faultyBody)).2)
    5%positive = ascii_text "hi" ∧
  textContent faultyBody (document (page faultyBody)) bodyNode = ascii_text "hello" ∧
  textContent faultyBody
    (document (detect (Ref bodyNode) (Some (ascii_text "hi")) (page faultyBody)).2)
    bodyNode = ascii_text "hellohi".
Proof. vm_compute. repeat split; reflexivity. Qed.

(** * Errors *)

Lemma detectByRange_not_found t w :
  lookup w t = Return None ->
  detectByRange t w = (Return (failure "Element not found" (clock w)), w).
Proof.
  intros Hl. destruct (detectByRange_spec t w) as (out & -> & S).
  f_equal. inversion S; congruence.
Qed.



Lemma detectByRange_measured t w el tw cw cs :
  lookup w t = Return (Some el) -> childNodes (elementAt w el) ≠ [] ->
  rangeReadings w el = inr (tw, cw, cs) ->
  detectByRange t w =
    (Return (measurement (dvalue tw) (Num (Math_round (dvalue tw))) cw cs None (clock w)), w).
Proof.
  intros Hl Hc Hr. destruct (detectByRange_spec t w) as (out & -> & S).
  f_equal. inversion S; same_run; congruence.
Qed.



Lemma detectByClone_not_found t text w :
  lookup w t = Return None ->
  detectByClone t text w = (Return (failure "Element not found" (clock w)), w).
Proof.
  intros Hl. destruct (detectByClone t text w) as [out w'] eqn:H.
  apply detectByClone_inv in H. inversion H; congruence.
Qed.


Lemma detectByClone_no_text t text w el testText :
  lookup w t = Return (Some el) ->
  testTextFor w el text = Some testText -> trim testText = [] ->
  detectByClone t text w = (Return (failure "No text content" (clock w)), w).
Proof.
  intros Hl Ht Hb. destruct (detectByClone t text w) as [out w'] eqn:H.
  apply detectByClone_inv in H. inversion H; same_run; congruence.
Qed.



Lemma detectByClone_measured t text w el testText m w4 tw cw cs :
  lookup w t = Return (Some el) ->
  testTextFor w el text = Some testText -> trim testText ≠ [] ->
  attachScratch el testText w = (Return m, w4) ->
  cloneReadings w4 el m = inr (tw, cw, cs) ->
  detectByClone t text w =
    (Return (measurement (toNumber tw) tw cw cs (Some (length testText)) (clock w)),
     setAttached (remove m) w4).
Proof.
  intros Hl Ht Hb HA Hr. destruct (detectByClone t text w) as [out w'] eqn:H.
  apply detectByClone_inv in H. inversion H; same_run; congruence.
Qed.



Lemma detect_not_found t text w :
  lookup w t = Return None ->
  detect t text w = (Return (failure "Element not found" (clock w)), w).
Proof.
  intros Hl. unfold detect. destruct (truthyText text).
  - by apply detectByClone_not_found.
  - unfold bind. rewrite (detectByRange_not_found _ _ Hl). cbn [error failure truthy].
    by apply detectByClone_not_found.
Qed.





Lemma CloneSpec_raises w t text e w' :
  CloneSpec w t text (Throw e) w' -> w' = w ∧ Raises w t e.
Proof.
  inversion 1; subst.
  - split; [done|]. by apply raises_lookup.
  - split; [done|].
    match goal with H : testTextFor _ _ _ = None |- _ =>
      apply testTextFor_None in H as (_ & ? & ?) end.
    by eapply raises_no_text.
Qed.


Lemma detect_outcome t text w :
  match detect t text w with
  | (Return r, _) => wellFormed r
  | (Throw e, w') => w' = w ∧ Raises w t e
  end.
Proof.
  destruct (detect t text w) as [[r|e] w'] eqn:H.
  - by apply (detect_wellFormed _ _ _ _ _ H).
  - apply detect_inv in H. inversion H; subst.
    + by eapply CloneSpec_raises.
    + split; [done|]. apply raises_lookup.
      match goal with H : RangeSpec _ _ (Throw _) |- _ => by inversion H end.
    + by eapply CloneSpec_raises.
Qed.

(** * Batches *)

Lemma detectMultiple_cons t ts w r w1 :
  detect t None w = (Return r, w1) ->
  detectMultiple (t :: ts) w =
    match detectMultiple ts w1 with
    | (Return rs, w2) => (Return (r :: rs), w2)
    | (Throw e, w2) => (Throw e, w2)
    end.
Proof.
  intros H. unfold detectMultiple. cbn [mapM]. unfold bind at 1. rewrite H.
  unfold bind at 1. by destruct (mapM _ ts w1) as [[rs|e] w2].
Qed.

Lemma detectMultiple_cons_throws t ts w e w1 :
  detect t None w = (Throw e, w1) -> detectMultiple (t :: ts) w = (Throw e, w1).
Proof. intros H. unfold detectMultiple. cbn [mapM]. unfold bind at 1. by rewrite H. Qed.

Lemma detectMultiple_outcome ts w :
  match detectMultiple ts w with
  | (Return rs, _) => length rs = length ts ∧ Forall wellFormed rs
  | (Throw e, _) =>
      exists i t rs,
        ts !! i = Some t ∧
        (detectMultiple (take i ts) w).1 = Return rs ∧
        Raises (detectMultiple (take i ts) w).2 t e
  end.
Proof.
  revert w. induction ts as [|t ts IH]; intros w; [done|].
  pose proof (detect_outcome t None w) as Ht.
  destruct (detect t None w) as [[r|e] w1] eqn:Hd.
  - rewrite (detectMultiple_cons _ _ _ _ _ Hd). specialize (IH w1).
    destruct (detectMultiple ts w1) as [[rs|e] w2].
    + destruct IH as [Hlen Hwf]. split; [cbn; by rewrite Hlen|]. by constructor.
    + destruct IH as (i & t' & rs & Hi & Hrs & Hr).
      exists (S i), t', (r :: rs). split; [done|]. cbn [take].
      rewrite (detectMultiple_cons _ _ _ _ _ Hd).
      destruct (detectMultiple (take i ts) w1) as [out w2']. cbn [fst snd] in *.
      by subst out.
  - rewrite (detectMultiple_cons_throws _ _ _ _ _ Hd). destruct Ht as [-> Hr].
    exists 0%nat, t, []. by split.
Qed.


(** The other exception: an empty SVG drawing has neither text nor
    [innerText], and the clone strategy calls [trim] on undefined. *)
Example empty_drawing_raises :
  (detectByClone (Selector "svg") None gallery).1 = Throw noTrim ∧
  (detect (Selector "svg") None gallery).1 = Throw noTrim ∧
  (detectMultiple [Ref paragraph; Selector "svg"%string] gallery).1 = Throw noTrim.
Proof. vm_compute. repeat split; reflexivity. Qed.


Lemma detectMultiple_app ts1 ts2 w :
  detectMultiple (ts1 ++ ts2) w =
  match detectMultiple ts1 w with
  | (Return rs1, w1) =>
      match detectMultiple ts2 w1 with
      | (Return rs2, w2) => (Return (rs1 ++ rs2), w2)
      | (Throw e, w2) => (Throw e, w2)
      end
  | (Throw e, w1) => (Throw e, w1)
  end.
Proof.
  revert w. induction ts1 as [|t ts1 IH]; intros w.
  - change (detectMultiple [] w) with (@Return (list Result) [], w). cbn [app].
    by destruct (detectMultiple ts2 w) as [[rs2|e] w2].
  - cbn [app]. destruct (detect t None w) as [[r|e] w1] eqn:Hd.
    + rewrite !(detectMultiple_cons _ _ _ _ _ Hd), IH.
      destruct (detectMultiple ts1 w1) as [[rs1|e] w2]; [|done].
      by destruct (detectMultiple ts2 w2) as [[rs2|e] w3].
    + by rewrite !(detectMultiple_cons_throws _ _ _ _ _ Hd).
Qed.

Lemma detectMultiple_length ts w rs w' :
  detectMultiple ts w = (Return rs, w') -> length rs = length ts.
Proof.
  intros H. pose proof (detectMultiple_outcome ts w) as Ho. rewrite H in Ho. tauto.
Qed.

(** A batch that returns, cut at a position of the list. *)
Lemma detectMultiple_split ts w rs w' i t :
  detectMultiple ts w = (Return rs, w') -> ts !! i = Some t ->
  exists rs1 wi r wi' rs2,
    detectMultiple (take i ts) w = (Return rs1, wi) ∧
    detect t None wi = (Return r, wi') ∧
    detectMultiple (drop (S i) ts) wi' = (Return rs2, w') ∧
    rs = rs1 ++ r :: rs2 ∧ length rs1 = i.
Proof.
  intros Hrun Hi.
  rewrite <- (take_drop_middle ts i t Hi), detectMultiple_app in Hrun.
  destruct (detectMultiple (take i ts) w) as [[rs1|e] wi] eqn:H1; [|done].
  destruct (detect t None wi) as [[r|e] wi'] eqn:H2.
  2: { by rewrite (detectMultiple_cons_throws _ _ _ _ _ H2) in Hrun. }
  rewrite (detectMultiple_cons _ _ _ _ _ H2) in Hrun.
  destruct (detectMultiple (drop (S i) ts) wi') as [[rs2|e] w2] eqn:H3; [|done].
  simplify_eq. exists rs1, wi, r, wi', rs2. split_and!; try done.
  rewrite (detectMultiple_length _ _ _ _ H1), length_take.
  apply lookup_lt_Some in Hi. lia.
Qed.

Lemma detectMultiple_positions ts w rs w' :
  detectMultiple ts w = (Return rs, w') ->
  forall i t, ts !! i = Some t ->
    exists r wi,
      detect t None (detectMultiple (take i ts) w).2 = (Return r, wi) ∧
      rs !! i = Some r.
Proof.
  intros Hrun i t Hi.
  destruct (detectMultiple_split _ _ _ _ _ _ Hrun Hi)
    as (rs1 & wi & r & wi' & rs2 & H1 & H2 & _ & -> & Hlen).
  exists r, wi'. rewrite H1. split; [done|].
  rewrite lookup_app_r by lia. by rewrite Hlen, Nat.sub_diag.
Qed.

Lemma detectMultiple_throws ts w e w' :
  detectMultiple ts w = (Throw e, w') ->
  exists i t rs wi,
    ts !! i = Some t ∧
    detectMultiple (take i ts) w = (Return rs, wi) ∧
    detect t None wi = (Throw e, w').
Proof.
  revert w. induction ts as [|t ts IH]; intros w Hrun; [done|].
  destruct (detect t None w) as [[r|e0] w1] eqn:Hd.
  - rewrite (detectMultiple_cons _ _ _ _ _ Hd) in Hrun.
    destruct (detectMultiple ts w1) as [[rs|e1] w2] eqn:Hrest; [done|]. simplify_eq.
    destruct (IH w1 Hrest) as (i & t' & rs & wi & Hi & Hrs & Ht).
    exists (S i), t', (r :: rs), wi. split; [done|]. split; [|done].
    cbn [take]. by rewrite (detectMultiple_cons _ _ _ _ _ Hd), Hrs.
  - rewrite (detectMultiple_cons_throws _ _ _ _ _ Hd) in Hrun. simplify_eq.
    exists 0%nat, t, [], w. by split.
Qed.

(** A target that is not found, or has no text to measure, is answered
    without touching anything. *)
Lemma detect_reports_untouched t w r w' :
  detect t None w = (Return r, w') ->
  error r = Some "Element not found"%string ∨ error r = Some "No text content"%string ->
  w' = w.
Proof.
  intros H%detect_inv He.
  assert (forall out w1, CloneSpec w t None out w1 -> out = Return r -> w1 = w) as HC.
  { intros out w1 S. destruct S; intros E; simplify_eq; try done;
      destruct He as [He|He]; cbn in He; discriminate. }
  inversion H; subst; eauto.
Qed.

(** C8, as stated, at a list holding a malformed selector: no list of
    results comes back, so the paragraph's result is lost with it. *)
Lemma detectMultiple_malformed_selector_raises :
  (detectMultiple [Selector "["%string; Ref paragraph] (page narrow)).1
  = Throw (Exn "'[' is not a valid selector").
Proof. vm_compute. reflexivity. Qed.

(** C8, amended.  [detectMultiple] raises only when [detect] raises for
    one of the targets, in the document as the targets before it left it.
    Otherwise it returns one result per target, in the order of the list:
    the result at position [i] is what [detect] returns for the target at
    position [i], called once the targets before it have been dealt with.
    Results carrying an error take their place like any other, and a target
    reported as "Element not found" or "No text content" changes nothing for
    the others: without it in the list, the other results and the final
    world are the same. *)
Theorem detectMultiple_in_order ts w :
  match detectMultiple ts w with
  | (Return rs, w') =>
      length rs = length ts ∧
      (forall i t, ts !! i = Some t ->
         exists r wi,
           detect t None (detectMultiple (take i ts) w).2 = (Return r, wi) ∧
           rs !! i = Some r) ∧
      (forall i r, rs !! i = Some r ->
         error r = Some "Element not found"%string ∨
         error r = Some "No text content"%string ->
         detectMultiple (delete i ts) w = (Return (delete i rs), w'))
  | (Throw e, _) =>
      exists i t wi,
        ts !! i = Some t ∧
        detect t None (detectMultiple (take i ts) w).2 = (Throw e, wi)
  end.
Proof.
  destruct (detectMultiple ts w) as [[rs|e] w'] eqn:Hrun.
  - pose proof (detectMultiple_length _ _ _ _ Hrun) as Hlen.
    split; [done|]. split; [by eapply detectMultiple_positions|].
    intros i r Hr He.
    assert (is_Some (ts !! i)) as [t Hi].
    { apply lookup_lt_is_Some. rewrite <- Hlen. by eapply lookup_lt_Some. }
    destruct (detectMultiple_split _ _ _ _ _ _ Hrun Hi)
      as (rs1 & wi & r' & wi' & rs2 & H1 & H2 & H3 & -> & Hl1).
    rewrite lookup_app_r, Hl1, Nat.sub_diag in Hr by lia. cbn in Hr. simplify_eq.
    pose proof (detect_reports_untouched _ _ _ _ H2 He) as ->.
    rewrite (delete_take_drop ts), detectMultiple_app, H1, H3.
    by rewrite delete_middle.
  - destruct (detectMultiple_throws _ _ _ _ Hrun) as (i & t & rs & wi & Hi & Hrs & Ht).
    exists i, t, w'. rewrite Hrs. by split.
Qed.

(** The missing target of the specification's example does not keep the
    paragraph from being measured. *)
Example detectMultiple_missing_then_valid :
  (detectMultiple [NotAnElement; Ref paragraph] (page narrow)).1 =
  Return [ failure "Element not found" 0;
           mkResult true None
             (mkDetails (Some (Num (Z2num 140))) (Some (Num (Z2num 100)))
                (Some (Z2num 100)) (Some (Z2num 40)) None) 0 ].
Proof. vm_compute. reflexivity. Qed.

(** What C8 leaves out.  The paragraph's detection fails with its scratch
    node still in the document (see C1), and the selector of the second
    target then finds that node instead of the paragraph: alone, the second
    target is reported as a failure; after the first, as a measurement. *)
Example failed_target_changes_the_next :
  (detectMultiple [Selector "body > :last-child"%string] (page faulty)).1 =
    Return [failure "Clone detection failed: layout failed" 0] ∧
  (detectMultiple [Ref paragraph; Selector "body > :last-child"%string] (page faulty)).1 =
    Return [ failure "Clone detection failed: layout failed" 0;
             mkResult false None
               (mkDetails (Some (Num (Z2num 140))) (Some (Num (Z2num 140)))
                  (Some (Z2num 140)) (Some (Z2num 0)) None) 0 ].
Proof. vm_compute. split; reflexivity. Qed.

(** * Subscriptions *)

Lemma debouncedCallback_single o w :
  single o ->
  exists o', debouncedCallback o w = (Return o', w) ∧
    timers o' = [(nextTimer o, clock w + timeoutDelay (delay o))] ∧
    timeoutId o' = Some (nextTimer o) ∧
    calls o' = calls o ∧ connected o' = connected o ∧
    element o' = element o ∧ delay o' = delay o.
Proof.
  intros Hs. unfold debouncedCallback, bind, Date_now, get, ret.
  eexists. split; [reflexivity|]. cbn. repeat split; try (by destruct (timeoutId o)).
  destruct Hs as [H|(id & due & H & Hid)].
  - destruct (timeoutId o); cbn; by rewrite H.
  - rewrite Hid. cbn. rewrite H. rewrite filter_cons, decide_False by (cbn; tauto).
    done.
Qed.

Lemma onTimeout_returns o w :
  exists r w', onTimeout o w =
    (Return (mkObservation (element o) (delay o) (timeoutId o) (timers o) (nextTimer o)
               (connected o) (calls o ++ [(r, element o)])), w') ∧
    timestamp r = clock w ∧ grows w w'.
Proof.
  unfold onTimeout, bind.
  destruct (detect_returns (Ref (element o)) None w (resolves_Ref _ _)) as (r & w' & H).
  exists r, w'. rewrite H. split; [done|].
  split; [by apply (detect_wellFormed _ _ _ _ _ H) | by eapply detect_grows].
Qed.

Lemma elapse_idle ms o w :
  timers o = [] -> elapse ms (o, w) = (o, setClock (clock w + Z.max 0 ms) w).
Proof. intros H. unfold elapse. by rewrite H. Qed.

Lemma elapse_early ms o w id due :
  timers o = [(id, due)] -> clock w + Z.max 0 ms < due ->
  elapse ms (o, w) = (o, setClock (clock w + Z.max 0 ms) w).
Proof.
  intros H Hlt. unfold elapse. rewrite H.
  rewrite filter_cons, decide_False; [done|].
  cbn. intros Hb%bool_decide_unpack. lia.
Qed.

Lemma elapse_due ms o w id due :
  timers o = [(id, due)] -> due <= clock w + Z.max 0 ms ->
  exists r w',
    elapse ms (o, w) =
      (mkObservation (element o) (delay o) (timeoutId o) [] (nextTimer o)
         (connected o) (calls o ++ [(r, element o)]),
       setClock (clock w + Z.max 0 ms) w') ∧
    timestamp r = Z.max (clock w) due.
Proof.
  intros H Hle. unfold elapse. rewrite H.
  rewrite filter_cons, decide_True by (cbn; by apply bool_decide_pack).
  rewrite filter_nil. cbn [sortByDue foldr insertByDue fold_left fire snd fst].
  rewrite H, filter_cons, decide_False by (cbn; tauto). rewrite filter_nil.
  match goal with |- context [onTimeout ?o' ?w'] =>
    destruct (onTimeout_returns o' w') as (r & w2 & -> & Ht & _) end.
  exists r, w2. by split.
Qed.

Lemma step_single s e : single s.1 -> single (step s e).1.
Proof.
  destruct s as [o w]. intros Hs. destruct e as [|ms|]; cbn [step fst snd].
  - destruct (connected o); [|done].
    destruct (debouncedCallback_single o w Hs) as (o' & -> & Ht & Hid & _).
    right. eauto.
  - destruct Hs as [H|(id & due & H & Hid)].
    + rewrite (elapse_idle _ _ _ H). by left.
    + destruct (decide (due <= clock w + Z.max 0 ms)) as [Hle|Hgt].
      * destruct (elapse_due ms o w id due H Hle) as (r & w' & -> & _). by left.
      * rewrite (elapse_early ms o w id due H) by lia. right. eauto.
  - done.
Qed.

Lemma step_fixed s e :
  single s.1 ->
  element (step s e).1 = element s.1 ∧ delay (step s e).1 = delay s.1 ∧
  (e ≠ Disconnect -> connected (step s e).1 = connected s.1).
Proof.
  destruct s as [o w]. intros Hs. destruct e as [|ms|]; cbn [step fst snd].
  - destruct (connected o) eqn:Hc; [|done].
    destruct (debouncedCallback_single o w Hs) as (o' & -> & _ & _ & _ & ? & ? & ?).
    cbn. repeat split; congruence.
  - destruct Hs as [H|(id & due & H & Hid)].
    + by rewrite (elapse_idle _ _ _ H).
    + destruct (decide (due <= clock w + Z.max 0 ms)) as [Hle|Hgt].
      * by destruct (elapse_due ms o w id due H Hle) as (r & w' & -> & _).
      * by rewrite (elapse_early ms o w id due H) by lia.
  - done.
Qed.

Lemma run_app evs1 evs2 s : run (evs1 ++ evs2) s = run evs2 (run evs1 s).
Proof. apply fold_left_app. Qed.


Lemma observe_inv target options w o w1 :
  observe target options w = (Return o, w1) ->
  w1 = w ∧ lookup w target = Return (Some (element o)) ∧
  delay o = default 100 (debounce options) ∧
  connected o = true ∧ calls o = [] ∧ single o ∧
  timers o =
    (if default true (immediate options)
     then [(0%nat, clock w + timeoutDelay (default 100 (debounce options)))]
     else []).
Proof.
  unfold observe, bind at 1. rewrite _getElement_pure.
  destruct (lookup w target) as [[el|]|e]; [|done|done].
  destruct (default true (immediate options)).
  - unfold bind.
    match goal with |- context [debouncedCallback ?o0 w] =>
      destruct (debouncedCallback_single o0 w) as (o' & -> & Ht & Hid & Hc & _ & He & Hd);
        [by left|] end.
    unfold ret. intros H. simplify_eq. cbn in *.
    split_and!; try done; [by rewrite He | right; eauto].
  - unfold bind, ret. intros H. simplify_eq. cbn. split_and!; try done. by left.
Qed.

Lemma observe_eq target options w o :
  (observe target options w).1 = Return o -> observe target options w = (Return o, w).
Proof.
  intros H. destruct (observe target options w) as [out w1] eqn:E. cbn in H. subst out.
  by destruct (observe_inv _ _ _ _ _ E) as [-> _].
Qed.

Lemma run_single evs s : single s.1 -> single (run evs s).1.
Proof.
  revert s. induction evs as [|e evs IH]; intros s Hs; [done|].
  cbn [run fold_left]. by apply IH, step_single.
Qed.

Lemma run_element evs s : single s.1 -> element (run evs s).1 = element s.1.
Proof.
  revert s. induction evs as [|e evs IH]; intros s Hs; [done|].
  cbn [run fold_left]. unfold run in IH. rewrite IH by (by apply step_single).
  by apply step_fixed.
Qed.

(** ** Debouncing *)





(** The spec's example: three mutations 10ms apart, debounce=100. *)
Example three_mutations_one_callback :
  forall o w,
    observe (Ref paragraph) (mkOptions (Some false) (Some 100)) (page narrow) = (Return o, w) ->
    callTimes (run (burst [10; 10] ++ [Elapse 100]) (o, w)).1 = [120].
Proof.
  intros o w H. destruct (observe_inv _ _ _ _ _ H) as [-> _].
  apply (f_equal fst) in H. vm_compute in H. injection H as <-.
  vm_compute. reflexivity.
Qed.

(** ** The first detection *)


(** C2, the failing call.  On the paragraph, with immediate=true and
    the default debounce: when [observe] returns, the callback has not been
    invoked and no detection has been made; a timeout due 100ms later is all
    there is.  With a mutation 10ms after the subscription, the first and
    only detection is stamped 110, after that mutation. *)
Theorem observe_immediate_is_deferred :
  exists o,
    observe (Ref paragraph) (mkOptions (Some true) None) (page narrow)
      = (Return o, page narrow) ∧
    calls o = [] ∧
    timers o = [(0%nat, 100)] ∧
    callTimes (run [Elapse 10; Mutation; Elapse 200] (o, page narrow)).1 = [110].
Proof.
  exists (mkObservation paragraph 100 (Some 0%nat) [(0%nat, 100)] 1 true []).
  split; [apply observe_eq; vm_compute; reflexivity|].
  split; [reflexivity|]. split; [reflexivity|]. vm_compute. reflexivity.
Qed.



(** ** Cancellation *)

Lemma run_disconnected evs s :
  single s.1 -> connected s.1 = false ->
  (forall t, t ∈ timers (run evs s).1 -> t ∈ timers s.1) ∧
  exists extra,
    calls (run evs s).1 = calls s.1 ++ extra ∧
    (length extra + length (timers (run evs s).1) = length (timers s.1))%nat.
Proof.
  revert s. induction evs as [|e evs IH]; intros [o w] Hs Hc; cbn [fst snd] in *.
  { split; [done|]. exists []. by rewrite app_nil_r. }
  cbn [run fold_left].
  assert (exists o' w' extra,
            step (o, w) e = (o', w') ∧ single o' ∧ connected o' = false ∧
            (forall t, t ∈ timers o' -> t ∈ timers o) ∧
            calls o' = calls o ++ extra ∧
            (length extra + length (timers o') = length (timers o))%nat)
    as (o' & w' & extra & -> & Hs' & Hc' & Hsub & Hcalls & Hlen).
  { destruct e as [|ms|]; cbn [step fst snd].
    - rewrite Hc. exists o, w, []. by rewrite app_nil_r.
    - destruct Hs as [H|(id & due & H & Hid)].
      + rewrite (elapse_idle _ _ _ H). exists o, (setClock (clock w + Z.max 0 ms) w), [].
        rewrite app_nil_r. split_and!; try done. by left.
      + destruct (decide (due <= clock w + Z.max 0 ms)) as [Hle|Hgt].
        * destruct (elapse_due ms o w id due H Hle) as (r & w' & -> & _).
          eexists _, _, [(r, element o)]. split; [reflexivity|]. cbn.
          split_and!; try done; [by left | set_solver | by rewrite H].
        * rewrite (elapse_early ms o w id due H) by lia.
          exists o, (setClock (clock w + Z.max 0 ms) w), [].
          rewrite app_nil_r. split_and!; try done. right. eauto.
    - exists (disconnect o), w, []. rewrite app_nil_r. by split_and!. }
  destruct (IH (o', w') Hs' Hc') as (IHsub & extra' & IHcalls & IHlen).
  cbn [fst snd] in *. unfold run in *. split; [by auto|].
  exists (extra ++ extra'). rewrite IHcalls, Hcalls, <- app_assoc. split; [done|].
  rewrite length_app. lia.
Qed.

Lemma single_length o : single o -> (length (timers o) <= 1)%nat.
Proof. intros [->|(id & due & -> & _)]; cbn; lia. Qed.

(** C3, as stated, right after a subscription with immediate=true: the
    handle is cancelled while the first timeout is pending, and 100ms later
    the callback is invoked all the same. *)
Lemma cancelled_subscription_still_calls_back :
  exists o,
    observe (Ref paragraph) (mkOptions None None) (page narrow) = (Return o, page narrow) ∧
    calls o = [] ∧
    callTimes (run [Disconnect; Elapse 100] (o, page narrow)).1 = [100].
Proof.
  exists (mkObservation paragraph 100 (Some 0%nat) [(0%nat, 100)] 1 true []).
  split; [apply observe_eq; vm_compute; reflexivity|].
  split; [reflexivity|]. vm_compute. reflexivity.
Qed.

(** C3, amended.  Cancelling the handle stops the observation: from then
    on no mutation asks for a timeout, so no new callback is ever scheduled.
    It does not clear a timeout that is already pending: the callback is
    invoked for it once it falls due, and never again.  With nothing pending
    at cancellation the callback is never invoked again. *)
Theorem cancellation target options w o w1 before after :
  observe target options w = (Return o, w1) ->
  let s := run before (o, w1) in
  let s' := run (Disconnect :: after) s in
  (forall t, t ∈ timers s'.1 -> t ∈ timers s.1) ∧
  (timers s.1 = [] -> calls s'.1 = calls s.1) ∧
  (exists extra,
     calls s'.1 = calls s.1 ++ extra ∧
     (length extra + length (timers s'.1) = length (timers s.1))%nat ∧
     (length (timers s.1) <= 1)%nat) ∧
  (forall id due ms, timers s.1 = [(id, due)] -> due <= clock s.2 + Z.max 0 ms ->
     exists r, calls (run [Disconnect; Elapse ms] s).1 = calls s.1 ++ [(r, element o)]).
Proof.
  intros Hobs s s'.
  destruct (observe_inv _ _ _ _ _ Hobs) as (-> & _ & _ & _ & _ & Hs & _).
  pose proof (run_single before (o, w) Hs) as Hs1. fold s in Hs1.
  destruct (run_disconnected after (disconnect s.1, s.2)) as (Hsub & extra & Hcalls & Hlen);
    [done|done|].
  change (run after (disconnect s.1, s.2)) with s' in Hsub, Hcalls, Hlen.
  cbn [fst snd disconnect timers calls] in Hsub, Hcalls, Hlen.
  split; [done|]. split.
  - intros Ht. rewrite Ht in Hlen. cbn in Hlen.
    destruct extra; [|cbn in Hlen; lia]. by rewrite Hcalls, app_nil_r.
  - split.
    + exists extra. split; [done|]. split; [done|]. by apply single_length.
    + intros id due ms Ht Hdue.
      pose proof (run_element before (o, w) Hs) as He. fold s in He. cbn [fst] in He.
      destruct s as [o1 w1]. cbn [run fold_left step fst snd] in *.
      destruct (elapse_due ms (disconnect o1) w1 id due Ht Hdue) as (r & w2 & -> & _).
      exists r. cbn. by rewrite He.
Qed.

Lemma cancellation_witness :
  exists o,
    observe (Ref paragraph) (mkOptions None None) (page narrow) = (Return o, page narrow) ∧
    (timers (run [Mutation; Elapse 100] (o, page narrow)).1 = [] ->
     calls (run [Disconnect; Mutation; Elapse 1000] (run [Mutation; Elapse 100] (o, page narrow))).1
     = calls (run [Mutation; Elapse 100] (o, page narrow)).1).
Proof.
  exists (mkObservation paragraph 100 (Some 0%nat) [(0%nat, 100)] 1 true []).
  assert (observe (Ref paragraph) (mkOptions None None) (page narrow)
          = (Return (mkObservation paragraph 100 (Some 0%nat) [(0%nat, 100)] 1 true []),
             page narrow)) as Hobs.
  { apply observe_eq. vm_compute. reflexivity. }
  split; [exact Hobs|].
  exact (proj1 (proj2 (cancellation _ _ _ _ _ [Mutation; Elapse 100]
                         [Mutation; Elapse 1000] Hobs))).
Defined.

(** * ScrollbarWidthDetector *)

Import ScrollbarWidthDetector.

Lemma wp_setContainerStyles x styles (Q : Outcome unit -> World -> Prop) w :
  (forall w', writesAt x w w' -> Q (Return tt) w') ->
  wp (_setContainerStyles x styles) Q w.
Proof.
  revert w. induction styles as [|[prop value] styles IH]; intros w H.
  - apply wp_ret, H. apply writesAt_refl.
  - cbn [_setContainerStyles]. apply wp_bind, wp_setStyle. intros w1 W1 _.
    apply IH. intros w2 W2. apply H. by eapply writesAt_trans.
Qed.

Lemma measuring_writesAt outer x w w1 w2 :
  measuring outer w w1 -> x ∉ dom (elements w) -> x ≠ body w -> writesAt x w1 w2 ->
  measuring outer w w2.
Proof.
  intros [G C M A] Hx Hb W. split.
  - by eapply writesAt_grows.
  - by rewrite (wa_cachedWidth _ _ _ W).
  - by rewrite (wa_measureElement _ _ _ W).
  - rewrite (writesAt_attached _ _ _ W); [done|]. by rewrite (grows_body _ _ G).
Qed.

Lemma measuring_finally outer w w1 (out : Outcome Z) :
  measuring outer w w1 -> outer ∉ dom (elements w) ->
  (forall v, out = Return v -> 0 <= v) ->
  wp (body_removeChild outer)
    (fun c w'' =>
       match c with
       | Return _ => measured w out w''
       | Throw e => measured w (Throw e) w''
       end) w1.
Proof.
  intros [G C M A] Hx Hv. apply wp_body_removeChild.
  - intros _. split; try done.
    + by apply grows_setAttached.
    + exists outer. split; [done|]. by rewrite attached_setAttached, A, remove_append.
  - intros Hout. exfalso. apply Hout. rewrite A. set_solver.
Qed.

Lemma _measureScrollbarWidth_spec w :
  wp _measureScrollbarWidth (measured w) w.
Proof.
  unfold _measureScrollbarWidth.
  apply wp_bind, wp_createElement. intros outer Hfresh Hb _.
  set (w1 := setElements _ w).
  assert (grows w w1) as G1 by (apply grows_insert; [apply grows_refl | done..]).
  assert (attached w1 = attached w) as A1.
  { subst w1. unfold attached. cbn [body setElements].
    by rewrite elementAt_insert_ne by congruence. }
  apply wp_bind, wp_setContainerStyles. intros w2 W2.
  apply wp_bind, wp_body_appendChild.
  assert (measuring outer w (setAttached (fun l => remove outer l ++ [outer]) w2)) as Hm.
  { split.
    - apply grows_setAttached. by eapply writesAt_grows.
    - cbn. by rewrite (wa_cachedWidth _ _ _ W2).
    - cbn. by rewrite (wa_measureElement _ _ _ W2).
    - rewrite attached_setAttached, (writesAt_attached _ _ _ W2), A1; done. }
  generalize dependent (setAttached (fun l => remove outer l ++ [outer]) w2).
  intros w3 Hm. clear W2 G1 A1 w1 w2.
  apply wp_tryFinally, wp_bind. unfold HTMLElement_offsetWidth at 1. apply wp_query.
  destruct (offsetWidth (host w3) (document w3) outer) as [e|without].
  { by apply measuring_finally. }
  apply wp_bind, wp_setStyle. intros w4 W4 _.
  pose proof (measuring_writesAt _ _ _ _ _ Hm Hfresh Hb W4) as Hm4.
  apply wp_bind, wp_createElement. intros inner Hinner Hib _.
  assert (inner ∉ dom (elements w)) as Hinner0.
  { intros Hin. apply Hinner. by apply (grows_dom _ _ (m_grows _ _ _ Hm4)). }
  assert (inner ≠ body w) as Hib0.
  { by rewrite <- (grows_body _ _ (m_grows _ _ _ Hm4)). }
  match goal with |- wp _ _ (setElements (insert ?n ?e) ?w0) =>
    pose proof (measuring_writesAt _ _ _ _ _ Hm4 Hinner0 Hib0 (writesAt_update n e w0)) as Hm5;
    generalize dependent (setElements (insert n e) w0) end.
  intros w5 Hm5.
  apply wp_bind, wp_setContainerStyles. intros w6 W6.
  pose proof (measuring_writesAt _ _ _ _ _ Hm5 Hinner0 Hib0 W6) as Hm6.
  apply wp_bind. unfold appendChild. apply wp_updateElement.
  match goal with |- wp _ _ (setElements (insert ?n ?e) ?w0) =>
    pose proof (measuring_writesAt _ _ _ _ _ Hm6 Hfresh Hb (writesAt_update n e w0)) as Hm7;
    generalize dependent (setElements (insert n e) w0) end.
  intros w7 Hm7.
  apply wp_bind. unfold HTMLElement_offsetWidth. apply wp_query.
  match goal with |- match match ?q with _ => _ end with _ => _ end =>
    destruct q as [e|withScrollbar] end.
  { by apply measuring_finally. }
  apply wp_ret, measuring_finally; [done|done|].
  intros v Hv. simplify_eq. lia.
Qed.

Lemma getWidth_cached v w : cachedWidth w = Some v -> getWidth true w = (Return v, w).
Proof. intros H. unfold getWidth, bind, get. by rewrite H. Qed.

Lemma getWidth_uncached w :
  getWidth false w = _measureScrollbarWidth w.
Proof.
  unfold getWidth, bind, get, ret.
  by destruct (_measureScrollbarWidth w) as [[v|e] w'].
Qed.

Lemma getWidth_first w out w' :
  cachedWidth w = None -> getWidth true w = (out, w') ->
  match out with
  | Return v => 0 <= v ∧ cachedWidth w' = Some v
  | Throw _ => cachedWidth w' = None
  end.
Proof.
  intros Hc. unfold getWidth, bind at 1, get. rewrite Hc. unfold bind at 1.
  pose proof (_measureScrollbarWidth_spec w) as S. unfold wp in S.
  destruct (_measureScrollbarWidth w) as [[v|e] w1]; cbn [fst snd] in S.
  - unfold bind, modify, ret. intros H. simplify_eq. split; [|done].
    by apply (md_nonneg _ _ _ S).
  - intros H. simplify_eq. by rewrite (md_cachedWidth _ _ _ S).
Qed.

Lemma getWidth_keeps_cache useCache v w :
  cachedWidth w = Some v ->
  cachedWidth (getWidth useCache w).2 = Some v ∧
  (useCache = true -> getWidth useCache w = (Return v, w)).
Proof.
  intros Hc. destruct useCache.
  - rewrite (getWidth_cached v w Hc). done.
  - rewrite getWidth_uncached. split; [|done].
    pose proof (_measureScrollbarWidth_spec w) as S. unfold wp in S.
    by rewrite (md_cachedWidth _ _ _ S).
Qed.

Lemma runCalls_cached cs v w :
  cachedWidth w = Some v -> Forall (fun c => c ≠ ClearCache) cs ->
  cachedWidth (runCalls cs w).2 = Some v ∧
  forall i, cs !! i = Some (GetWidth true) -> (runCalls cs w).1 !! i = Some (Return v).
Proof.
  revert w. induction cs as [|c cs IH]; intros w Hc Hcs; [done|].
  apply Forall_cons in Hcs as [Hne Hcs]. destruct c as [useCache|]; [|done].
  cbn [runCalls].
  destruct (getWidth_keeps_cache useCache v w Hc) as [Hkeep Hsame].
  destruct (getWidth useCache w) as [out w1] eqn:Hg. cbn [snd] in Hkeep.
  destruct (IH w1 Hkeep Hcs) as [IH1 IH2].
  destruct (runCalls cs w1) as [outs w2]. cbn [fst snd] in *.
  split; [done|]. intros [|i] Hi; cbn in *.
  - simplify_eq. specialize (Hsame eq_refl). by simplify_eq.
  - by apply IH2.
Qed.

(** C10.  A first call [getWidth(true)], made while nothing is cached,
    that returns [v]: [v] is not negative and is now the cached value.  From
    then on [getWidth(true)] returns [v] and leaves the document exactly as
    it is, in every world that still holds [v]; [getWidth(false)] is a fresh
    measurement and leaves [v] cached; so through any sequence of calls
    without [clearCache], every [getWidth(true)] returns [v].
    [clearCache] empties the cache. *)
Theorem getWidth_cache w v w1 :
  cachedWidth w = None ->
  getWidth true w = (Return v, w1) ->
  0 <= v ∧ cachedWidth w1 = Some v ∧
  (forall w2, cachedWidth w2 = Some v -> getWidth true w2 = (Return v, w2)) ∧
  (forall w2, cachedWidth w2 = Some v ->
     getWidth false w2 = _measureScrollbarWidth w2 ∧
     cachedWidth (getWidth false w2).2 = Some v) ∧
  (forall cs, Forall (fun c => c ≠ ClearCache) cs ->
     cachedWidth (runCalls cs w1).2 = Some v ∧
     forall i, cs !! i = Some (GetWidth true) ->
       (runCalls cs w1).1 !! i = Some (Return v)) ∧
  (forall w2, cachedWidth (clearCache w2).2 = None).
Proof.
  intros Hc Hg. pose proof (getWidth_first w _ _ Hc Hg) as [Hv Hc1].
  split; [done|]. split; [done|]. split; [by apply getWidth_cached|].
  split.
  { intros w2 H2. split; [apply getWidth_uncached|].
    by apply (getWidth_keeps_cache false v w2 H2). }
  split; [|done].
  intros cs Hcs. by apply runCalls_cached.
Qed.

Example classic_scrollbar_width :
  (getWidth true (page classic)).1 = Return 15 ∧
  attached (getWidth true (page classic)).2 = [paragraph] ∧
  cachedWidth (getWidth true (page classic)).2 = Some 15.
Proof. vm_compute. repeat split; reflexivity. Qed.

Lemma getWidth_cache_witness :
  0 <= 15 ∧
  forall cs, Forall (fun c => c ≠ ClearCache) cs ->
    cachedWidth (runCalls cs (getWidth true (page classic)).2).2 = Some 15 ∧
    forall i, cs !! i = Some (GetWidth true) ->
      (runCalls cs (getWidth true (page classic)).2).1 !! i = Some (Return 15).
Proof.
  assert (getWidth true (page classic) = (Return 15, (getWidth true (page classic)).2)) as H.
  { apply run_eq. vm_compute. reflexivity. }
  destruct (getWidth_cache (page classic) 15 _ eq_refl H) as (Hv & _ & _ & _ & Hcs & _).
  split; [exact Hv | exact Hcs].
Defined.


(** * Further properties of TextOverflowDetector *)

(** X1.  The range strategy only reads: whatever the target and however
    the call ends, the document, the caches and the clock are exactly as
    before.  So [detect] without an override changes nothing either when the
    range strategy succeeds. *)
Theorem detectByRange_reads_only t w :
  (detectByRange t w).2 = w ∧
  forall r, (detectByRange t w).1 = Return r -> error r = None ->
    detect t None w = (Return r, w).
Proof.
  destruct (detectByRange_spec t w) as (out & E & S). rewrite E. split; [done|].
  cbn [fst]. intros r -> He. unfold detect. cbn [truthyText]. unfold bind. rewrite E.
  by rewrite He.
Qed.

(** X2.  The errors [detect] reports are the missing element, the missing
    text and the clone strategy's failure: a failure of the range strategy is
    never what the caller sees, the clone strategy's answer replaces it. *)
Theorem detect_error_messages t text w r w' msg :
  detect t text w = (Return r, w') ->
  error r = Some msg ->
  msg = "Element not found"%string ∨
  msg = "No text content"%string ∨
  exists e, msg = ("Clone detection failed: " ++ message e)%string.
Proof.
  assert (forall text' out w1, CloneSpec w t text' out w1 -> out = Return r ->
            error r = Some msg ->
            msg = "Element not found"%string ∨ msg = "No text content"%string ∨
            exists e, msg = ("Clone detection failed: " ++ message e)%string) as HC.
  { intros text' out w1 S. destruct S; intros E He; simplify_eq; cbn in He;
      simplify_eq; eauto. }
  intros H%detect_inv He. inversion H; subst; eauto. congruence.
Qed.

Lemma detect_error_messages_witness :
  "Clone detection failed: layout failed"%string = "Element not found"%string ∨
  "Clone detection failed: layout failed"%string = "No text content"%string ∨
  exists e, "Clone detection failed: layout failed"%string
            = ("Clone detection failed: " ++ message e)%string.
Proof.
  apply (detect_error_messages (Ref paragraph) None (page faulty)
           (failure "Clone detection failed: layout failed" 0)
           (detect (Ref paragraph) None (page faulty)).2).
  - apply run_eq. vm_compute. reflexivity.
  - reflexivity.
Defined.




(** X5.  With a non-empty override, what [detect] measures is the
    override: a result without error reports the override's length as
    [textLength], and the scratch node created for the call holds the
    override as its text, in the one Text node that is its child. *)
Theorem detect_measures_override t c s w r w' :
  detect t (Some (c :: s)) w = (Return r, w') ->
  error r = None ->
  textLength r = Some (length (c :: s)) ∧
  exists m n, (m ∉ dom (elements w)) ∧ (n ∉ dom (elements w)) ∧
    childNodes (elementAt w' m) = [n] ∧
    elements w' !! n = Some (mkElement false ∅ (c :: s) []).
Proof.
  intros H%detect_inv He. inversion H as [out w1 Ht S| | |]; subst; [|done..].
  inversion S; subst; try done.
  match goal with
  | Htt : testTextFor _ _ (Some (c :: s)) = Some _,
    HA : attachScratch _ _ _ = (Return ?m, _) |- _ =>
      unfold testTextFor, testTextOf in Htt; cbn [truthyText] in Htt;
      injection Htt as <-;
      destruct (attachScratch_attached _ _ _ _ _ HA) as [G _ Hm Hb _ T _];
      destruct (T ltac:(done)) as (n & Hn & Hnb & Hnm & Hx & Hc);
      split; [done|]; exists m, n; split; [done|]; split; [done|]
  end.
  rewrite elementAt_setAttached, lookup_setAttached by (by rewrite (grows_body _ _ G)).
  done.
Qed.

Lemma detect_measures_override_witness :
  Some 18%nat = Some (length (ascii_text "a much longer text")) ∧
  exists m n, (m ∉ dom (elements (page narrow))) ∧ (n ∉ dom (elements (page narrow))) ∧
    childNodes (elementAt (detect (Ref paragraph) (Some (ascii_text "a much longer text"))
                             (page narrow)).2 m) = [n] ∧
    elements (detect (Ref paragraph) (Some (ascii_text "a much longer text"))
                (page narrow)).2 !! n
    = Some (mkElement false ∅ (ascii_text "a much longer text") []).
Proof.
  apply (detect_measures_override (Ref paragraph) 97%N (ascii_text " much longer text")
           (page narrow)
           (mkResult true None
              (mkDetails (Some (Num (Z2num 504))) (Some (Num (Z2num 100)))
                 (Some (Z2num 100)) (Some (Z2num 404)) (Some 18%nat)) 0)
           (detect (Ref paragraph) (Some (ascii_text "a much longer text")) (page narrow)).2).
  - apply run_eq. vm_compute. reflexivity.
  - reflexivity.
Defined.

(** X6.  Text made of white space only is an error for the clone
    strategy and not for the range strategy: on an element with child nodes
    whose text is non-empty but blank (spaces, no-break spaces, line
    terminators and the like), [detectByClone] answers "No text content"
    while [detectByRange], and [detect] with it, return a measurement without
    error. *)
Theorem blank_text_range_measures_clone_refuses t w el tw cw cs :
  lookup w t = Return (Some el) ->
  textContent (host w) (document w) el ≠ [] ->
  trim (textContent (host w) (document w) el) = [] ->
  childNodes (elementAt w el) ≠ [] ->
  rangeReadings w el = inr (tw, cw, cs) ->
  detectByClone t None w = (Return (failure "No text content" (clock w)), w) ∧
  exists r, detectByRange t w = (Return r, w) ∧ error r = None ∧
            detect t None w = (Return r, w).
Proof.
  intros Hl Hne Hb Hc Hr. split.
  - eapply detectByClone_no_text; [done| |done].
    unfold testTextFor, testTextOf. cbn [truthyText].
    by destruct (textContent (host w) (document w) el).
  - rewrite (detectByRange_measured _ _ _ _ _ _ Hl Hc Hr).
    eexists. split; [done|]. split; [done|].
    unfold detect. cbn [truthyText]. unfold bind.
    by rewrite (detectByRange_measured _ _ _ _ _ _ Hl Hc Hr).
Qed.

Lemma blank_text_range_measures_clone_refuses_witness :
  detectByClone (Ref paragraph) None (blankPage narrow)
    = (Return (failure "No text content" (clock (blankPage narrow))), blankPage narrow) ∧
  exists r, detectByRange (Ref paragraph) (blankPage narrow) = (Return r, blankPage narrow) ∧
            error r = None ∧
            detect (Ref paragraph) None (blankPage narrow) = (Return r, blankPage narrow).
Proof.
  apply (blank_text_range_measures_clone_refuses (Ref paragraph) (blankPage narrow)
           paragraph (asDouble (Z2num 140)) (Num (Z2num 100))
           (mkComputedStyle (fun _ => "normal"%string)
              (Some (asDouble zero)) (Some (asDouble zero)))).
  - reflexivity.
  - discriminate.
  - reflexivity.
  - discriminate.
  - vm_compute. reflexivity.
Defined.

(** What [trim] strips: a text of white space only, whatever its length,
    trims to the empty string, and a no-break space counts as white space. *)
Lemma trim_blank s : forallb isWhiteSpace s = true -> trim s = [].
Proof.
  unfold trim. induction s as [|c s IH]; [done|]. cbn [forallb trimStart].
  intros [Hc Hs]%andb_true_iff. rewrite Hc. by apply IH.
Qed.

(** ** What is written to the scratch node *)

Lemma foldl_insert_lookup (f : string -> string) props (st : gmap string string) q :
  foldl (fun acc prop => <[prop := f prop]> acc) st props !! q =
  if decide (q ∈ props) then Some (f q) else st !! q.
Proof.
  revert st. induction props as [|p props IH]; intros st; cbn [foldl].
  - rewrite decide_False; [done|]. by intros ?%elem_of_nil.
  - rewrite IH. destruct (decide (q ∈ props)) as [Hin|Hout].
    + by rewrite decide_True by (apply elem_of_cons; auto).
    + destruct (decide (q = p)) as [->|Hne].
      * rewrite decide_True by (apply elem_of_cons; auto). by rewrite lookup_insert_eq.
      * rewrite decide_False by (intros [?|?]%elem_of_cons; done).
        by rewrite lookup_insert_ne.
Qed.

Lemma forEach_setStyle_exact x (f : string -> string) props w :
  exists w', forEach (fun prop => setStyle x prop (f prop)) props w = (Return tt, w') ∧
    writesAt x w w' ∧
    (props ≠ [] ->
     elements w' !! x =
       Some (mkElement (isHTMLElement (elementAt w x))
               (foldl (fun acc prop => <[prop := f prop]> acc) (style (elementAt w x)) props)
               (data (elementAt w x)) (childNodes (elementAt w x)))).
Proof.
  revert w. induction props as [|p props IH]; intros w.
  - exists w. split; [done|]. split; [apply writesAt_refl | done].
  - set (w1 := setElements
                 (insert x (mkElement (isHTMLElement (elementAt w x))
                              (<[p := f p]> (style (elementAt w x)))
                              (data (elementAt w x)) (childNodes (elementAt w x)))) w).
    change (forEach (fun prop => setStyle x prop (f prop)) (p :: props) w)
      with (forEach (fun prop => setStyle x prop (f prop)) props w1).
    destruct props as [|p' props'].
    + exists w1. split; [done|]. split; [apply writesAt_update|].
      intros _. subst w1. cbn. by rewrite lookup_insert_eq.
    + destruct (IH w1) as (w' & -> & W & Hx). exists w'. split; [done|]. split.
      { eapply writesAt_trans; [apply writesAt_update | exact W]. }
      intros _. rewrite Hx by done. subst w1. by rewrite elementAt_insert.
Qed.

Lemma copyTextStyles_exact source target w :
  match getComputedStyle (host w) (document w) source with
  | inl e => _copyTextStyles source target w = (Throw e, w)
  | inr cs =>
      exists w',
        _copyTextStyles source target w = (Return tt, w') ∧
        writesAt target w w' ∧
        elements w' !! target =
          Some (mkElement (isHTMLElement (elementAt w target))
                  (copiedStyle cs (style (elementAt w target)))
                  (data (elementAt w target)) (childNodes (elementAt w target))) ∧
        (forall prop, prop ∈ textStyleProps ->
           style (elementAt w' target) !! prop = Some (property cs prop)) ∧
        (forall prop, prop ∉ textStyleProps ->
           style (elementAt w' target) !! prop = style (elementAt w target) !! prop)
  end.
Proof.
  unfold _copyTextStyles, bind, window_getComputedStyle, query.
  destruct (getComputedStyle (host w) (document w) source) as [e|cs]; [done|].
  destruct (forEach_setStyle_exact target (property cs) textStyleProps w)
    as (w' & -> & W & Hx).
  specialize (Hx ltac:(discriminate)).
  exists w'. split; [done|]. split; [done|]. split; [exact Hx|].
  assert (style (elementAt w' target) = copiedStyle cs (style (elementAt w target))) as E.
  { unfold elementAt at 1. by rewrite Hx. }
  rewrite E. unfold copiedStyle.
  split; intros prop Hp; rewrite foldl_insert_lookup.
  - by rewrite decide_True.
  - by rewrite decide_False.
Qed.

(** X7.  [_copyTextStyles(source, target)] reads the computed style of
    [source] and writes exactly seven inline declarations on [target]: the
    font family, size, weight and style, the letter and word spacing and the
    text transform, each with the computed value.  Every other declaration of
    [target], its children and every other node stay as they were.  If the
    style query throws, nothing is written. *)
Theorem copyTextStyles_copies_text_properties source target w :
  match getComputedStyle (host w) (document w) source with
  | inl e => _copyTextStyles source target w = (Throw e, w)
  | inr cs =>
      exists w',
        _copyTextStyles source target w = (Return tt, w') ∧
        writesAt target w w' ∧
        elements w' !! target =
          Some (mkElement (isHTMLElement (elementAt w target))
                  (copiedStyle cs (style (elementAt w target)))
                  (data (elementAt w target)) (childNodes (elementAt w target))) ∧
        (forall prop, prop ∈ textStyleProps ->
           style (elementAt w' target) !! prop = Some (property cs prop)) ∧
        (forall prop, prop ∉ textStyleProps ->
           style (elementAt w' target) !! prop = style (elementAt w target) !! prop)
  end.
Proof. exact (copyTextStyles_exact source target w). Qed.

Lemma getMeasureElement_exact w :
  exists t m w',
    _getMeasureElement w = (Return m, w') ∧
    measureElement w' = Some t ∧
    (m ∉ dom (elements w)) ∧
    attached w' = attached w ∧
    elements w' !! m =
      Some (mkElement (isHTMLElement (templateOf w)) (style (templateOf w)) (data (templateOf w)) []) ∧
    match measureElement w with
    | Some t0 => t = t0 ∧ elements w' = <[m := mkElement (isHTMLElement (templateOf w))
                                              (style (templateOf w)) (data (templateOf w)) []]>
                                         (elements w)
    | None =>
        (t ∉ dom (elements w)) ∧ t ≠ m ∧
        elements w' !! t = Some (templateOf w) ∧
        forall n, n ≠ t -> n ≠ m -> elements w' !! n = elements w !! n
    end.
Proof.
  assert (wp _getMeasureElement
            (fun out w' => exists t m,
               out = Return m ∧ measureElement w' = Some t ∧
               (m ∉ dom (elements w)) ∧ attached w' = attached w ∧
               elements w' !! m =
                 Some (mkElement (isHTMLElement (templateOf w)) (style (templateOf w))
                         (data (templateOf w)) []) ∧
               match measureElement w with
               | Some t0 => t = t0 ∧
                   elements w' = <[m := mkElement (isHTMLElement (templateOf w))
                                          (style (templateOf w)) (data (templateOf w)) []]>
                                   (elements w)
               | None =>
                   (t ∉ dom (elements w)) ∧ t ≠ m ∧
                   elements w' !! t = Some (templateOf w) ∧
                   forall n, n ≠ t -> n ≠ m -> elements w' !! n = elements w !! n
               end) w) as H.
  { unfold _getMeasureElement, templateOf. apply wp_bind, wp_get.
    destruct (measureElement w) as [t0|] eqn:Ht.
    - apply wp_bind, wp_ret, wp_cloneNode. intros m Hm Hb _. exists t0, m. cbn.
      split_and!; try done.
      + unfold attached. cbn [body setElements]. by rewrite elementAt_insert_ne by congruence.
      + by rewrite lookup_insert_eq.
    - apply wp_bind, wp_bind, wp_createElement. intros t Hfresh Htb _.
      apply wp_bind, wp_modify, wp_bind. unfold setCssText. apply wp_updateElement, wp_ret.
      match goal with |- wp _ _ ?W => set (w1 := W) end.
      assert (elements w1 !! t = Some (mkElement true (list_to_map templateCss) [] [])) as Ht1.
      { subst w1. cbn -[templateCss]. rewrite lookup_insert_eq.
        unfold elementAt. cbn -[templateCss]. by rewrite lookup_insert_eq. }
      assert (forall n, n ≠ t -> elements w1 !! n = elements w !! n) as Hn1.
      { intros n Hn. subst w1. cbn -[templateCss]. by rewrite !lookup_insert_ne. }
      assert (measureElement w1 = Some t ∧ body w1 = body w) as [Hme Hbw] by done.
      assert (attached w1 = attached w) as Hat.
      { unfold attached, elementAt. rewrite Hbw, Hn1; [done|congruence]. }
      clearbody w1. apply wp_cloneNode. intros m Hm Hmb _.
      assert (m ≠ t) as Hne.
      { intros ->. apply Hm, elem_of_dom. eauto. }
      assert (elementAt w1 t = mkElement true (list_to_map templateCss) [] []) as Et
        by (unfold elementAt; by rewrite Ht1).
      exists t, m. cbn -[templateCss]. rewrite !Et.
      cbn -[templateCss]. split_and!; try done.
      + intros Hin. apply Hm. apply elem_of_dom. rewrite Hn1 by done. by apply elem_of_dom.
      + unfold attached. cbn [body setElements].
        rewrite elementAt_insert_ne by congruence. exact Hat.
      + by rewrite lookup_insert_eq.
      + by rewrite lookup_insert_ne.
      + intros n Hnt Hnm. rewrite lookup_insert_ne by done. by apply Hn1. }
  unfold wp in H. destruct (_getMeasureElement w) as [out w']. cbn [fst snd] in H.
  destruct H as (t & m & -> & H). by exists t, m, w'.
Qed.

(** X8.  [_getMeasureElement] never raises and returns a new node each
    time, a copy of the template with the template's inline style and no
    text, detached.  The template is created only when none is cached, with
    the six hiding declarations, and is cached; a cached template is reused
    and left as it is. *)
Theorem getMeasureElement_clones_template w :
  exists t m w',
    _getMeasureElement w = (Return m, w') ∧
    measureElement w' = Some t ∧
    (m ∉ dom (elements w)) ∧
    attached w' = attached w ∧
    elements w' !! m =
      Some (mkElement (isHTMLElement (templateOf w)) (style (templateOf w)) (data (templateOf w)) []) ∧
    match measureElement w with
    | Some t0 => t = t0 ∧ elements w' = <[m := mkElement (isHTMLElement (templateOf w))
                                              (style (templateOf w)) (data (templateOf w)) []]>
                                         (elements w)
    | None =>
        (t ∉ dom (elements w)) ∧ t ≠ m ∧
        elements w' !! t = Some (templateOf w) ∧
        forall n, n ≠ t -> n ≠ m -> elements w' !! n = elements w !! n
    end.
Proof. exact (getMeasureElement_exact w). Qed.

(** The scratch node as [attachScratch] leaves it. *)
Lemma attachScratch_exact el testText w m w4 :
  testText ≠ [] ->
  attachScratch el testText w = (Return m, w4) ->
  exists cs n,
    getComputedStyle (host w) (document (_getMeasureElement w).2) el = inr cs ∧
    (n ∉ dom (elements w)) ∧ n ≠ body w ∧
    elements w4 !! m =
      Some (mkElement (isHTMLElement (templateOf w))
              (copiedStyle cs (style (templateOf w))) (data (templateOf w)) [n]) ∧
    elements w4 !! n = Some (mkElement false ∅ testText []).
Proof.
  intros Hne H.
  destruct (attachScratch_attached _ _ _ _ _ H) as [_ _ Hmf Hmb _ _ _].
  unfold attachScratch, bind in H.
  destruct (getMeasureElement_exact w) as (tmpl & m0 & w1 & E & _ & Hm & _ & Hclone & _).
  rewrite E in H. rewrite E. cbn [snd].
  assert (grows w w1) as G1.
  { apply (wp_elim _ (fun _ w1 => grows w w1) _ _ _ E).
    apply wp_getMeasureElement. auto. }
  pose proof (copyTextStyles_exact el m0 w1) as Hcopy.
  rewrite (grows_host _ _ G1) in Hcopy.
  destruct (getComputedStyle (host w) (document w1) el) as [e|cs] eqn:Hcs.
  { rewrite Hcopy in H. discriminate. }
  destruct Hcopy as (w2 & E2 & W2 & Hx & _). rewrite E2 in H.
  unfold elementAt in Hx. rewrite Hclone in Hx. cbn [default from_option id] in Hx.
  cbn [isHTMLElement style data childNodes] in Hx.
  destruct testText as [|c s]; [done|].
  unfold setTextContent in H. cbn [isEmpty] in H.
  unfold bind, createTextNode, updateElement, body_appendChild, modify, ret in H.
  injection H as <- <-.
  assert (m0 ≠ body w) as Hb0 by done.
  assert (grows w w2) as G2 by (by eapply writesAt_grows).
  destruct (newNode_fresh w w2 G2) as [Hn Hnb].
  assert (newNode w2 ≠ m0) as Hnm.
  { intros En. apply (is_fresh (nodes w2)). fold (newNode w2). rewrite En.
    unfold nodes. apply elem_of_union_l, elem_of_union_r, elem_of_dom. eauto. }
  exists cs, (newNode w2). split; [done|]. split; [done|]. split; [done|].
  assert (body w2 = body w) as Hb2 by apply G2.
  split.
  - rewrite lookup_setAttached by (cbn [body setElements]; congruence).
    cbn [elements setElements]. rewrite lookup_insert_eq.
    rewrite elementAt_insert_ne by done. unfold elementAt. by rewrite Hx.
  - rewrite lookup_setAttached by (cbn [body setElements]; congruence).
    cbn [elements setElements]. rewrite lookup_insert_ne by done.
    by rewrite lookup_insert_eq.
Qed.

Lemma trim_nonempty s : trim s ≠ [] -> s ≠ [].
Proof. by intros H ->. Qed.

(** X9.  What the clone strategy measures.  When [detectByClone] returns
    a result without error, the scratch node it created and measured is a
    copy of the template that holds the text under test, in a new Text node
    that is its one child, and carries the target's seven computed text
    properties (as computed once the scratch node exists) over the
    template's inline style; when the template was created by this very
    call, the six hiding declarations (absolute, hidden, nowrap, far
    off-screen, no pointer events) are all on the scratch node. *)
Theorem detectByClone_scratch_node t text w r w' :
  detectByClone t text w = (Return r, w') ->
  error r = None ->
  exists el testText cs m n,
    lookup w t = Return (Some el) ∧
    testTextFor w el text = Some testText ∧
    getComputedStyle (host w) (document (_getMeasureElement w).2) el = inr cs ∧
    (m ∉ dom (elements w)) ∧ (n ∉ dom (elements w)) ∧
    elements w' !! m =
      Some (mkElement (isHTMLElement (templateOf w))
              (copiedStyle cs (style (templateOf w))) (data (templateOf w)) [n]) ∧
    elements w' !! n = Some (mkElement false ∅ testText []) ∧
    (forall prop, prop ∈ textStyleProps ->
       style (elementAt w' m) !! prop = Some (property cs prop)) ∧
    (measureElement w = None ->
     forall decl value, (decl, value) ∈ templateCss ->
       style (elementAt w' m) !! decl = Some value).
Proof.
  intros S%detectByClone_inv He.
  inversion S as [| | | | | |el testText tw cw cs m w4 Hl Htt Htr HA Hrd]; subst; try done.
  destruct (attachScratch_exact _ _ _ _ _ (trim_nonempty _ Htr) HA)
    as (cs0 & n & Hcs & Hn & Hnb & Hx & Hxn).
  destruct (attachScratch_attached _ _ _ _ _ HA) as [G _ Hm Hmb _ _ _].
  assert (elements (setAttached (remove m) w4) !! m =
            Some (mkElement (isHTMLElement (templateOf w))
                    (copiedStyle cs0 (style (templateOf w))) (data (templateOf w)) [n]))
    as Hx' by (rewrite lookup_setAttached; [done | by rewrite (grows_body _ _ G)]).
  assert (elements (setAttached (remove m) w4) !! n =
            Some (mkElement false ∅ testText []))
    as Hxn' by (rewrite lookup_setAttached; [done | by rewrite (grows_body _ _ G)]).
  assert (style (elementAt (setAttached (remove m) w4) m)
          = copiedStyle cs0 (style (templateOf w))) as Es
    by (unfold elementAt; by rewrite Hx').
  exists el, testText, cs0, m, n.
  split_and!; try done.
  - intros prop Hp. rewrite Es. unfold copiedStyle.
    rewrite foldl_insert_lookup. by rewrite decide_True.
  - intros Hnone decl value Hd. rewrite Es.
    unfold copiedStyle, templateOf. rewrite Hnone. cbn [style].
    rewrite foldl_insert_lookup.
    unfold templateCss in *.
    repeat (apply elem_of_cons in Hd as [Hd|Hd];
            [injection Hd as -> ->; vm_compute; reflexivity|]).
    by apply elem_of_nil in Hd.
Qed.

Lemma detectByClone_scratch_node_witness :
  exists el testText cs m n,
    lookup (page narrow) (Ref paragraph) = Return (Some el) ∧
    testTextFor (page narrow) el None = Some testText ∧
    getComputedStyle (host (page narrow))
      (document (_getMeasureElement (page narrow)).2) el = inr cs ∧
    (m ∉ dom (elements (page narrow))) ∧ (n ∉ dom (elements (page narrow))) ∧
    elements (detectByClone (Ref paragraph) None (page narrow)).2 !! m =
      Some (mkElement (isHTMLElement (templateOf (page narrow)))
              (copiedStyle cs (style (templateOf (page narrow))))
              (data (templateOf (page narrow))) [n]) ∧
    elements (detectByClone (Ref paragraph) None (page narrow)).2 !! n =
      Some (mkElement false ∅ testText []) ∧
    (forall prop, prop ∈ textStyleProps ->
       style (elementAt (detectByClone (Ref paragraph) None (page narrow)).2 m) !! prop
       = Some (property cs prop)) ∧
    (measureElement (page narrow) = None ->
     forall decl value, (decl, value) ∈ templateCss ->
       style (elementAt (detectByClone (Ref paragraph) None (page narrow)).2 m) !! decl
       = Some value).
Proof.
  apply (detectByClone_scratch_node (Ref paragraph) None (page narrow)
           (mkResult true None
              (mkDetails (Some (Num (Z2num 140))) (Some (Num (Z2num 100)))
                 (Some (Z2num 100)) (Some (Z2num 40)) (Some 5%nat)) 0)).
  - apply run_eq. vm_compute. reflexivity.
  - reflexivity.
Defined.

(** X10.  The template is created once and then reused: a template that
    is cached before a call of [detect] is the cached template after it,
    unchanged (the body's child list aside, should the template be the body
    itself), and if it was not in the document it is not in it afterwards:
    the detector only ever attaches clones.  When none is cached, the one a
    call may leave cached is a node created by that call. *)
Theorem detect_keeps_template t text w out w' :
  detect t text w = (out, w') ->
  match measureElement w with
  | Some t0 =>
      measureElement w' = Some t0 ∧
      (t0 ∈ dom (elements w) -> t0 ≠ body w -> elements w' !! t0 = elements w !! t0) ∧
      (t0 ∉ attached w -> t0 ∉ attached w')
  | None => forall t1, measureElement w' = Some t1 -> t1 ∉ dom (elements w)
  end.
Proof.
  intros Hrun.
  assert (w' = w ∨ exists text1, CloneSpec w t text1 out w') as [Hw|[text1 S]].
  { apply detect_inv in Hrun. inversion Hrun; subst; eauto. }
  { rewrite Hw. destruct (measureElement w) as [t0|] eqn:E; [done|].
    intros t1 H. congruence. }
  assert (match measureElement w with
          | Some t0 => measureElement w' = Some t0 ∧ (t0 ∉ attached w -> t0 ∉ attached w')
          | None => forall t1, measureElement w' = Some t1 -> t1 ∉ dom (elements w)
          end) as H.
  { inversion S as [e0 Hl Ho Hw|Hl Ho Hw|el Hl Htt Ho Hw|el testText Hl Htt Htr Ho Hw
                    |el testText e0 w1 Hl Htt Htr HA Ho Hw
                    |el testText e0 m w4 Hl Htt Htr HA Hr Ho Hw
                    |el testText tw cw cs m w4 Hl Htt Htr HA Hr Ho Hw]; clear S.
    1-4: rewrite <- Hw; destruct (measureElement w) as [t0|] eqn:E; [done|];
         intros t1 H; congruence.
    - destruct (attachScratch_dropped _ _ _ _ _ HA) as [_ _ (tmpl & Hm & Ht) Ha].
      rewrite measureElement_detachTemplate, attached_detachTemplate, Hm, Ha.
      destruct (measureElement w) as [t0|]; [subst tmpl|].
      + split; [done|]. rewrite elem_of_remove. tauto.
      + intros t1 ?. simplify_eq. tauto.
    - destruct (attachScratch_attached _ _ _ _ _ HA)
        as [_ _ _ _ (tmpl & Hm & Hne & Ht) _ Ha].
      rewrite measureElement_detachTemplate, attached_detachTemplate, Hm, Ha.
      destruct (measureElement w) as [t0|]; [subst tmpl|].
      + split; [done|]. rewrite elem_of_remove. tauto.
      + intros t1 ?. simplify_eq. tauto.
    - destruct (attachScratch_attached _ _ _ _ _ HA)
        as [_ _ _ _ (tmpl & Hm & Hne & Ht) _ Ha].
      rewrite attached_setAttached, Ha, remove_append.
      change (measureElement (setAttached (remove m) w4)) with (measureElement w4).
      rewrite Hm. destruct (measureElement w) as [t0|]; [subst tmpl|].
      + split; [done|]. rewrite elem_of_remove. tauto.
      + intros t1 ?. simplify_eq. tauto. }
  destruct (measureElement w) as [t0|] eqn:E; [|done].
  destruct H as [H1 H2]. split; [done|]. split; [|done].
  intros [e0 He0]%elem_of_dom Hb. rewrite He0.
  by apply (grows_elements _ _ (CloneSpec_grows _ _ _ _ _ S)).
Qed.

Lemma detect_keeps_template_witness :
  match measureElement (detect (Ref paragraph) (Some (ascii_text "x")) (page narrow)).2 with
  | Some t0 =>
      measureElement
        (detect (Ref paragraph) (Some (ascii_text "y"))
           (detect (Ref paragraph) (Some (ascii_text "x")) (page narrow)).2).2 = Some t0 ∧
      (t0 ∈ dom (elements (detect (Ref paragraph) (Some (ascii_text "x")) (page narrow)).2) ->
       t0 ≠ body (detect (Ref paragraph) (Some (ascii_text "x")) (page narrow)).2 ->
       elements
         (detect (Ref paragraph) (Some (ascii_text "y"))
            (detect (Ref paragraph) (Some (ascii_text "x")) (page narrow)).2).2 !! t0
       = elements (detect (Ref paragraph) (Some (ascii_text "x")) (page narrow)).2 !! t0) ∧
      (t0 ∉ attached (detect (Ref paragraph) (Some (ascii_text "x")) (page narrow)).2 ->
       t0 ∉ attached
              (detect (Ref paragraph) (Some (ascii_text "y"))
                 (detect (Ref paragraph) (Some (ascii_text "x")) (page narrow)).2).2)
  | None => forall t1,
      measureElement
        (detect (Ref paragraph) (Some (ascii_text "y"))
           (detect (Ref paragraph) (Some (ascii_text "x")) (page narrow)).2).2 = Some t1 ->
      t1 ∉ dom (elements (detect (Ref paragraph) (Some (ascii_text "x")) (page narrow)).2)
  end.
Proof.
  apply (detect_keeps_template (Ref paragraph) (Some (ascii_text "y"))
           (detect (Ref paragraph) (Some (ascii_text "x")) (page narrow)).2
           (detect (Ref paragraph) (Some (ascii_text "y"))
              (detect (Ref paragraph) (Some (ascii_text "x")) (page narrow)).2).1).
  by destruct (detect (Ref paragraph) (Some (ascii_text "y")) _).
Defined.

(** * Further properties of subscriptions *)

Lemma elapse_due_detect ms o w id due :
  timers o = [(id, due)] -> due <= clock w + Z.max 0 ms ->
  exists r w',
    detect (Ref (element o)) None (setClock (Z.max (clock w) due) w) = (Return r, w') ∧
    elapse ms (o, w) =
      (mkObservation (element o) (delay o) (timeoutId o) [] (nextTimer o)
         (connected o) (calls o ++ [(r, element o)]),
       setClock (clock w + Z.max 0 ms) w').
Proof.
  intros H Hle. unfold elapse. rewrite H.
  rewrite filter_cons, decide_True by (cbn; by apply bool_decide_pack).
  rewrite filter_nil. cbn [sortByDue foldr insertByDue fold_left fire snd fst].
  rewrite H, filter_cons, decide_False by (cbn; tauto). rewrite filter_nil.
  unfold onTimeout, bind. cbn [element].
  destruct (detect_returns (Ref (element o)) None (setClock (Z.max (clock w) due) w)
              (resolves_Ref _ _)) as (r & w' & Hd).
  exists r, w'. rewrite Hd. done.
Qed.

(** What one event does to a subscription: either the callback is not
    invoked, or the one pending timeout fell due and the callback got the
    result of [detect] on the subscribed element at that time. *)
Lemma step_cases o w e :
  single o ->
  exists o' w',
    step (o, w) e = (o', w') ∧ single o' ∧
    element o' = element o ∧ delay o' = delay o ∧
    ((calls o' = calls o ∧ host w' = host w ∧ elements w' = elements w ∧
      body w' = body w ∧ clock w <= clock w' ∧
      (timers o' = timers o ∨
       exists id, timers o' = [(id, clock w + timeoutDelay (delay o))] ∧ clock w' = clock w))
     ∨
     (exists id due r wd,
        timers o = [(id, due)] ∧ timers o' = [] ∧
        detect (Ref (element o)) None (setClock (Z.max (clock w) due) w) = (Return r, wd) ∧
        calls o' = calls o ++ [(r, element o)] ∧
        host w' = host w ∧ elements w' = elements wd ∧ body w' = body w ∧
        Z.max (clock w) due <= clock w')).
Proof.
  intros Hs. destruct e as [|ms|]; cbn [step fst snd].
  - destruct (connected o) eqn:Hc.
    + destruct (debouncedCallback_single o w Hs) as (o' & -> & Ht & Hid & Hcalls & _ & He & Hd).
      exists o', w. split; [done|]. split; [right; eauto|]. split; [done|]. split; [done|].
      left. split_and!; try done; try lia. right. eauto.
    + exists o, w. split; [done|]. split; [done|]. split; [done|]. split; [done|].
      left. split_and!; try done; try lia; by left.
  - destruct Hs as [H|(id & due & H & Hid)].
    + rewrite (elapse_idle _ _ _ H). eexists _, _. split; [done|].
      split; [by left|]. split; [done|]. split; [done|].
      left. cbn. split_and!; try done; try lia; by left.
    + destruct (decide (due <= clock w + Z.max 0 ms)) as [Hle|Hgt].
      * destruct (elapse_due_detect ms o w id due H Hle) as (r & wd & Hd & ->).
        eexists _, _. split; [done|]. cbn.
        split; [by left|]. split; [done|]. split; [done|].
        right. exists id, due, r, wd.
        pose proof (detect_grows _ _ _ _ _ Hd) as G.
        split_and!; try done.
        -- by rewrite (grows_host _ _ G).
        -- by rewrite (grows_body _ _ G).
        -- lia.
      * rewrite (elapse_early ms o w id due H) by lia. eexists _, _. split; [done|].
        split; [right; eauto|]. split; [done|]. split; [done|].
        left. cbn. split_and!; try done; try lia; by left.
  - exists (disconnect o), w. split; [done|]. split; [done|]. split; [done|]. split; [done|].
    left. split_and!; try done; try lia; by left.
Qed.

Lemma run_calls_element evs s :
  single s.1 ->
  Forall (fun c => c.2 = element s.1) (calls s.1) ->
  Forall (fun c => c.2 = element s.1) (calls (run evs s).1).
Proof.
  revert s. induction evs as [|e evs IH]; intros [o w] Hs Hc; [done|].
  cbn [run fold_left fst snd] in *.
  destruct (step_cases o w e Hs) as (o' & w' & -> & Hs' & He & _ & Hcases).
  specialize (IH (o', w') Hs'). cbn [fst snd] in IH. unfold run in IH.
  rewrite He in IH. apply IH.
  destruct Hcases as [(-> & _)|(id & due & r & wd & _ & _ & _ & -> & _)]; [done|].
  apply Forall_app. split; [done|]. by apply Forall_singleton.
Qed.

(** X11.  Timeouts never stack: whatever happens to a subscription
    (mutations, time passing, cancellation, in any order), at most one
    timeout is pending, and every invocation of the callback is for the
    element resolved at subscription time. *)
Theorem timeouts_never_stack target options w o w1 events :
  observe target options w = (Return o, w1) ->
  (length (timers (run events (o, w1)).1) <= 1)%nat ∧
  Forall (fun c => c.2 = element o) (calls (run events (o, w1)).1).
Proof.
  intros Hobs.
  destruct (observe_inv _ _ _ _ _ Hobs) as (-> & _ & _ & _ & Hcalls & Hs & _).
  split.
  - by apply single_length, run_single.
  - apply (run_calls_element events (o, w)); [done|]. cbn. by rewrite Hcalls.
Qed.

Lemma timeouts_never_stack_witness :
  exists o,
    observe (Ref paragraph) (mkOptions None None) (page narrow) = (Return o, page narrow) ∧
    (length (timers (run [Mutation; Mutation; Elapse 30; Mutation] (o, page narrow)).1) <= 1)%nat.
Proof.
  exists (mkObservation paragraph 100 (Some 0%nat) [(0%nat, 100)] 1 true []).
  assert (observe (Ref paragraph) (mkOptions None None) (page narrow)
          = (Return (mkObservation paragraph 100 (Some 0%nat) [(0%nat, 100)] 1 true []),
             page narrow)) as Hobs.
  { apply observe_eq. vm_compute. reflexivity. }
  split; [exact Hobs|].
  exact (proj1 (timeouts_never_stack _ _ _ _ _ [Mutation; Mutation; Elapse 30; Mutation] Hobs)).
Defined.

Lemma run_foreign_element evs o w e :
  single o ->
  elements w !! element o = Some e -> isHTMLElement e = false ->
  Forall (fun c => c.1 = failure "Element not found" (timestamp c.1)) (calls o) ->
  Forall (fun c => c.1 = failure "Element not found" (timestamp c.1))
    (calls (run evs (o, w)).1).
Proof.
  revert o w. induction evs as [|ev evs IH]; intros o w Hs Hel Hh Hc; [done|].
  cbn [run fold_left].
  destruct (step_cases o w ev Hs) as (o' & w' & -> & Hs' & He & _ & Hcases).
  destruct Hcases as [(Hcalls & _ & Hels & _)
                     |(id & due & r & wd & _ & _ & Hd & Hcalls & _ & Hels & _)].
  - apply (IH o' w' Hs'); [by rewrite He, Hels | done | by rewrite Hcalls].
  - assert (lookup (setClock (Z.max (clock w) due) w) (Ref (element o)) = Return None) as Hl.
    { unfold lookup. cbn. by rewrite Hel, Hh. }
    rewrite (detect_not_found _ None _ Hl) in Hd. simplify_eq.
    apply (IH o' _ Hs'); [by rewrite He, Hels | done |].
    rewrite Hcalls. apply Forall_app. split; [done|]. by apply Forall_singleton.
Qed.

(** X12.  [observe] accepts whatever element a selector finds, but its
    callbacks run [detect] on the element itself, which [_getElement] only
    lets through when it is an HTMLElement.  A subscription on an element
    that is not one is set up without complaint and then reports
    "Element not found" on every invocation of the callback. *)
Theorem observe_foreign_element target options w o w1 e events :
  observe target options w = (Return o, w1) ->
  elements w !! element o = Some e ->
  isHTMLElement e = false ->
  Forall (fun c => c.1 = failure "Element not found" (timestamp c.1))
    (calls (run events (o, w1)).1).
Proof.
  intros Hobs Hel Hh.
  destruct (observe_inv _ _ _ _ _ Hobs) as (-> & _ & _ & _ & Hcalls & Hs & _).
  eapply run_foreign_element; eauto. by rewrite Hcalls.
Qed.

Lemma observe_foreign_element_witness :
  exists o,
    observe (Selector "svg") (mkOptions None None) gallery = (Return o, gallery) ∧
    Forall (fun c => c.1 = failure "Element not found" (timestamp c.1))
      (calls (run [Elapse 100; Mutation; Elapse 100] (o, gallery)).1).
Proof.
  exists (mkObservation drawing 100 (Some 0%nat) [(0%nat, 100)] 1 true []).
  assert (observe (Selector "svg") (mkOptions None None) gallery
          = (Return (mkObservation drawing 100 (Some 0%nat) [(0%nat, 100)] 1 true []),
             gallery)) as Hobs.
  { apply observe_eq. vm_compute. reflexivity. }
  split; [exact Hobs|].
  apply (observe_foreign_element _ _ _ _ _ (mkElement false ∅ [] []) _ Hobs).
  - vm_compute. reflexivity.
  - reflexivity.
Defined.

Lemma StronglySorted_snoc (l : list Z) x :
  StronglySorted Z.le l -> Forall (fun y => y <= x) l -> StronglySorted Z.le (l ++ [x]).
Proof.
  induction 1 as [|y l Hl IH Hy]; intros Hx; cbn.
  - repeat constructor.
  - apply Forall_cons in Hx as [Hyx Hx]. constructor; [by apply IH|].
    apply Forall_app. split; [done|]. by apply Forall_singleton.
Qed.

Lemma timeoutDelay_nonneg ms : 0 <= timeoutDelay ms.
Proof. unfold timeoutDelay. lia. Qed.

Lemma timeoutDelay_long ms : 0 <= ms < 2 ^ 31 -> timeoutDelay ms = ms.
Proof.
  intros H. unfold timeoutDelay, toInt32.
  rewrite Z.mod_small by lia. lia.
Qed.

Lemma run_timing evs o w t0 :
  single o ->
  (forall id due, timers o = [(id, due)] -> t0 <= due) ->
  t0 <= clock w + timeoutDelay (delay o) ->
  Forall (fun c => t0 <= timestamp c.1 <= clock w) (calls o) ->
  StronglySorted Z.le (callTimes o) ->
  Forall (fun c => t0 <= timestamp c.1) (calls (run evs (o, w)).1) ∧
  StronglySorted Z.le (callTimes (run evs (o, w)).1).
Proof.
  revert o w. induction evs as [|ev evs IH]; intros o w Hs Hdue Hnow Hc Hsorted.
  { split; [|done]. eapply Forall_impl; [exact Hc|]. cbn. intros c ?. lia. }
  cbn [run fold_left].
  destruct (step_cases o w ev Hs) as (o' & w' & -> & Hs' & He & Hd & Hcases).
  destruct Hcases as [(Hcalls & _ & _ & _ & Hclock & Ht)
                     |(id & due & r & wd & Ht & Ht' & Hdet & Hcalls & _ & _ & _ & Hclock)].
  - apply (IH o' w' Hs').
    + intros id due Ho'. destruct Ht as [Ht|(id' & Ht & _)].
      * apply (Hdue id). by rewrite <- Ht.
      * rewrite Ht in Ho'. simplify_eq. done.
    + rewrite Hd. lia.
    + rewrite Hcalls. eapply Forall_impl; [exact Hc|]. cbn. intros c ?. lia.
    + unfold callTimes. by rewrite Hcalls.
  - pose proof (Hdue _ _ Ht) as Hdue'.
    destruct (detect_wellFormed _ _ _ _ _ Hdet) as [_ Hstamp]. cbn in Hstamp.
    pose proof (timeoutDelay_nonneg (delay o)) as Hnn.
    apply (IH o' w' Hs').
    + intros id' due' Ho'. by rewrite Ht' in Ho'.
    + rewrite Hd. lia.
    + rewrite Hcalls. apply Forall_app. split.
      * eapply Forall_impl; [exact Hc|]. cbn. intros c ?. lia.
      * apply Forall_singleton. cbn. lia.
    + unfold callTimes. rewrite Hcalls, map_app. cbn.
      apply StronglySorted_snoc; [done|].
      apply Forall_map. eapply Forall_impl; [exact Hc|]. cbn. intros c ?. lia.
Qed.

(** X13.  The callback is never early: every result handed to it is
    stamped at least the timeout's delay after the subscription, and the
    results arrive in the order of their stamps.  The delay is [debounce] as
    [setTimeout] takes it: converted to a 32-bit signed integer, and 0 when
    that is negative; for a [debounce] from 0 to 2^31 - 1 it is [debounce]
    itself. *)
Theorem callbacks_never_early target options w o w1 events :
  observe target options w = (Return o, w1) ->
  Forall (fun c => clock w + timeoutDelay (default 100 (debounce options)) <= timestamp c.1)
    (calls (run events (o, w1)).1) ∧
  StronglySorted Z.le (callTimes (run events (o, w1)).1) ∧
  (0 <= default 100 (debounce options) < 2 ^ 31 ->
   timeoutDelay (default 100 (debounce options)) = default 100 (debounce options)).
Proof.
  intros Hobs.
  destruct (observe_inv _ _ _ _ _ Hobs) as (-> & _ & Hd & _ & Hcalls & Hs & Ht).
  cut (Forall (fun c => clock w + timeoutDelay (default 100 (debounce options))
                         <= timestamp c.1) (calls (run events (o, w)).1) ∧
       StronglySorted Z.le (callTimes (run events (o, w)).1)).
  { intros [H1 H2]. split; [done|]. split; [done|]. apply timeoutDelay_long. }
  apply run_timing; try done.
  - intros id due Ho. rewrite Ho in Ht.
    destruct (default true (immediate options)); by simplify_eq.
  - rewrite Hd. lia.
  - by rewrite Hcalls.
  - unfold callTimes. rewrite Hcalls. constructor.
Qed.

Lemma callbacks_never_early_witness :
  exists o,
    observe (Ref paragraph) (mkOptions None (Some 40)) (page narrow)
      = (Return o, page narrow) ∧
    Forall (fun c => 0 + timeoutDelay 40 <= timestamp c.1)
      (calls (run [Elapse 50; Mutation; Elapse 10; Mutation; Elapse 90] (o, page narrow)).1).
Proof.
  exists (mkObservation paragraph 40 (Some 0%nat) [(0%nat, 40)] 1 true []).
  assert (observe (Ref paragraph) (mkOptions None (Some 40)) (page narrow)
          = (Return (mkObservation paragraph 40 (Some 0%nat) [(0%nat, 40)] 1 true []),
             page narrow)) as Hobs.
  { apply observe_eq. vm_compute. reflexivity. }
  split; [exact Hobs|].
  exact (proj1 (callbacks_never_early _ _ _ _ _
                  [Elapse 50; Mutation; Elapse 10; Mutation; Elapse 90] Hobs)).
Defined.

(** A [debounce] of 2^31 or more wraps: 2^32 + 5 milliseconds is a delay
    of 5, and 2^31 is negative as a 32-bit integer, hence a delay of 0. *)
Example debounce_wraps :
  timeoutDelay (2 ^ 32 + 5) = 5 ∧ timeoutDelay (2 ^ 31) = 0 ∧
  callTimes (run [Elapse 5]
               (mkObservation paragraph (2 ^ 32 + 5) (Some 0%nat) [(0%nat, 5)] 1 true [],
                page narrow)).1 = [5] ∧
  (observe (Ref paragraph) (mkOptions None (Some (2 ^ 32 + 5))) (page narrow)).1
  = Return (mkObservation paragraph (2 ^ 32 + 5) (Some 0%nat) [(0%nat, 5)] 1 true []).
Proof. split_and!; vm_compute; reflexivity. Qed.

Example foreign_element_callbacks :
  map (fun c => error c.1)
    (calls (run [Elapse 100; Mutation; Elapse 100]
              (mkObservation drawing 100 (Some 0%nat) [(0%nat, 100)] 1 true [], gallery)).1)
  = [Some "Element not found"%string; Some "Element not found"%string].
Proof. vm_compute. reflexivity. Qed.

(** * Further properties of ScrollbarWidthDetector *)

Lemma setElements_insert_insert x a b w :
  setElements (insert x b) (setElements (insert x a) w) = setElements (insert x b) w.
Proof. unfold setElements. cbn. by rewrite insert_insert_eq. Qed.

Lemma setContainerStyles_exact x styles w :
  styles ≠ [] ->
  _setContainerStyles x styles w =
    (Return tt,
     setElements
       (insert x (mkElement (isHTMLElement (elementAt w x))
                    (foldl (fun acc d => <[d.1 := d.2]> acc) (style (elementAt w x)) styles)
                    (data (elementAt w x)) (childNodes (elementAt w x)))) w).
Proof.
  revert w. induction styles as [|[p v] styles IH]; intros w Hne; [done|].
  set (w1 := setElements
               (insert x (mkElement (isHTMLElement (elementAt w x))
                            (<[p := v]> (style (elementAt w x)))
                            (data (elementAt w x)) (childNodes (elementAt w x)))) w).
  change (_setContainerStyles x ((p, v) :: styles) w)
    with (_setContainerStyles x styles w1).
  destruct styles as [|d styles']; [done|].
  rewrite IH by done. subst w1. rewrite elementAt_insert.
  cbn [isHTMLElement style data childNodes]. by rewrite setElements_insert_insert.
Qed.

Lemma wp_setContainerStyles_exact x styles (Q : Outcome unit -> World -> Prop) w :
  styles ≠ [] ->
  Q (Return tt)
    (setElements
       (insert x (mkElement (isHTMLElement (elementAt w x))
                    (foldl (fun acc d => <[d.1 := d.2]> acc) (style (elementAt w x)) styles)
                    (data (elementAt w x)) (childNodes (elementAt w x)))) w) ->
  wp (_setContainerStyles x styles) Q w.
Proof. intros Hne H. unfold wp. by rewrite setContainerStyles_exact. Qed.

(** X14.  How the width is obtained.  A measurement that returns [v]
    created two boxes and asked the browser for two widths: that of the
    container, in the document as it was once the container, with its eight
    assignments to [style] (overflow hidden among them) and no child, had
    become the last child of the body; and that of the box filling it, in
    the document as it was once the container had overflow scroll and held
    that box as its only child.  [v] is the first reading minus the second,
    or 0 if that is negative.  The two boxes stay as they were at the
    second reading. *)
Theorem measureScrollbarWidth_value w v w' :
  _measureScrollbarWidth w = (Return v, w') ->
  exists outer inner without within,
    (outer ∉ dom (elements w)) ∧ outer ≠ body w ∧
    (inner ∉ dom (elements w)) ∧ inner ≠ body w ∧ outer ≠ inner ∧
    offsetWidth (host w) (mkDocument (body w) (containerAttached w outer)) outer
      = inr without ∧
    offsetWidth (host w) (mkDocument (body w) (containerFilled w outer inner)) inner
      = inr within ∧
    v = Z.max 0 (lvalue without - lvalue within) ∧
    elements w' !! outer =
      Some (mkElement true (<["overflow"%string := "scroll"%string]> containerStyle)
              [] [inner]) ∧
    elements w' !! inner = Some (mkElement true fillStyle [] []).
Proof.
  intros Hrun.
  set (F := fun (out : Outcome Z) (w1 : World) =>
    forall v, out = Return v ->
      exists outer inner without within,
        (outer ∉ dom (elements w)) ∧ outer ≠ body w ∧
        (inner ∉ dom (elements w)) ∧ inner ≠ body w ∧ outer ≠ inner ∧
        offsetWidth (host w) (mkDocument (body w) (containerAttached w outer)) outer
          = inr without ∧
        offsetWidth (host w) (mkDocument (body w) (containerFilled w outer inner)) inner
          = inr within ∧
        v = Z.max 0 (lvalue without - lvalue within) ∧
        elements w1 !! outer =
          Some (mkElement true (<["overflow"%string := "scroll"%string]> containerStyle)
                  [] [inner]) ∧
        elements w1 !! inner = Some (mkElement true fillStyle [] [])).
  assert (wp _measureScrollbarWidth F w) as HF; [|exact (wp_elim _ _ _ _ _ Hrun HF v eq_refl)].
  assert (forall e x w1,
            wp (body_removeChild x)
              (fun c w'' => match c with
                            | Return _ => F (Throw e) w''
                            | Throw e' => F (Throw e') w''
                            end) w1) as Hthrow.
  { intros e x w1. apply wp_body_removeChild; intros _ v0 E; discriminate. }
  unfold _measureScrollbarWidth.
  apply wp_bind, wp_createElement. intros outer Hfresh Hob _.
  apply wp_bind, wp_setContainerStyles_exact; [done|].
  rewrite elementAt_insert, setElements_insert_insert.
  cbn [isHTMLElement style data childNodes].
  change (foldl _ ∅ _) with containerStyle.
  apply wp_bind, wp_body_appendChild.
  match goal with |- wp _ _ ?W => set (w3 := W) end.
  assert (elements w3 = containerAttached w outer) as E3.
  { subst w3. unfold setAttached, containerAttached, attached.
    cbn [body elements setElements]. by rewrite !elementAt_insert_ne by congruence. }
  assert (host w3 = host w ∧ body w3 = body w) as [Hh3 Hb3] by done.
  clearbody w3.
  apply wp_tryFinally, wp_bind.
  unfold HTMLElement_offsetWidth at 1. apply wp_query.
  unfold document. rewrite Hh3, Hb3, E3.
  destruct (offsetWidth (host w) (mkDocument (body w) (containerAttached w outer)) outer)
    as [e|without] eqn:Hwithout; [apply Hthrow|].
  apply wp_bind. unfold setStyle. apply wp_updateElement.
  assert (elementAt w3 outer = mkElement true containerStyle [] []) as Eo.
  { unfold elementAt. rewrite E3. unfold containerAttached.
    rewrite lookup_insert_ne by congruence. by rewrite lookup_insert_eq. }
  rewrite Eo. cbn [isHTMLElement style data childNodes].
  apply wp_bind, wp_createElement. intros inner Hinner Hib _.
  cbn [elements body setElements] in Hinner, Hib.
  assert (inner ≠ outer) as Hne.
  { intros ->. apply Hinner. rewrite dom_insert_L. set_solver. }
  assert (inner ∉ dom (elements w)) as Hinner0.
  { intros Hin. apply Hinner. rewrite E3. unfold containerAttached.
    rewrite !dom_insert_L. set_solver. }
  apply wp_bind, wp_setContainerStyles_exact; [done|].
  rewrite elementAt_insert, setElements_insert_insert.
  cbn [isHTMLElement style data childNodes].
  change (foldl _ ∅ _) with fillStyle.
  apply wp_bind. unfold appendChild. apply wp_updateElement.
  rewrite elementAt_insert_ne, elementAt_insert by done.
  cbn [isHTMLElement style data childNodes].
  change (remove inner [] ++ [inner]) with [inner].
  match goal with |- wp _ _ ?W => set (w7 := W) end.
  assert (elements w7 = containerFilled w outer inner) as E7.
  { subst w7. cbn [elements setElements]. rewrite E3. unfold containerFilled.
    rewrite (insert_insert_ne _ inner outer) by done. by rewrite insert_insert_eq. }
  assert (host w7 = host w ∧ body w7 = body w) as [Hh7 Hb7] by done.
  clearbody w7.
  apply wp_bind. unfold HTMLElement_offsetWidth. apply wp_query.
  unfold document. rewrite Hh7, Hb7, E7.
  destruct (offsetWidth (host w) (mkDocument (body w) (containerFilled w outer inner)) inner)
    as [e|within] eqn:Hwithin; [apply Hthrow|].
  apply wp_ret, wp_body_removeChild.
  - intros _ v0 E. injection E as <-.
    exists outer, inner, without, within.
    assert (outer ≠ body w7) as Hob7 by congruence.
    assert (inner ≠ body w7) as Hib7 by congruence.
    split_and!; try done; try congruence.
    + rewrite lookup_setAttached, E7 by done. unfold containerFilled.
      by rewrite lookup_insert_eq.
    + rewrite lookup_setAttached, E7 by done. unfold containerFilled.
      rewrite lookup_insert_ne by congruence. by rewrite lookup_insert_eq.
  - intros _ v0 E. discriminate.
Qed.

Lemma measureScrollbarWidth_value_witness :
  exists outer inner without within,
    (outer ∉ dom (elements (page classic))) ∧ outer ≠ body (page classic) ∧
    (inner ∉ dom (elements (page classic))) ∧ inner ≠ body (page classic) ∧
    outer ≠ inner ∧
    offsetWidth classic (mkDocument bodyNode (containerAttached (page classic) outer)) outer
      = inr without ∧
    offsetWidth classic (mkDocument bodyNode (containerFilled (page classic) outer inner))
      inner = inr within ∧
    15 = Z.max 0 (lvalue without - lvalue within).
Proof.
  destruct (measureScrollbarWidth_value (page classic) 15
              (_measureScrollbarWidth (page classic)).2)
    as (outer & inner & a & b & H1 & H2 & H3 & H4 & H5 & H6 & H7 & H8 & _).
  - apply run_eq. vm_compute. reflexivity.
  - exists outer, inner, a, b. by split_and!.
Defined.

(** The two readings in the browser with classic scrollbars: 100 for the
    container, 85 for the box inside it once it scrolls. *)
Example classic_readings :
  match offsetWidth classic
          (mkDocument bodyNode (containerAttached (page classic) 4%positive)) 4%positive,
        offsetWidth classic
          (mkDocument bodyNode (containerFilled (page classic) 4%positive 5%positive))
          5%positive
  with
  | inr without, inr within => lvalue without = 100 ∧ lvalue within = 85
  | _, _ => False
  end.
Proof. vm_compute. split; reflexivity. Qed.

(** X15.  A measurement cleans up after itself on every exit path.  In a
    document whose body children are elements of the document, the body has
    the same children after [_measureScrollbarWidth] as before, whether it
    returned a width or a reading threw; the elements that existed are
    untouched, both caches are as they were, and a returned width is never
    negative. *)
Theorem measureScrollbarWidth_cleans_up w out w' :
  _measureScrollbarWidth w = (out, w') ->
  (forall n, n ∈ attached w -> n ∈ dom (elements w)) ->
  attached w' = attached w ∧
  (forall n, n ∈ dom (elements w) -> elements w' !! n = elements w !! n) ∧
  cachedWidth w' = cachedWidth w ∧
  measureElement w' = measureElement w ∧
  (forall v, out = Return v -> 0 <= v).
Proof.
  intros Hrun Hwf.
  destruct (wp_elim _ _ _ _ _ Hrun (_measureScrollbarWidth_spec w))
    as [G C M (outer & Hfresh & A) V].
  assert (attached w' = attached w) as A'.
  { rewrite A. apply remove_not_in. intros Hin. by apply Hfresh, Hwf. }
  split_and!; try done.
  intros n [e He]%elem_of_dom. rewrite He.
  destruct (decide (n = body w)) as [->|Hn]; [|by eapply grows_lookup].
  pose proof (grows_bodyElement _ _ G) as S.
  assert (body w ∈ dom (elements w')) as [e' He']%elem_of_dom.
  { apply (grows_dom _ _ G), elem_of_dom. eauto. }
  rewrite He'. f_equal.
  unfold attached in A'. rewrite (grows_body _ _ G) in A'.
  unfold elementAt in S, A'. rewrite He, He' in S, A'. cbn in S, A'.
  destruct S as (S1 & S2 & S3). destruct e, e'. cbn in S1, S2, S3, A'. congruence.
Qed.

Lemma measureScrollbarWidth_cleans_up_witness :
  (_measureScrollbarWidth (page broken)).1 = Throw (Exn "layout failed") ∧
  attached (_measureScrollbarWidth (page broken)).2 = attached (page broken) ∧
  cachedWidth (_measureScrollbarWidth (page broken)).2 = cachedWidth (page broken).
Proof.
  destruct (measureScrollbarWidth_cleans_up (page broken)
              (_measureScrollbarWidth (page broken)).1
              (_measureScrollbarWidth (page broken)).2)
    as (A & _ & C & _).
  - by destruct (_measureScrollbarWidth (page broken)).
  - intros n Hn. change (attached (page broken)) with [paragraph] in Hn.
    apply elem_of_cons in Hn as [->|Hn]; [|by apply elem_of_nil in Hn].
    apply elem_of_dom. vm_compute. eauto.
  - split; [vm_compute; reflexivity|]. by split.
Defined.

Lemma getWidth_measures w :
  cachedWidth w = None ->
  getWidth true w =
    match _measureScrollbarWidth w with
    | (Return v, w2) => (Return v, setCachedWidth (Some v) w2)
    | (Throw e2, w2) => (Throw e2, w2)
    end.
Proof.
  intros Hc. unfold getWidth, bind at 1, get. rewrite Hc. unfold bind at 1.
  destruct (_measureScrollbarWidth w) as [[v|e] w1]; reflexivity.
Qed.

(** X16.  A failed measurement is not cached.  When the first
    [getWidth(true)] raises, the exception is the measurement's, nothing is
    cached, and the next [getWidth(true)] measures again, caching what it
    gets. *)
Theorem getWidth_failure_is_not_cached w e w' :
  cachedWidth w = None ->
  getWidth true w = (Throw e, w') ->
  _measureScrollbarWidth w = (Throw e, w') ∧
  cachedWidth w' = None ∧
  getWidth true w' =
    match _measureScrollbarWidth w' with
    | (Return v, w2) => (Return v, setCachedWidth (Some v) w2)
    | (Throw e2, w2) => (Throw e2, w2)
    end.
Proof.
  intros Hc Hrun. pose proof (getWidth_first w _ _ Hc Hrun) as Hc'.
  change (cachedWidth w' = None) in Hc'.
  rewrite (getWidth_measures w Hc) in Hrun.
  split; [|split; [exact Hc' | exact (getWidth_measures w' Hc')]].
  destruct (_measureScrollbarWidth w) as [[v|e1] w1]; [discriminate|].
  injection Hrun as -> ->. reflexivity.
Qed.

Lemma getWidth_failure_is_not_cached_witness :
  cachedWidth (getWidth true (page broken)).2 = None.
Proof.
  refine (proj1 (proj2 (getWidth_failure_is_not_cached (page broken) (Exn "layout failed")
                          (getWidth true (page broken)).2 eq_refl _))).
  apply run_eq. vm_compute. reflexivity.
Defined.

Lemma getScrollbarType_ranges v :
  0 <= v ->
  match _getScrollbarType v with
  | none => v = 0
  | thin => 1 <= v <= 8
  | normal => 9 <= v <= 12
  | thick => 13 <= v
  end.
Proof.
  intros Hv. unfold _getScrollbarType.
  destruct (Z.eqb_spec v 0); [done|].
  destruct (Z.leb_spec v 8); [lia|]. destruct (Z.leb_spec v 12); lia.
Qed.

(** X17.  The fields of [getInfo] agree with each other.  On a first
    call, made while nothing is cached, the reported width is not negative,
    [exists] says whether it is positive, and the type is none for 0, thin
    for 1 to 8, normal for 9 to 12 and thick above; [hasScrollbar] then
    answers what [exists] says and a second [getInfo] gives the same
    record, both without measuring again. *)
Theorem getInfo_consistent w i w' :
  cachedWidth w = None ->
  getInfo w = (Return i, w') ->
  0 <= width i ∧
  (exists_ i = true <-> 0 < width i) ∧
  (type i = none <-> width i = 0) ∧
  (type i = thin <-> 1 <= width i <= 8) ∧
  (type i = normal <-> 9 <= width i <= 12) ∧
  (type i = thick <-> 13 <= width i) ∧
  hasScrollbar w' = (Return (exists_ i), w') ∧
  getInfo w' = (Return i, w').
Proof.
  intros Hc Hrun. unfold getInfo, bind in Hrun.
  destruct (getWidth true w) as [[v|e] w1] eqn:Hg; [|discriminate].
  destruct (getWidth_first w _ _ Hc Hg) as [Hv Hc1].
  unfold ret in Hrun. injection Hrun as <- <-. cbn [width exists_ type].
  split; [exact Hv|]. split; [apply Z.ltb_lt|].
  split; [|split; [|split; [|split; [|split]]]].
  1-4: pose proof (getScrollbarType_ranges v Hv) as T;
       destruct (_getScrollbarType v);
       (split; [intros ?; try discriminate; lia | intros ?; try reflexivity; lia]).
  - unfold hasScrollbar, bind. rewrite (getWidth_cached v w1 Hc1). reflexivity.
  - unfold getInfo, bind. rewrite (getWidth_cached v w1 Hc1). reflexivity.
Qed.

Lemma getInfo_consistent_witness :
  0 <= 15 ∧ (true = true <-> 0 < 15) ∧ (thick = none <-> 15 = 0).
Proof.
  destruct (getInfo_consistent (page classic) (mkInfo 15 true thick)
              (getInfo (page classic)).2 eq_refl
              (run_eq _ _ _ ltac:(vm_compute; reflexivity)))
    as (H1 & H2 & H3 & _).
  by split_and!.
Defined.

(** * Results of a successful detection *)

(** On the sample page the body's children are elements of the document. *)
Lemma page_children_known h n : n ∈ attached (page h) -> n ∈ dom (elements (page h)).
Proof.
  change (attached (page h)) with [paragraph]. intros Hn.
  apply elem_of_cons in Hn as [->|Hn]; [|by apply elem_of_nil in Hn].
  apply elem_of_dom. vm_compute. eauto.
Qed.

(** X18.  A detection that ends without error leaves the document's body
    as it found it: in a document whose body children are elements of the
    document, the body has the same children after [detect] returned a
    result without error as before the call. *)
Theorem detect_success_restores_body t text w r w' :
  detect t text w = (Return r, w') ->
  error r = None ->
  (forall n, n ∈ attached w -> n ∈ dom (elements w)) ->
  attached w' = attached w.
Proof.
  intros H%detect_inv He Hwf.
  assert (forall text1, CloneSpec w t text1 (Return r) w' -> attached w' = attached w) as HC.
  { intros text1 S. inversion S; subst; try done.
    match goal with
    | HA : attachScratch _ _ _ = (Return ?m, _) |- _ =>
        destruct (attachScratch_attached _ _ _ _ _ HA) as [_ _ Hm _ _ _ Ha];
        rewrite attached_setAttached, Ha, remove_append;
        apply remove_not_in; intros Hin; by apply Hm, Hwf
    end. }
  inversion H; subst; eauto.
Qed.

Lemma detect_success_restores_body_witness :
  attached (detect (Ref paragraph) (Some (ascii_text "hello world")) (page narrow)).2
  = attached (page narrow).
Proof.
  apply (detect_success_restores_body (Ref paragraph) (Some (ascii_text "hello world"))
           (page narrow)
           (mkResult true None
              (mkDetails (Some (Num (Z2num 308))) (Some (Num (Z2num 100)))
                 (Some (Z2num 100)) (Some (Z2num 208)) (Some 11%nat)) 0)).
  - apply run_eq. vm_compute. reflexivity.
  - reflexivity.
  - apply page_children_known.
Defined.

(** ** When a Number is NaN *)

Lemma Math_round_nan x : Math_round x = NaN -> x = NaN.
Proof.
  destruct x as [s|s| |s m e]; try done. intros H.
  pose proof (Math_round_signed s (S754_finite s m e) eq_refl) as Hs.
  by rewrite H in Hs.
Qed.

Lemma Math_max0_nan x : Math_max0 x = NaN -> x = NaN.
Proof. by destruct x as [[]|[]| |[] m e]. Qed.

Lemma sub_nan x y :
  sub x y = NaN ->
  x = NaN ∨ y = NaN ∨ exists s, x = S754_infinity s ∧ y = S754_infinity s.
Proof.
  destruct x as [sx|sx| |sx mx ex], y as [sy|sy| |sy my ey]; try (by auto).
  - unfold sub. cbn. by destruct sx, sy.
  - unfold sub. cbn. destruct sx, sy; try done; intros _; right; right; eauto.
  - rewrite sub_finite. intros H.
    pose proof (binary_normalize_signed
                  (scaled sx mx ex (Z.min ex ey) - scaled sy my ey (Z.min ex ey))
                  (Z.min ex ey) false) as Hs.
    rewrite H in Hs. by destruct (_ - _).
Qed.

Lemma orZero_finite x : finite_double (orZero x) = true.
Proof.
  destruct x as [[v Hv]|]; [|done]. unfold orZero. cbn [dvalue]. by destruct v.
Qed.

Lemma sub_finite_nan x y : finite_double y = true -> sub x y = NaN -> x = NaN.
Proof.
  intros Hy [H|[H|(s & _ & H)]]%sub_nan; [done|by rewrite H in Hy..].
Qed.

Lemma contentWidth_nan cw cs : contentWidth cw cs = NaN -> toNumber cw = NaN.
Proof.
  unfold contentWidth. intros H%sub_finite_nan; [|apply orZero_finite].
  by apply sub_finite_nan in H; [|apply orZero_finite].
Qed.

Lemma Z2num_number n : Z2num n ≠ NaN.
Proof.
  unfold Z2num. intros H. pose proof (binary_normalize_signed n 0 false) as Hs.
  rewrite H in Hs. by destruct n.
Qed.

Lemma offsetWidthOf_nan w x v : offsetWidthOf w x = inr v -> toNumber v = NaN -> v = undefined.
Proof.
  unfold offsetWidthOf. destruct (isHTMLElement _); [|by intros [= <-]].
  destruct (offsetWidth _ _ _) as [e|n]; [done|]. intros [= <-] H.
  by apply Z2num_number in H.
Qed.

Lemma numCompare_None x y : numCompare x y = None -> x = NaN ∨ y = NaN.
Proof.
  destruct x as [sx|sx| |sx mx ex], y as [sy|sy| |sy my ey]; cbn; try done; auto;
    by destruct sx.
Qed.

(** The two overflow fields of a measurement. *)
Lemma measurement_fields tw shown cw cs len now :
  reading tw ->
  let r := measurement tw shown cw cs len now in
  (isOverflowing r = false ->
     overflowAmount r = Some zero ∨ overflowAmount r = Some NaN) ∧
  (overflowAmount r = Some NaN ->
     isOverflowing r = false ∧ (tw = NaN ∨ toNumber cw = NaN)) ∧
  (forall amount, overflowAmount r = Some amount -> lessThan zero amount = true ->
     isOverflowing r = true).
Proof.
  intros Hr r. unfold r, measurement, overflowAmount. cbn.
  set (aw := contentWidth cw cs).
  assert (gt tw aw = false ->
          Math_round (Math_max0 (sub tw aw)) = zero ∨
          Math_round (Math_max0 (sub tw aw)) = NaN) as H1.
  { unfold gt, lessThan. rewrite (numCompare_opp tw aw).
    destruct (numCompare tw aw) as [c|] eqn:Hc.
    - destruct c; cbn; intros Hgt; try done; left;
        rewrite sub_not_above; try done; unfold lessEq; by rewrite Hc.
    - intros _. right. apply numCompare_None in Hc as [-> | ->]; [done|].
      by destruct tw. }
  assert (Math_round (Math_max0 (sub tw aw)) = NaN -> tw = NaN ∨ aw = NaN) as H2.
  { intros H%Math_round_nan%Math_max0_nan%sub_nan.
    destruct H as [H|[H|(s & H & _)]]; auto. by rewrite H in Hr. }
  split; [|split].
  - intros Hgt. destruct (H1 Hgt) as [-> | ->]; auto.
  - intros [= H]. destruct (H2 H) as [Hn|Hn].
    + split; [by rewrite Hn; destruct aw|auto].
    + split; [unfold gt, lessThan; rewrite Hn; by destruct tw|].
      right. by apply contentWidth_nan in Hn.
  - intros amount [= <-] Hpos. destruct (gt tw aw) eqn:Hgt; [done|].
    destruct (H1 eq_refl) as [E|E]; rewrite E in Hpos; done.
Qed.

(** A result without error is a measurement. *)
Lemma detect_measurement t text w r w' :
  detect t text w = (Return r, w') ->
  error r = None ->
  exists tw shown cw cs len,
    r = measurement tw shown cw cs len (clock w) ∧ reading tw ∧
    (tw = NaN -> shown = undefined) ∧ (toNumber cw = NaN -> cw = undefined).
Proof.
  intros Hrun%detect_inv He.
  assert (forall out, RangeSpec w t out -> out = Return r ->
            exists tw shown cw cs len,
              r = measurement tw shown cw cs len (clock w) ∧ reading tw ∧
              (tw = NaN -> shown = undefined) ∧ (toNumber cw = NaN -> cw = undefined)) as HR.
  { intros out S. destruct S as [| | | |el tw cw cs Hl Hc Hrd]; intros E; simplify_eq;
      try done.
    eexists _, _, _, _, _. split; [done|]. split; [apply dvalue_reading|].
    unfold rangeReadings in Hrd. repeat case_match; simplify_eq. split.
    - intros Hn. by destruct tw as [[| | |] Hf].
    - by eapply offsetWidthOf_nan. }
  assert (forall text1 out, CloneSpec w t text1 out w' -> out = Return r ->
            exists tw shown cw cs len,
              r = measurement tw shown cw cs len (clock w) ∧ reading tw ∧
              (tw = NaN -> shown = undefined) ∧ (toNumber cw = NaN -> cw = undefined)) as HC.
  { intros text1 out S.
    destruct S as [| | | | | |el testText tw cw cs m w4 Hl Htt Htr HA Hrd]; intros E;
      simplify_eq; try done.
    eexists _, _, _, _, _. split; [done|].
    unfold cloneReadings in Hrd.
    destruct (offsetWidthOf w4 m) as [?|v] eqn:Hv; [done|].
    destruct (offsetWidthOf w4 el) as [?|v'] eqn:Hv'; [done|].
    repeat case_match; simplify_eq.
    split; [by eapply toNumber_reading|]. split; by eapply offsetWidthOf_nan. }
  inversion Hrun; subst; eauto; congruence.
Qed.

(** X19.  How the two overflow fields of a result without error go
    together, in the arithmetic of Numbers.  A result that is not
    overflowing reports an overflow amount of 0 or NaN; the amount is NaN
    only where a width read from the page was undefined (the [offsetWidth] of
    an element that is no HTML element), and such a result is not
    overflowing; a positive overflow amount only comes with an overflowing
    result.  The converse fails: an overflow of less than half a pixel is
    reported as overflowing with amount 0. *)
Theorem overflow_fields_agree t text w r w' :
  detect t text w = (Return r, w') ->
  error r = None ->
  (isOverflowing r = false ->
     overflowAmount r = Some zero ∨ overflowAmount r = Some NaN) ∧
  (overflowAmount r = Some NaN ->
     isOverflowing r = false ∧
     (textWidth r = Some undefined ∨ containerWidth r = Some undefined)) ∧
  (forall amount, overflowAmount r = Some amount -> lessThan zero amount = true ->
     isOverflowing r = true).
Proof.
  intros Hrun He.
  destruct (detect_measurement _ _ _ _ _ Hrun He)
    as (tw & shown & cw & cs & len & -> & Hr & Htw & Hcw).
  destruct (measurement_fields tw shown cw cs len (clock w) Hr) as (H1 & H2 & H3).
  split; [exact H1|]. split; [|exact H3].
  intros Hn. destruct (H2 Hn) as [Ho [H|H]]; (split; [exact Ho|]).
  - left. cbn. by rewrite (Htw H).
  - right. cbn. by rewrite (Hcw H).
Qed.

Lemma overflow_fields_agree_witness :
  (true = false -> Some (Z2num 0) = Some zero ∨ Some (Z2num 0) = Some NaN) ∧
  (Some (Z2num 0) = Some NaN ->
     true = false ∧
     (Some (Num (Z2num 100)) = Some undefined ∨ Some (Num (Z2num 100)) = Some undefined)) ∧
  (forall amount, Some (Z2num 0) = Some amount -> lessThan zero amount = true -> true = true).
Proof.
  apply (overflow_fields_agree (Ref paragraph) None (page hairline)
           (mkResult true None
              (mkDetails (Some (Num (Z2num 100))) (Some (Num (Z2num 100)))
                 (Some (Z2num 100)) (Some (Z2num 0)) None) 0)
           (page hairline)).
  - apply run_eq. vm_compute. reflexivity.
  - reflexivity.
Defined.

(** The quarter-pixel overflow: overflowing, amount 0. *)
Example hairline_overflow :
  (detect (Ref paragraph) None (page hairline)).1 =
  Return (mkResult true None
            (mkDetails (Some (Num (Z2num 100))) (Some (Num (Z2num 100)))
               (Some (Z2num 100)) (Some (Z2num 0)) None) 0).
Proof. vm_compute. reflexivity. Qed.

(** * What a detection writes *)

(** X21.  What [detect] may change, whatever the target, the override and
    the outcome: the body's list of children, the cached template, and
    nodes it creates.  Every node that existed, the body aside, is exactly
    as it was, with its style and its children, a target other than the body
    among them; the body keeps its style; the clock and the scrollbar cache
    are untouched.  In a document whose body children are elements of the
    document, the body's children too are as before unless the result is the
    error 'Clone detection failed'; it is through the body's children that
    the text under the body can change. *)
Theorem detect_writes_scratch_only t text w out w' :
  detect t text w = (out, w') ->
  (forall n, n ∈ dom (elements w) -> n ≠ body w -> elements w' !! n = elements w !! n) ∧
  sameButChildren (elementAt w (body w)) (elementAt w' (body w)) ∧
  host w' = host w ∧ body w' = body w ∧ clock w' = clock w ∧
  cachedWidth w' = cachedWidth w ∧
  ((forall n, n ∈ attached w -> n ∈ dom (elements w)) ->
   (forall r e, out = Return r ->
      error r ≠ Some ("Clone detection failed: " ++ message e)%string) ->
   attached w' = attached w).
Proof.
  intros Hrun. pose proof (detect_grows _ _ _ _ _ Hrun) as G.
  split_and!; try apply G.
  - intros n [e He]%elem_of_dom Hn. rewrite He. by apply (grows_elements _ _ G).
  - apply detect_inv in Hrun.
    assert (forall text1, CloneSpec w t text1 out w' -> cachedWidth w' = cachedWidth w) as HC.
    { intros text1 S.
      destruct S as [| | | |el testText e w1 Hl Htt Htr HA
                    |el testText e m w4 Hl Htt Htr HA Hrd
                    |el testText tw cw cs m w4 Hl Htt Htr HA Hrd]; try done.
      - destruct (attachScratch_dropped _ _ _ _ _ HA) as [_ C _ _].
        rewrite <- C. unfold detachTemplate. by repeat case_match.
      - destruct (attachScratch_attached _ _ _ _ _ HA) as [_ C _ _ _ _ _].
        rewrite <- C. unfold detachTemplate. by repeat case_match.
      - by destruct (attachScratch_attached _ _ _ _ _ HA) as [_ C _ _ _ _ _]. }
    inversion Hrun; subst; eauto.
  - intros Hwf Hok. apply detect_inv in Hrun.
    assert (forall text1, CloneSpec w t text1 out w' -> attached w' = attached w) as HC.
    { intros text1 S.
      destruct S as [| | | |el testText e w1 Hl Htt Htr HA
                    |el testText e m w4 Hl Htt Htr HA Hrd
                    |el testText tw cw cs m w4 Hl Htt Htr HA Hrd]; try done.
      - by destruct (Hok _ e eq_refl).
      - by destruct (Hok _ e eq_refl).
      - destruct (attachScratch_attached _ _ _ _ _ HA) as [_ _ Hm _ _ _ Ha].
        rewrite attached_setAttached, Ha, remove_append.
        apply remove_not_in. intros Hin. by apply Hm, Hwf. }
    inversion Hrun; subst; eauto.
Qed.

Lemma detect_writes_scratch_only_witness :
  elements (detect (Ref paragraph) (Some (ascii_text "a much longer text")) (page narrow)).2
    !! paragraph = elements (page narrow) !! paragraph ∧
  attached (detect (Ref paragraph) (Some (ascii_text "a much longer text")) (page narrow)).2
    = attached (page narrow).
Proof.
  destruct (detect_writes_scratch_only (Ref paragraph)
              (Some (ascii_text "a much longer text")) (page narrow)
              (Return (mkResult true None
                 (mkDetails (Some (Num (Z2num 504))) (Some (Num (Z2num 100)))
                    (Some (Z2num 100)) (Some (Z2num 404)) (Some 18%nat)) 0))
              (detect (Ref paragraph) (Some (ascii_text "a much longer text"))
                 (page narrow)).2)
    as (H1 & _ & _ & _ & _ & _ & H2).
  - apply run_eq. vm_compute. reflexivity.
  - split.
    + apply H1; [apply elem_of_dom; vm_compute; eauto | discriminate].
    + apply H2.
      * apply page_children_known.
      * intros r e [= <-]. discriminate.
Defined.
